(** * catalyst: the distributed worker launcher and the dict utilities

    A shallow embedding of
      - [catalyst/utils/scripts.py]        ([distributed_cmd_run]) and
      - [catalyst/contrib/utils/dict.py]   (the dict utilities),
    with the properties their specification states about them. *)

From Stdlib Require Import ZArith List String Bool Lia.
From stdpp Require Import gmap strings list fin_maps pretty.

Local Open Scope string_scope.
Local Open Scope Z_scope.
Local Open Scope list_scope.

(** ** A state and exception monad

    Python statements, as functions from the state before to the state after
    and either the exception raised or the value computed. *)

Module StateErr.

Section Monad.

Context {S E : Type}.

Definition M (A : Type) : Type := S -> S * (E + A).

Definition ret {A} (a : A) : M A := fun s => (s, inr a).

Definition raise {A} (e : E) : M A := fun s => (s, inl e).

Definition bind {A B} (m : M A) (k : A -> M B) : M B :=
  fun s => match m s with
           | (s', inr a) => k a s'
           | (s', inl e) => (s', inl e)
           end.

(** [try: body finally: handler].  An exception of [body] is re-raised after
    [handler]; an exception of [handler] replaces it. *)
Definition try_finally {A} (body : M A) (handler : M unit) : M A :=
  fun s => match body s with
           | (s1, r) => match handler s1 with
                        | (s2, inr _) => (s2, r)
                        | (s2, inl e) => (s2, inl e)
                        end
           end.

(** [for x in l: body x] *)
Fixpoint for_each {A} (l : list A) (body : A -> M unit) : M unit :=
  match l with
  | [] => ret tt
  | x :: l' => bind (body x) (fun _ => for_each l' body)
  end.

(** [for x in l: acc = body acc x], with the local variable [acc] threaded
    through. *)
Fixpoint fold_m {A B} (l : list A) (acc : B) (body : B -> A -> M B) : M B :=
  match l with
  | [] => ret acc
  | x :: l' => bind (body acc x) (fun acc' => fold_m l' acc' body)
  end.

(** [[f x for x in l]] *)
Fixpoint map_m {A B} (l : list A) (f : A -> M B) : M (list B) :=
  match l with
  | [] => ret []
  | x :: l' => bind (f x) (fun y => bind (map_m l' f) (fun ys => ret (y :: ys)))
  end.

End Monad.

Arguments M : clear implicits.

Declare Scope monad_scope.
Notation "x <- m ;; k" := (bind m (fun x => k))
  (at level 100, m at next level, right associativity) : monad_scope.
Notation "m ;;; k" := (bind m (fun _ => k))
  (at level 100, right associativity) : monad_scope.

End StateErr.

(** ** Part I: [distributed_cmd_run] *)

Module Launcher.
Import StateErr.
Local Open Scope monad_scope.

(** An exception object, identified by the name of its class. *)
Definition exn := string.

(** [os.environ]-like mapping handed to a child process. *)
Definition environ := list (string * string).

(** A [subprocess.Popen] object, identified by the pid of its child. *)
Definition handle := Z.

(** The dictionary returned by [get_distributed_params()], restricted to the
    three entries [distributed_cmd_run] reads. *)
Record DistributedParams := {
  local_rank : option Z;
  world_size : Z;
  start_rank : Z
}.

(** The process-wide state the launcher reads: [os.environ], [sys.executable],
    [sys.argv] and [torch.cuda.device_count()]. *)
Record process := {
  os_environ : environ;
  sys_executable : string;
  sys_argv : list string;
  cuda_device_count : Z
}.

(** Python's [range(n)]: empty when [n <= 0]. *)
Definition range (n : Z) : list Z := map Z.of_nat (seq 0 (Z.to_nat n)).

Section WithWorld.

(** Opaque Python objects: the values passed through to [worker_fn], and the
    callables that can be given as [worker_fn]. *)
Context {pyobj callable : Type}.

(** The calls the launcher makes to code outside of itself. *)
Inductive call :=
| worker_call (worker_fn : callable) (args : list pyobj) (kwargs : list (string * pyobj))
| set_device (device : Z)                                (* torch.cuda.set_device *)
| init_process_group (backend init_method : string)       (* torch.distributed.init_process_group *)
| Popen (cmd : list string) (env : environ)              (* subprocess.Popen(cmd, env=env) *)
| wait (worker : handle)                                  (* Popen.wait() *)
| kill (worker : handle).                                 (* Popen.kill() *)

(** How a call ends.  The value of [Returned] is the pid of the new child for
    [Popen], the exit status of the child for [wait], and is not looked at for
    the other calls (they return [None] or a value the launcher drops). *)
Inductive reply :=
| Returned (v : Z)
| Raised (e : exn).

Definition event : Type := call * reply.

(** The world outside of the launcher: what a call answers, given everything
    that happened before. *)
Definition world := list event -> call -> reply.

(** The launcher's state: the log of the calls made so far, oldest first, and
    the local list [workers], which the [finally] block reads after an
    exception has interrupted the [try] block. *)
Record state := {
  log : list event;
  workers : list handle
}.

Local Abbreviation M := (StateErr.M state exn).

Variable w : world.

(** A call that can raise: it is logged with the world's answer. *)
Definition external (c : call) : M Z :=
  fun s => let r := w (log s) c in
           ({| log := log s ++ [(c, r)]; workers := workers s |},
            match r with Returned v => inr v | Raised e => inl e end).

(** What a statement made of one call, its value dropped, hands on. *)
Definition reply_outcome (r : reply) : exn + unit :=
  match r with Returned _ => inr tt | Raised e => inl e end.

(** [worker.kill()].  The worker is a child of this process: the signal is
    delivered, or the child has been reaped by [wait] and nothing is done.
    The call returns [None]. *)
Definition do_kill (worker : handle) : M unit :=
  fun s => ({| log := log s ++ [(kill worker, Returned 0)]; workers := workers s |}, inr tt).

Definition workers_assign (l : list handle) : M unit :=
  fun s => ({| log := log s; workers := l |}, inr tt).

Definition workers_append (p : handle) : M unit :=
  fun s => ({| log := log s; workers := workers s ++ [p] |}, inr tt).

Definition workers_read : M (list handle) :=
  fun s => (s, inr (workers s)).

(** [get_distributed_params] and [get_distributed_env] come from
    [catalyst.utils.distributed], which is not embedded here: they are
    parameters.  The first reads the process-wide state and gives the
    parameters of this process; the second builds the environment of a worker
    from its local rank, its rank and the world size. *)
Variable get_distributed_params : process -> DistributedParams.
Variable get_distributed_env : Z -> Z -> Z -> environ.

Variable proc : process.

Definition distributed_cmd_run (distributed : bool) (worker_fn : callable)
    (args : list pyobj) (kwargs : list (string * pyobj)) : M unit :=
  let distributed_params := get_distributed_params proc in
  let local_rank := local_rank distributed_params in
  let world_size := world_size distributed_params in
  if negb distributed || (world_size <=? 1) then
    external (worker_call worker_fn args kwargs) ;;; ret tt
  else
    match local_rank with
    | Some local_rank =>
        external (set_device local_rank) ;;;       (* int(local_rank) is local_rank *)
        external (init_process_group "nccl" "env://") ;;;
        external (worker_call worker_fn args kwargs) ;;; ret tt
    | None =>
        workers_assign [] ;;;
        try_finally
          (for_each (range (cuda_device_count proc)) (fun local_rank =>
             let rank := start_rank distributed_params + local_rank in
             let env := get_distributed_env local_rank rank world_size in
             let cmd := sys_executable proc :: sys_argv proc in
             p <- external (Popen cmd env) ;;
             workers_append p) ;;;
           ws <- workers_read ;;
           for_each ws (fun worker => external (wait worker) ;;; ret tt))
          (ws <- workers_read ;;
           for_each ws do_kill)
    end.

(** *** Reading a log *)

(** The processes a stretch of the log has started: the pids returned by
    its [Popen] calls, in order. *)
Definition spawned_of (evs : list event) : list handle :=
  flat_map (fun ev => match ev with
                      | (Popen _ _, Returned p) => [p]
                      | _ => []
                      end) evs.

(** The first exception a stretch of the log has raised. *)
Fixpoint raised_in (evs : list event) : option exn :=
  match evs with
  | [] => None
  | (_, Raised e) :: _ => Some e
  | (_, Returned _) :: evs' => raised_in evs'
  end.

(** What the launcher hands back to its caller after a [try] block with the
    log [evs]: the exception raised in it, when there is one. *)
Definition outcome_of (evs : list event) : exn + unit :=
  match raised_in evs with
  | Some e => inl e
  | None => inr tt
  end.

Definition is_Popen (ev : event) : Prop :=
  match ev with (Popen _ _, _) => True | _ => False end.

Definition is_wait (ev : event) : Prop :=
  match ev with (wait _, _) => True | _ => False end.

Definition is_worker_call (ev : event) : Prop :=
  match ev with (worker_call _ _ _, _) => True | _ => False end.

Definition kill_events (ws : list handle) : list event :=
  map (fun p => (kill p, Returned 0)) ws.

(** The three branches of [distributed_cmd_run], named. *)
Definition spawn_branch (distributed : bool) : Prop :=
  distributed = true /\
  1 < world_size (get_distributed_params proc) /\
  local_rank (get_distributed_params proc) = None.

(** The command line and the environment of the worker with local rank [i]. *)
Definition worker_cmd : list string := sys_executable proc :: sys_argv proc.

Definition worker_env (i : Z) : environ :=
  get_distributed_env i (start_rank (get_distributed_params proc) + i)
                      (world_size (get_distributed_params proc)).

(** The body of the spawn loop and of the wait loop, as they stand in
    [distributed_cmd_run]. *)
Definition spawn_body (local_rank : Z) : M unit :=
  p <- external (Popen worker_cmd (worker_env local_rank)) ;;
  workers_append p.

Definition wait_body (worker : handle) : M unit :=
  external (wait worker) ;;; ret tt.

(** The log of a run of the spawn branch in which nothing raises: one
    [Popen] per local rank of [range(device_count)], returning the processes
    [ps]; then one [wait] per process, returning the exit statuses
    [statuses]; then one [kill] per process. *)
Definition nominal_log (ps : list handle) (statuses : list Z) : list event :=
  zip_with (fun i p =>
              (Popen (sys_executable proc :: sys_argv proc)
                     (get_distributed_env i
                        (start_rank (get_distributed_params proc) + i)
                        (world_size (get_distributed_params proc))),
               Returned p))
           (range (cuda_device_count proc)) ps ++
  zip_with (fun p status => (wait p, Returned status)) ps statuses ++
  kill_events ps.

(** Every [Popen] call starts a process, every [wait] call returns an exit
    status (whatever it is). *)
Definition every_Popen_returns : Prop :=
  forall h cmd env, exists p, w h (Popen cmd env) = Returned p.

Definition every_wait_returns : Prop :=
  forall h p, exists status, w h (wait p) = Returned status.

(** "A non-zero exit status of a worker reaches the caller as an error", for
    one call of the launcher from the state [s]. *)
Definition nonzero_exit_is_reported (worker_fn : callable)
    (args : list pyobj) (kwargs : list (string * pyobj)) (s : state) : Prop :=
  let '(s', r) := distributed_cmd_run true worker_fn args kwargs s in
  (exists p status, status <> 0 /\ In (wait p, Returned status) (log s')) ->
  exists e, r = inl e.

End WithWorld.

(** *** Sample processes and worlds *)

(** A machine with two devices, before any worker is started: no local rank
    in the environment. *)
Definition two_gpu_host : process := {|
  os_environ := [("HOME", "/root")];
  sys_executable := "/usr/bin/python";
  sys_argv := ["train.py"; "--config"; "config.yml"];
  cuda_device_count := 2
|}.

(** The same machine with no device visible. *)
Definition no_gpu_host : process := {|
  os_environ := [("HOME", "/root")];
  sys_executable := "/usr/bin/python";
  sys_argv := ["train.py"; "--config"; "config.yml"];
  cuda_device_count := 0
|}.

Definition host_params (_ : process) : DistributedParams :=
  {| local_rank := None; world_size := 2; start_rank := 0 |}.

(** The same machine as seen by the worker with local rank 1. *)
Definition worker_params (_ : process) : DistributedParams :=
  {| local_rank := Some 1; world_size := 2; start_rank := 0 |}.

Definition rank_env (local_rank rank world_size : Z) : environ :=
  [("LOCAL_RANK", pretty local_rank); ("RANK", pretty rank);
   ("WORLD_SIZE", pretty world_size)].

(** The [n]-th call starts the process [100 + n]; every worker exits with
    [status]; nothing raises. *)
Definition world_exiting_with (status : Z) : @world Z string :=
  fun h c => match c with
             | Popen _ _ => Returned (100 + Z.of_nat (length h))
             | wait _ => Returned status
             | _ => Returned 0
             end.

(** As above with status 0, but waiting for the process 101 is interrupted. *)
Definition interrupted_world : @world Z string :=
  fun h c => match c with
             | Popen _ _ => Returned (100 + Z.of_nat (length h))
             | wait p => if p =? 101 then Raised "KeyboardInterrupt" else Returned 0
             | _ => Returned 0
             end.

(** The second [Popen] fails. *)
Definition fork_failing_world : @world Z string :=
  fun h c => match c with
             | Popen _ _ => if (length h =? 1)%nat then Raised "OSError"
                            else Returned (100 + Z.of_nat (length h))
             | _ => Returned 0
             end.

Definition fresh_state : @state Z string := {| log := []; workers := [] |}.

End Launcher.

(** ** Part II: the dict utilities *)

Module Dict.
Import StateErr.
Local Open Scope monad_scope.

(** The identity of a dict object. *)
Abbreviation loc := positive.

(** The Python values the utilities meet: [None], integers, strings,
    one-dimensional numpy arrays, and references to dict objects. *)
Inductive value :=
| VNone
| VInt (n : Z)
| VStr (s : string)
| VArray (a : list Z)
| VDict (l : loc).

(** The content of a dict object: its items in insertion order.  Keys are
    strings. *)
Abbreviation items := (list (string * value)).

Inductive exn :=
| AssertionError
| KeyError (key : string)
| TypeError
| ValueError
| NotImplementedError
| RecursionError
| SystemError.     (* a reference to an object the store does not hold *)

(** The store: the dict objects alive, by identity.  Two references to the
    same [loc] are two names of one object. *)
Local Abbreviation store := (gmap loc items).
Local Abbreviation M := (StateErr.M store exn).

(** *** Items *)

Fixpoint dict_get (k : string) (d : items) : option value :=
  match d with
  | [] => None
  | (k', v) :: d' => if String.eqb k k' then Some v else dict_get k d'
  end.

(** [d[k] = v] on the items: in place for a key already there, at the end
    for a new one. *)
Fixpoint dict_set (k : string) (v : value) (d : items) : items :=
  match d with
  | [] => [(k, v)]
  | (k', v') :: d' =>
      if String.eqb k k' then (k, v) :: d' else (k', v') :: dict_set k v d'
  end.

(** [dict(pairs)], [OrderedDict(pairs)] *)
Definition dict_of_pairs (pairs : items) : items :=
  fold_left (fun d kv => dict_set (fst kv) (snd kv) d) pairs [].

(** *** Statements on dict objects *)

(** [{...}]: a new dict object. *)
Definition new_dict (d : items) : M loc :=
  fun h => let l := fresh (dom h) in (<[l := d]> h, inr l).

Definition read (l : loc) : M items :=
  fun h => match h !! l with
           | Some d => (h, inr d)
           | None => (h, inl SystemError)
           end.

(** [obj[k]] *)
Definition getitem (l : loc) (k : string) : M value :=
  d <- read l ;;
  match dict_get k d with
  | Some v => ret v
  | None => raise (KeyError k)
  end.

(** [obj[k] = v], on the object itself. *)
Definition setitem (l : loc) (k : string) (v : value) : M unit :=
  fun h => match h !! l with
           | Some d => (<[l := dict_set k v d]> h, inr tt)
           | None => (h, inl SystemError)
           end.

(** [k in obj] *)
Definition contains (l : loc) (k : string) : M bool :=
  d <- read l ;;
  ret (match dict_get k d with Some _ => true | None => false end).

(** [list(obj.keys())] *)
Definition keys (l : loc) : M (list string) :=
  d <- read l ;; ret (map fst d).

(** [isinstance(v, dict)], [isinstance(v, collections.Mapping)] and
    [isinstance(v, collections.MutableMapping)]: the only mappings among the
    values are the dict objects. *)
Definition isinstance_dict (v : value) : bool :=
  match v with VDict _ => true | _ => false end.

(** [copy.deepcopy(x)], from the standard library, as the comprehension
    [{k: deepcopy(v) for k, v in x.items()}] on a dict and the identity on
    the other values: a new object for each dict met, with the same keys in
    the same order.  (Its memo table is left out: a dict that is reached
    twice is copied twice.)  [fuel] bounds the depth of the recursion. *)
Fixpoint deepcopy (fuel : nat) (x : value) : M value :=
  match x with
  | VDict l =>
      match fuel with
      | O => raise RecursionError
      | S fuel' =>
          d <- read l ;;
          d' <- map_m d (fun kv => v' <- deepcopy fuel' (snd kv) ;;
                                   ret (fst kv, v')) ;;
          y <- new_dict d' ;;
          ret (VDict y)
      end
  | _ => ret x
  end.

(** [numpy.concatenate((a, b))] on one-dimensional arrays; anything else is
    refused. *)
Definition concatenate (a b : value) : M value :=
  match a, b with
  | VArray xs, VArray ys => ret (VArray (xs ++ ys))
  | _, _ => raise ValueError
  end.

(** *** The utilities *)

(** An argument of [merge_dicts]: a dict, or [None]. *)
Definition arg_value (a : option loc) : value :=
  match a with Some l => VDict l | None => VNone end.

(** [merge_dict or {}] *)
Definition or_empty (merge_dict : option loc) : M loc :=
  match merge_dict with
  | None => new_dict []
  | Some l =>
      d <- read l ;;
      match d with
      | [] => new_dict []
      | _ :: _ => ret l
      end
  end.

Fixpoint merge_dicts (fuel : nat) (dicts : list (option loc)) : M value :=
  match fuel with
  | O => raise RecursionError
  | S fuel' =>
      if (length dicts <=? 1)%nat then raise AssertionError else
      dict_ <- deepcopy fuel' (arg_value (hd None dicts)) ;;
      for_each (tl dicts) (fun merge_dict =>
        merge_dict <- or_empty merge_dict ;;
        ks <- keys merge_dict ;;
        for_each ks (fun k =>
          match dict_ with
          | VDict dict_ =>
              k_in_dict <- contains dict_ k ;;
              both_dicts <-
                (if k_in_dict then
                   x <- getitem dict_ k ;;
                   if isinstance_dict x then
                     y <- getitem merge_dict k ;; ret (isinstance_dict y)
                   else ret false
                 else ret false) ;;
              if both_dicts then
                x <- getitem dict_ k ;;
                y <- getitem merge_dict k ;;
                match x, y with
                | VDict a, VDict b =>
                    r <- merge_dicts fuel' [Some a; Some b] ;;
                    setitem dict_ k r
                | _, _ => raise SystemError     (* both are dicts here *)
                end
              else
                y <- getitem merge_dict k ;;
                setitem dict_ k y
          | _ => raise TypeError      (* [k in dict_] when [dict_] is [None] *)
          end)) ;;;
      ret dict_
  end.

Definition append_dict (dict1 dict2 : loc) : M value :=
  ks <- keys dict1 ;;
  for_each ks (fun key =>
    a <- getitem dict1 key ;;
    b <- getitem dict2 key ;;
    c <- concatenate a b ;;
    setitem dict1 key c) ;;;
  ret (VDict dict1).

Fixpoint flatten_dict (fuel : nat) (dictionary : loc)
    (parent_key separator : string) : M loc :=
  match fuel with
  | O => raise RecursionError
  | S fuel' =>
      d <- read dictionary ;;
      items <- fold_m d [] (fun items kv =>
        let key := fst kv in
        let value := snd kv in
        let new_key :=
          match parent_key with
          | EmptyString => key
          | _ => parent_key +:+ separator +:+ key
          end in
        match value with
        | VDict sub =>
            r <- flatten_dict fuel' sub new_key separator ;;
            sub_items <- read r ;;
            ret (items ++ sub_items)
        | _ => ret (items ++ [(new_key, value)])
        end) ;;
      new_dict (dict_of_pairs items)
  end.

(** [dictionary[key]] *)
Definition get_key_str (dictionary : loc) (key : string) : M value :=
  getitem dictionary key.

(** [{key_: dictionary[key_] for key_ in key}] *)
Definition get_key_list (dictionary : loc) (key : list string) : M value :=
  pairs <- map_m key (fun key_ => v <- getitem dictionary key_ ;; ret (key_, v)) ;;
  result <- new_dict (dict_of_pairs pairs) ;;
  ret (VDict result).

(** [{key_out: dictionary[key_in] for key_in, key_out in key.items()}];
    the keys of the result have to be strings. *)
Definition get_key_dict (dictionary : loc) (key : loc) : M value :=
  renames <- read key ;;
  pairs <- map_m renames (fun kv =>
             match snd kv with
             | VStr key_out => v <- getitem dictionary (fst kv) ;; ret (key_out, v)
             | _ => raise TypeError
             end) ;;
  result <- new_dict (dict_of_pairs pairs) ;;
  ret (VDict result).

Definition get_key_none (dictionary : loc) : M value :=
  result <- new_dict [] ;; ret (VDict result).

Definition get_key_all (dictionary : loc) : M value :=
  ret (VDict dictionary).

(** The [key] argument of [get_dictkey_auto_fn], by its type, and the
    function it selects. *)
Inductive key_spec :=
| KeyStr (s : string)
| KeyList (l : list string)
| KeyDict (l : loc)
| KeyNone
| KeyOther.

Inductive getter :=
| Get_key_all
| Get_key_str
| Get_key_list
| Get_key_dict
| Get_key_none.

Definition get_dictkey_auto_fn (key : key_spec) : exn + getter :=
  match key with
  | KeyStr s => if String.eqb s "__all__" then inr Get_key_all else inr Get_key_str
  | KeyList _ => inr Get_key_list
  | KeyDict _ => inr Get_key_dict
  | KeyNone => inr Get_key_none
  | KeyOther => inl NotImplementedError
  end.

(** [get_dictkey_auto_fn(key)(dictionary, key)], the way the selected
    function is used. *)
Definition get_by_key (key : key_spec) (dictionary : loc) : M value :=
  match get_dictkey_auto_fn key, key with
  | inl e, _ => raise e
  | inr Get_key_all, _ => get_key_all dictionary
  | inr Get_key_str, KeyStr s => get_key_str dictionary s
  | inr Get_key_list, KeyList l => get_key_list dictionary l
  | inr Get_key_dict, KeyDict l => get_key_dict dictionary l
  | inr Get_key_none, _ => get_key_none dictionary
  | inr _, _ => raise TypeError
  end.

(** [s.replace(old, new)] for a pattern [old] that is not empty: the
    occurrences are taken from the left and do not overlap.  [skip] counts
    the characters of an occurrence still to be dropped. *)
Fixpoint replace_from (old new : string) (skip : nat) (s : string) : string :=
  match s with
  | EmptyString => EmptyString
  | String c s' =>
      match skip with
      | S skip' => replace_from old new skip' s'
      | O =>
          if String.prefix old s
          then new +:+ replace_from old new (String.length old - 1) s'
          else String c (replace_from old new O s')
      end
  end.

Definition replace (old new s : string) : string := replace_from old new 0 s.

(** [k.startswith(prefix)] *)
Definition startswith (k prefix : string) : bool := String.prefix prefix k.

Definition split_dict_to_subdicts (dct : loc) (prefixes : list string)
    (extra_key : string) : M value :=
  subdicts <- new_dict [] ;;
  d <- read dct ;;
  extra_subdict <- new_dict
    (dict_of_pairs
       (filter (fun kv => forallb (fun prefix => negb (startswith (fst kv) prefix))
                                  prefixes) d)) ;;
  extra_items <- read extra_subdict ;;
  _ <- (if (0 <? length extra_items)%nat
        then setitem subdicts extra_key (VDict extra_subdict)
        else ret tt) ;;
  for_each prefixes (fun prefix =>
    d <- read dct ;;
    sub <- new_dict
      (dict_of_pairs
         (map (fun kv => (replace (prefix +:+ "_") "" (fst kv), snd kv))
              (filter (fun kv => startswith (fst kv) prefix) d))) ;;
    setitem subdicts prefix (VDict sub)) ;;;
  ret (VDict subdicts).

(** *** Reading a store *)

(** [v] is a finite value of the store [h], nested at most [n] dicts deep:
    every dict it reaches is an object of [h]. *)
Fixpoint nested (n : nat) (h : store) (v : value) : Prop :=
  match v with
  | VDict l =>
      match n with
      | O => False
      | S n' => exists d, h !! l = Some d /\ Forall (fun kv => nested n' h (snd kv)) d
      end
  | _ => True
  end.

(** [v'] is a deep copy of [v] made after the store was [h0]: the same
    value where no dict is involved, and for dicts the same keys in the same
    order, with deep copies as values, in an object that [h0] does not hold. *)
Fixpoint copy_of (n : nat) (h0 h : store) (v v' : value) : Prop :=
  match v, v' with
  | VDict a, VDict b =>
      match n with
      | O => False
      | S n' =>
          exists da db,
            h !! a = Some da /\ h !! b = Some db /\ (b ∉ dom h0) /\
            Forall2 (fun x y => fst x = fst y /\ copy_of n' h0 h (snd x) (snd y)) da db
      end
  | VDict _, _ | _, VDict _ => False
  | _, _ => v = v'
  end.

(** Nested data, without the identity of the dicts that hold it. *)
#[local] Unset Elimination Schemes.
Inductive data :=
| DNone
| DInt (n : Z)
| DStr (s : string)
| DArray (a : list Z)
| DDict (entries : list (string * data)).
#[local] Set Elimination Schemes.

Fixpoint content_items (read_value : value -> option data) (d : items)
    : option (list (string * data)) :=
  match d with
  | [] => Some []
  | (k, v) :: d' =>
      match read_value v, content_items read_value d' with
      | Some t, Some r => Some ((k, t) :: r)
      | _, _ => None
      end
  end.

(** The data the value [v] stands for in the store [h]: what a program sees
    when it reads [v] through and through.  [None] when [v] is nested more
    than [n] dicts deep or reaches an object that [h] does not hold. *)
Fixpoint content (n : nat) (h : store) (v : value) : option data :=
  match v with
  | VNone => Some DNone
  | VInt z => Some (DInt z)
  | VStr s => Some (DStr s)
  | VArray a => Some (DArray a)
  | VDict l =>
      match n with
      | O => None
      | S n' =>
          match h !! l with
          | Some d =>
              match content_items (content n' h) d with
              | Some entries => Some (DDict entries)
              | None => None
              end
          | None => None
          end
      end
  end.

(** The store [h'] holds every object of [h], unchanged (and maybe more). *)
Definition unchanged (h h' : store) : Prop :=
  forall l d, h !! l = Some d -> h' !! l = Some d.

(** The statement [m], run from a store that still holds the objects of
    [h0] unchanged, leaves them unchanged, and its value satisfies [Q]. *)
Definition keeps {A} (h0 : store) (m : M A) (Q : A -> Prop) : Prop :=
  forall h h' r,
    unchanged h0 h -> m h = (h', r) ->
    unchanged h0 h' /\ forall a, r = inr a -> Q a.

(** A statement that changes no object it finds: all it may do to the store
    is to add new objects. *)
Definition pure {A} (m : M A) : Prop :=
  forall h, unchanged h (fst (m h)).

(** The items of [dict1] after [append_dict(dict1, dict2)]: each array with
    the array of [dict2] under the same key at its end. *)
Definition appended (items1 items2 : items) : items :=
  map (fun kv => (fst kv,
                  match snd kv, dict_get (fst kv) items2 with
                  | VArray a, Some (VArray b) => VArray (a ++ b)
                  | v, _ => v
                  end)) items1.

(** Every value of [items1] is an array, and [items2] has an array under
    the same key. *)
Definition arrays_for (items1 items2 : items) : Prop :=
  Forall (fun kv => exists a b, snd kv = VArray a /\
                                dict_get (fst kv) items2 = Some (VArray b)) items1.

(** An argument of [merge_dicts] that is falsy: [None], or an empty dict. *)
Definition falsy (h : store) (a : option loc) : Prop :=
  match a with
  | None => True
  | Some l => h !! l = Some []
  end.

(** "[append_dict] leaves its argument dictionaries unchanged", for one call. *)
Definition append_dict_is_pure (h : store) (dict1 dict2 : loc) : Prop :=
  unchanged h (fst (append_dict dict1 dict2 h)).

(** [new_key] in [flatten_dict]:
    [parent_key + separator + key if parent_key else key]. *)
Definition new_key (parent_key separator key : string) : string :=
  match parent_key with
  | EmptyString => key
  | _ => parent_key +:+ separator +:+ key
  end.

(** An item of a flat dict that was made below [parent_key]: the value is
    no dict, and the key starts with [parent_key] and the separator, when
    there is a [parent_key]. *)
Definition flat_item (parent_key separator : string) (kv : string * value)
    : Prop :=
  isinstance_dict (snd kv) = false /\
  (parent_key <> EmptyString ->
   String.prefix (parent_key +:+ separator) (fst kv) = true).

(** *** Merging data *)

Fixpoint data_get (k : string) (es : list (string * data)) : option data :=
  match es with
  | [] => None
  | (k', t) :: es' => if String.eqb k k' then Some t else data_get k es'
  end.

Fixpoint data_set (k : string) (t : data) (es : list (string * data))
    : list (string * data) :=
  match es with
  | [] => [(k, t)]
  | (k', t') :: es' =>
      if String.eqb k k' then (k, t) :: es' else (k', t') :: data_set k t es'
  end.

(** What [merge_dicts(dict_, merge_dict)] makes of the data [ea] of [dict_]
    and the data [b] of [merge_dict]: the entries of [b] are assigned to
    [ea] in turn, and where both sides hold a dict under a key the two are
    merged in the same way. *)
Fixpoint merge_into (ea : list (string * data)) (b : data) {struct b}
    : list (string * data) :=
  match b with
  | DDict eb =>
      (fix update (eb acc : list (string * data)) : list (string * data) :=
         match eb with
         | [] => acc
         | (k, y) :: eb' =>
             update eb'
               (data_set k
                  (match data_get k acc, y with
                   | Some (DDict ex), DDict _ => DDict (merge_into ex y)
                   | _, _ => y
                   end) acc)
         end) eb ea
  | _ => ea
  end.

(** No dict of the data [t] has a key twice. *)
Fixpoint distinct_keys (t : data) : Prop :=
  match t with
  | DDict es =>
      List.NoDup (map fst es) /\
      (fix all (es : list (string * data)) : Prop :=
         match es with
         | [] => True
         | (_, y) :: es' => distinct_keys y /\ all es'
         end) es
  | _ => True
  end.

(** The data [t] that an argument of [merge_dicts] after the first one
    stands for: nothing for [None], the data of the dict otherwise. *)
Definition merge_arg (n : nat) (h : store) (a : option loc) (t : data) : Prop :=
  match a with
  | None => t = DDict []
  | Some l => content n h (VDict l) = Some t /\ distinct_keys t
  end.

(** The part [hf'] of a later store extends the part [hf] of the store [h]
    by new objects only: it keeps the objects of [hf] as they are and takes
    no other object of [h]. *)
Definition grows (h hf hf' : store) : Prop :=
  unchanged hf hf' /\
  forall l, h !! l <> None -> hf' !! l <> None -> hf !! l <> None.

(** The state of the loops of [merge_dicts]: the copy [dict_] has the items
    [cur], which are read from the part [hf] of the store [hc] as the data
    [acc]; [hf] does not hold [dict_]. *)
Definition merging (n : nat) (dict_ : loc) (hc hf : store) (cur : items)
    (acc : list (string * data)) : Prop :=
  hc !! dict_ = Some cur /\
  unchanged hf hc /\
  hf !! dict_ = None /\
  content_items (content n hf) cur = Some acc.

(** The way a loop of [merge_dicts] goes from the store [hc] and its part
    [hf] to the store [hc'] and its part [hf']: it changes no object but
    [dict_]. *)
Definition goes_on (dict_ : loc) (hc hf hc' hf' : store) : Prop :=
  grows hc hf hf' /\
  forall l d, l <> dict_ -> hc !! l = Some d -> hc' !! l = Some d.

(** The items [flatten_dict] collects, in its list [items], from the items
    [d] of a dict whose dict values hold no dict themselves. *)
Definition two_level_items (h : store) (separator : string) (d : items)
    : items :=
  flat_map (fun pv =>
    match snd pv with
    | VDict l =>
        match h !! l with
        | Some sub =>
            map (fun kv => (new_key (fst pv) separator (fst kv), snd kv)) sub
        | None => []
        end
    | v => [(fst pv, v)]
    end) d.

(** Every value of [d] is a dict of [h] that has no key twice and holds no
    dict. *)
Definition dicts_of_leaves (h : store) (d : items) : Prop :=
  Forall (fun pv => exists l sub,
            snd pv = VDict l /\ h !! l = Some sub /\
            List.NoDup (map fst sub) /\
            Forall (fun kv => isinstance_dict (snd kv) = false) sub) d.

(** *** Sample stores *)

(** [{"x": array([1, 2])}] at 1 and [{"x": array([3])}] at 2. *)
Definition two_batches : store :=
  <[1%positive := [("x", VArray [1; 2])]]>
    (<[2%positive := [("x", VArray [3])]]> ∅).

(** [{"lr": 1, "opt": {"name": "adam"}}]: the outer dict at 1, the inner at 2;
    an empty dict at 3; [{"opt": {"eps": 0}, "seed": 7}] at 4 and 5. *)
Definition configs : store :=
  <[1%positive := [("lr", VInt 1); ("opt", VDict 2%positive)]]>
    (<[2%positive := [("name", VStr "adam")]]>
       (<[3%positive := []]>
          (<[4%positive := [("opt", VDict 5%positive); ("seed", VInt 7)]]>
             (<[5%positive := [("eps", VInt 0)]]> ∅)))).

(** [{"train_loss": 1, "valid_loss": 2, "lr": 3}] at 1. *)
Definition metrics : store :=
  <[1%positive := [("train_loss", VInt 1); ("valid_loss", VInt 2);
                   ("lr", VInt 3)]]> ∅.

(** [{"train": {"loss": 1, "acc": 2}, "valid": {"loss": 3}}]: the outer
    dict at 1, the inner ones at 2 and 3. *)
Definition nested_metrics : store :=
  <[1%positive := [("train", VDict 2%positive); ("valid", VDict 3%positive)]]>
    (<[2%positive := [("loss", VInt 1); ("acc", VInt 2)]]>
       (<[3%positive := [("loss", VInt 3)]]> ∅)).

End Dict.

(** ** Properties of [distributed_cmd_run] *)

Module LauncherSpec.
Import StateErr Launcher.

Section Runs.

Context {pyobj callable : Type}.
Variable w : @world pyobj callable.
Variable get_distributed_params : process -> DistributedParams.
Variable get_distributed_env : Z -> Z -> Z -> environ.
Variable proc : process.

Local Abbreviation state := (@state pyobj callable).
Local Abbreviation event := (@event pyobj callable).
Local Abbreviation run := (distributed_cmd_run w get_distributed_params get_distributed_env proc).
Local Abbreviation cmd := (worker_cmd proc).
Local Abbreviation env := (worker_env get_distributed_params get_distributed_env proc).
Local Abbreviation in_spawn_branch := (spawn_branch get_distributed_params proc).
Local Abbreviation nominal := (nominal_log get_distributed_params get_distributed_env proc).

Lemma raised_in_app (evs1 evs2 : list event) :
  raised_in (evs1 ++ evs2) =
  match raised_in evs1 with Some e => Some e | None => raised_in evs2 end.
Proof.
  induction evs1 as [|[c [v|e]] evs1 IH]; simpl; auto.
Qed.

Lemma spawned_of_app (evs1 evs2 : list event) :
  spawned_of (evs1 ++ evs2) = spawned_of evs1 ++ spawned_of evs2.
Proof. unfold spawned_of. apply flat_map_app. Qed.

Lemma spawned_of_waits (evs : list event) :
  Forall is_wait evs -> spawned_of evs = [].
Proof.
  induction 1 as [|[c r] evs Hc _ IH]; simpl; auto.
  destruct c; simpl in Hc; try contradiction. exact IH.
Qed.

(** The [finally] block: one [kill] per tracked worker, and no exception. *)
Lemma kill_loop_run (ws : list handle) (s : state) :
  for_each ws do_kill s =
  ({| log := log s ++ kill_events ws; workers := workers s |}, inr tt).
Proof.
  revert s. induction ws as [|p ws IH]; intros [l wk]; simpl.
  - unfold ret. by rewrite app_nil_r.
  - unfold bind, do_kill at 1. simpl. rewrite IH. simpl.
    by rewrite <- app_assoc.
Qed.

(** The spawn loop over the local ranks [l]: it stops at the first [Popen]
    that raises, and [workers] has grown by the processes started. *)
Lemma spawn_loop_run (l : list Z) (s : state) :
  exists evs : list event,
    for_each l (spawn_body w get_distributed_params get_distributed_env proc) s =
      ({| log := log s ++ evs; workers := workers s ++ spawned_of evs |},
       outcome_of evs) /\
    Forall2 (fun ev i => fst ev = Popen cmd (env i)) evs (take (length evs) l) /\
    (raised_in evs = None -> length evs = length l) /\
    (forall c e, In (c, Raised e) evs -> raised_in evs = Some e).
Proof.
  revert s. induction l as [|i l IH]; intros [lg wk].
  - exists []. simpl. unfold ret. rewrite !app_nil_r.
    repeat split; try constructor. intros ? ? [].
  - simpl. unfold bind at 1. unfold spawn_body at 1. unfold bind at 1.
    unfold external at 1. simpl.
    destruct (w lg (Popen cmd (env i))) as [p|e] eqn:Hw.
    + unfold workers_append at 1. simpl.
      destruct (IH {| log := lg ++ [(Popen cmd (env i), Returned p)];
                      workers := wk ++ [p] |}) as (evs & Hrun & Hcalls & Hlen & Hlast).
      exists ((Popen cmd (env i), Returned p) :: evs). simpl in *.
      split; [etrans; [exact Hrun|] | split; [|split]].
      * rewrite <- !app_assoc. reflexivity.
      * constructor; auto.
      * intros H. f_equal. auto.
      * intros c e [[=]|Hin]. eauto.
    + exists [(Popen cmd (env i), Raised e)]. simpl.
      rewrite app_nil_r. repeat split.
      * repeat constructor.
      * discriminate.
      * intros c e' [[= _ ->]|[]]. reflexivity.
Qed.

(** The wait loop over the handles [ws]: it stops at the first [wait] that
    raises, and leaves [workers] alone. *)
Lemma wait_loop_run (ws : list handle) (s : state) :
  exists evs : list event,
    for_each ws (wait_body w) s =
      ({| log := log s ++ evs; workers := workers s |}, outcome_of evs) /\
    Forall2 (fun ev p => fst ev = wait p) evs (take (length evs) ws) /\
    (raised_in evs = None -> length evs = length ws) /\
    (forall c e, In (c, Raised e) evs -> raised_in evs = Some e).
Proof.
  revert s. induction ws as [|p ws IH]; intros [lg wk].
  - exists []. simpl. unfold ret. rewrite app_nil_r.
    repeat split; try constructor. intros ? ? [].
  - simpl. unfold bind at 1. unfold wait_body at 1. unfold bind at 1.
    unfold external at 1. simpl.
    destruct (w lg (wait p)) as [v|e] eqn:Hw.
    + unfold ret at 1.
      destruct (IH {| log := lg ++ [(wait p, Returned v)]; workers := wk |})
        as (evs & Hrun & Hcalls & Hlen & Hlast).
      exists ((wait p, Returned v) :: evs). simpl in *.
      split; [etrans; [exact Hrun|] | split; [|split]].
      * rewrite <- !app_assoc. reflexivity.
      * constructor; auto.
      * intros H. f_equal. auto.
      * intros c e [[=]|Hin]. eauto.
    + exists [(wait p, Raised e)]. simpl. repeat split.
      * repeat constructor.
      * discriminate.
      * intros c e' [[= _ ->]|[]]. reflexivity.
Qed.

Lemma outcome_of_app (evs1 evs2 : list event) :
  raised_in evs1 = None -> outcome_of (evs1 ++ evs2) = outcome_of evs2.
Proof. intros H. unfold outcome_of. by rewrite raised_in_app, H. Qed.

Lemma outcome_of_raised (evs : list event) (e : exn) :
  outcome_of evs = inl e <-> raised_in evs = Some e.
Proof.
  unfold outcome_of. destruct (raised_in evs); split; congruence.
Qed.

Lemma outcome_of_returned (evs : list event) :
  outcome_of evs = inr tt <-> raised_in evs = None.
Proof.
  unfold outcome_of. destruct (raised_in evs); split; congruence.
Qed.

Lemma raised_in_None (evs : list event) :
  raised_in evs = None <-> Forall (fun ev => exists v, snd ev = Returned v) evs.
Proof.
  induction evs as [|[c [v|e]] evs IH]; simpl.
  - split; auto.
  - rewrite IH. split.
    + intros H. constructor; eauto.
    + by inversion 1.
  - split; [discriminate|]. inversion 1 as [|? ? [v Hv] _]. discriminate.
Qed.

Lemma raised_in_Some (evs : list event) (e : exn) :
  raised_in evs = Some e -> exists c, (c, Raised e) ∈ evs.
Proof.
  induction evs as [|[c [v|e']] evs IH]; simpl; [discriminate| |].
  - intros H. destruct (IH H) as [c' Hc']. exists c'. by right.
  - intros [= ->]. exists c. by left.
Qed.

Lemma Forall2_fst_Popen (evs : list event) (l : list Z) :
  Forall2 (fun ev i => fst ev = Popen cmd (env i)) evs l -> Forall is_Popen evs.
Proof.
  induction 1 as [|[c r] i evs l Hc _ IH]; constructor; auto.
  simpl in Hc. subst c. exact I.
Qed.

Lemma Forall2_fst_wait (evs : list event) (ws : list handle) :
  Forall2 (fun ev p => fst ev = wait p) evs ws -> Forall is_wait evs.
Proof.
  induction 1 as [|[c r] p evs ws Hc _ IH]; constructor; auto.
  simpl in Hc. subst c. exact I.
Qed.

(** The spawn branch, with its two loop bodies named. *)
Lemma spawn_branch_unfold distributed worker_fn args kwargs (s : state) :
  in_spawn_branch distributed ->
  run distributed worker_fn args kwargs s =
  bind (workers_assign [])
    (fun _ =>
       try_finally
         (bind (for_each (range (cuda_device_count proc))
                  (spawn_body w get_distributed_params get_distributed_env proc))
               (fun _ => bind workers_read
                              (fun ws => for_each ws (wait_body w))))
         (bind workers_read (fun ws => for_each ws do_kill))) s.
Proof.
  intros (-> & Hws & Hlr).
  unfold distributed_cmd_run. rewrite Hlr.
  replace (world_size (get_distributed_params proc) <=? 1) with false
    by (symmetry; apply Z.leb_gt; exact Hws).
  reflexivity.
Qed.

(** The whole spawn branch, for any behaviour of the world: the [try] block
    logs [spawns ++ waits], then the [finally] block kills every process of
    [workers], and the outcome is the one of the [try] block. *)
Lemma spawn_branch_run distributed worker_fn args kwargs (s : state) :
  in_spawn_branch distributed ->
  exists spawns waits : list event,
    run distributed worker_fn args kwargs s =
      ({| log := log s ++ (spawns ++ waits) ++ kill_events (spawned_of spawns);
          workers := spawned_of spawns |},
       outcome_of (spawns ++ waits)) /\
    Forall2 (fun ev i => fst ev = Popen cmd (env i)) spawns
            (take (length spawns) (range (cuda_device_count proc))) /\
    (raised_in spawns = None ->
       length spawns = length (range (cuda_device_count proc))) /\
    (raised_in spawns <> None -> waits = []) /\
    Forall2 (fun ev p => fst ev = wait p) waits
            (take (length waits) (spawned_of spawns)) /\
    (raised_in (spawns ++ waits) = None ->
       length waits = length (spawned_of spawns)) /\
    (forall c e, In (c, Raised e) (spawns ++ waits) ->
       raised_in (spawns ++ waits) = Some e).
Proof.
  intros Hbr. rewrite (spawn_branch_unfold _ worker_fn args kwargs s Hbr).
  unfold bind at 1. unfold workers_assign at 1. unfold try_finally.
  destruct (spawn_loop_run (range (cuda_device_count proc))
              {| log := log s; workers := [] |})
    as (spawns & Hrun & Hsp & Hlen & Hlast).
  simpl log in *. simpl workers in *.
  unfold bind at 1. rewrite Hrun. simpl workers. simpl log.
  unfold outcome_of at 1.
  destruct (raised_in spawns) as [e|] eqn:Hr.
  - (* a Popen call has raised: the wait loop is skipped *)
    exists spawns, []. rewrite !app_nil_r.
    change ([] ++ spawned_of spawns) with (spawned_of spawns).
    unfold bind at 1. unfold workers_read at 1. simpl workers.
    rewrite kill_loop_run. simpl.
    unfold outcome_of. rewrite Hr.
    rewrite <- app_assoc.
    repeat split; auto; try constructor; try congruence.
  - unfold bind at 1. unfold workers_read at 1. simpl workers.
    destruct (wait_loop_run (spawned_of spawns)
                {| log := log s ++ spawns; workers := spawned_of spawns |})
      as (waits & Hwrun & Hwt & Hwlen & Hwlast).
    simpl in Hwrun. change ([] ++ spawned_of spawns) with (spawned_of spawns).
    rewrite Hwrun.
    exists spawns, waits.
    unfold bind at 1. unfold workers_read at 1. simpl workers.
    rewrite kill_loop_run. simpl.
    rewrite (outcome_of_app spawns waits Hr).
    rewrite <- !app_assoc.
    repeat split; auto; try congruence.
    + intros H. apply Hwlen. rewrite raised_in_app, Hr in H. exact H.
    + intros c e Hin. rewrite raised_in_app, Hr.
      apply in_app_or in Hin as [Hin|Hin]; [|eauto].
      apply Hlast in Hin. congruence.
Qed.

(** *** The in-process branch *)

(** The test [not distributed or world_size <= 1]. *)
Lemma in_process_test distributed :
  distributed = false \/ world_size (get_distributed_params proc) <= 1 ->
  negb distributed || (world_size (get_distributed_params proc) <=? 1) = true.
Proof.
  intros [->|Hle]; [reflexivity|].
  apply orb_true_iff. right. by apply Z.leb_le.
Qed.

(** C4: when [distributed] is false, or the resolved world size is at most 1,
    the launcher makes exactly one call, [worker_fn] on [args] and [kwargs],
    in the calling process: no device is bound, no process group is
    initialised, no subprocess is started, [workers] is not touched, and the
    launcher ends as the callback ends. *)
Theorem in_process_branch distributed worker_fn args kwargs (s : state) :
  distributed = false \/ world_size (get_distributed_params proc) <= 1 ->
  let c := worker_call worker_fn args kwargs in
  run distributed worker_fn args kwargs s =
    ({| log := log s ++ [(c, w (log s) c)]; workers := workers s |},
     reply_outcome (w (log s) c)).
Proof.
  intros Hcase c. unfold distributed_cmd_run.
  rewrite (in_process_test distributed Hcase).
  unfold bind, external, ret, reply_outcome. simpl. fold c.
  by destruct (w (log s) c).
Qed.

(** C8: two calls in a row with [distributed] false make two calls of
    [worker_fn], one each; what the second does is what the first does, read
    at the later point of the world's history; neither touches [workers] nor
    starts a process, and the second would do the same from any other
    launcher state. *)
Theorem two_in_process_runs worker_fn args kwargs (s : state) :
  let c := worker_call worker_fn args kwargs in
  let s1 := {| log := log s ++ [(c, w (log s) c)]; workers := workers s |} in
  let s2 := {| log := log s1 ++ [(c, w (log s1) c)]; workers := workers s |} in
  run false worker_fn args kwargs s = (s1, reply_outcome (w (log s) c)) /\
  run false worker_fn args kwargs s1 = (s2, reply_outcome (w (log s1) c)) /\
  (forall ws : list handle,
     run false worker_fn args kwargs {| log := log s1; workers := ws |} =
       ({| log := log s2; workers := ws |}, reply_outcome (w (log s1) c))) /\
  spawned_of (log s2) = spawned_of (log s).
Proof.
  intros c s1 s2.
  assert (Hrun : forall s0 : state,
            run false worker_fn args kwargs s0 =
              ({| log := log s0 ++ [(c, w (log s0) c)]; workers := workers s0 |},
               reply_outcome (w (log s0) c))).
  { intros s0. unfold distributed_cmd_run.
    rewrite (in_process_test false (or_introl eq_refl)).
    unfold bind, external, ret, reply_outcome. simpl. fold c.
    by destruct (w (log s0) c). }
  split; [apply Hrun|]. split; [apply (Hrun s1)|]. split.
  - intros ws. apply (Hrun {| log := log s1; workers := ws |}).
  - subst s2 s1. simpl. rewrite !spawned_of_app. simpl. by rewrite !app_nil_r.
Qed.

(** *** The worker branch *)

(** Whatever the calls answer, the worker branch makes at most three calls,
    in the order [set_device], [init_process_group], [worker_fn], and stops
    at the first one that raises. *)
Lemma calls_of_worker_branch distributed worker_fn args kwargs (s : state) lr :
  distributed = true ->
  1 < world_size (get_distributed_params proc) ->
  local_rank (get_distributed_params proc) = Some lr ->
  exists evs : list event,
    run distributed worker_fn args kwargs s =
      ({| log := log s ++ evs; workers := workers s |}, outcome_of evs) /\
    map fst evs `prefix_of`
      [set_device lr; init_process_group "nccl" "env://";
       worker_call worker_fn args kwargs] /\
    (raised_in evs = None -> length evs = 3%nat).
Proof.
  intros -> Hws Hlr. unfold distributed_cmd_run. rewrite Hlr.
  replace (world_size (get_distributed_params proc) <=? 1) with false
    by (symmetry; apply Z.leb_gt; exact Hws).
  simpl. unfold bind, external, ret. simpl.
  destruct (w (log s) (set_device lr)) as [v1|e1] eqn:H1.
  2:{ exists [(set_device lr, Raised e1)].
      split; [reflexivity|split; [|discriminate]]. by eexists [_; _]. }
  destruct (w (log s ++ [(set_device lr, Returned v1)])
              (init_process_group "nccl" "env://")) as [v2|e2] eqn:H2.
  2:{ exists [(set_device lr, Returned v1);
              (init_process_group "nccl" "env://", Raised e2)].
      rewrite <- app_assoc.
      split; [reflexivity|split; [|discriminate]]. by eexists [_]. }
  rewrite <- !app_assoc. simpl.
  destruct (w _ (worker_call worker_fn args kwargs)) as [v3|e3] eqn:H3.
  - exists [(set_device lr, Returned v1);
            (init_process_group "nccl" "env://", Returned v2);
            (worker_call worker_fn args kwargs, Returned v3)].
    split; [reflexivity|split; [|reflexivity]]. by exists [].
  - exists [(set_device lr, Returned v1);
            (init_process_group "nccl" "env://", Returned v2);
            (worker_call worker_fn args kwargs, Raised e3)].
    split; [reflexivity|split; [|discriminate]]. by exists [].
Qed.

(** The worker branch when the device is bound and the process group is
    initialised. *)
Lemma worker_branch_run distributed worker_fn args kwargs (s : state) lr v1 v2 :
  distributed = true ->
  1 < world_size (get_distributed_params proc) ->
  local_rank (get_distributed_params proc) = Some lr ->
  w (log s) (set_device lr) = Returned v1 ->
  w (log s ++ [(set_device lr, Returned v1)])
    (init_process_group "nccl" "env://") = Returned v2 ->
  let h := log s ++ [(set_device lr, Returned v1);
                     (init_process_group "nccl" "env://", Returned v2)] in
  run distributed worker_fn args kwargs s =
    ({| log := h ++ [(worker_call worker_fn args kwargs,
                      w h (worker_call worker_fn args kwargs))];
        workers := workers s |},
     reply_outcome (w h (worker_call worker_fn args kwargs))).
Proof.
  intros -> Hws Hlr H1 H2 h. unfold distributed_cmd_run. rewrite Hlr.
  replace (world_size (get_distributed_params proc) <=? 1) with false
    by (symmetry; apply Z.leb_gt; exact Hws).
  simpl. unfold bind, external, ret. simpl.
  rewrite H1, H2. rewrite <- !app_assoc. simpl. subst h.
  unfold reply_outcome.
  destruct (w _ (worker_call worker_fn args kwargs));
    by rewrite <- app_assoc.
Qed.

(** C5: with [distributed] true, a resolved world size above 1 and a local
    rank [lr] in the resolved parameters, the launcher binds the device [lr]
    once, then initialises the process group once with the [env://]
    rendezvous, then calls [worker_fn] on [args] and [kwargs] once, and
    starts no subprocess: this is the log when the first two calls return;
    in every run the calls made are the first ones of these three, in this
    order, and a run that returns has made the three. *)
Theorem worker_branch distributed worker_fn args kwargs (s : state) lr :
  distributed = true ->
  1 < world_size (get_distributed_params proc) ->
  local_rank (get_distributed_params proc) = Some lr ->
  let bind_device := set_device lr in
  let init := init_process_group "nccl" "env://" in
  let work := worker_call worker_fn args kwargs in
  (forall v1 v2,
     w (log s) bind_device = Returned v1 ->
     w (log s ++ [(bind_device, Returned v1)]) init = Returned v2 ->
     let h := log s ++ [(bind_device, Returned v1); (init, Returned v2)] in
     run distributed worker_fn args kwargs s =
       ({| log := h ++ [(work, w h work)]; workers := workers s |},
        reply_outcome (w h work))) /\
  (exists evs : list event,
     run distributed worker_fn args kwargs s =
       ({| log := log s ++ evs; workers := workers s |}, outcome_of evs) /\
     map fst evs `prefix_of` [bind_device; init; work] /\
     (outcome_of evs = inr tt -> map fst evs = [bind_device; init; work])).
Proof.
  intros Hd Hws Hlr bind_device init work. split.
  - intros v1 v2 H1 H2. by apply worker_branch_run.
  - destruct (calls_of_worker_branch distributed worker_fn args kwargs s lr
                Hd Hws Hlr) as (evs & Hrun & Hpre & Hlen).
    exists evs. split; [exact Hrun|]. split; [exact Hpre|].
    intros Hout. apply outcome_of_returned, Hlen in Hout.
    destruct Hpre as [k Hk].
    destruct evs as [|e1 [|e2 [|e3 [|e4 evs]]]]; try discriminate Hout.
    simpl in Hk. injection Hk as H1 H2 H3 _. simpl. by rewrite <- H1, <- H2, <- H3.
Qed.

(** *** The spawn branch *)

(** The shape of every run of the spawn branch: the log of the [try] block,
    then one [kill] per process that was started. *)
Lemma spawn_branch_shape distributed worker_fn args kwargs (s : state) :
  in_spawn_branch distributed ->
  exists body : list event,
    run distributed worker_fn args kwargs s =
      ({| log := log s ++ body ++ kill_events (spawned_of body);
          workers := spawned_of body |},
       outcome_of body) /\
    Forall (fun ev => is_Popen ev \/ is_wait ev) body /\
    (forall c e, In (c, Raised e) body -> raised_in body = Some e) /\
    Forall (fun ev => is_Popen ev ->
              exists i, In i (range (cuda_device_count proc)) /\
                        fst ev = Popen cmd (env i)) body.
Proof.
  intros Hbr.
  destruct (spawn_branch_run distributed worker_fn args kwargs s Hbr)
    as (spawns & waits & Hrun & Hsp & _ & _ & Hwt & _ & Hlast).
  exists (spawns ++ waits).
  pose proof (Forall2_fst_Popen _ _ Hsp) as HP.
  pose proof (Forall2_fst_wait _ _ Hwt) as HW.
  rewrite spawned_of_app, (spawned_of_waits waits HW), app_nil_r.
  split; [exact Hrun|split; [|split; [exact Hlast|]]].
  - apply Forall_app. split; eapply Forall_impl; eauto; simpl; auto.
  - apply Forall_app. split.
    + eapply Forall2_Forall_l; [exact Hsp|].
      apply Forall_forall. intros i Hi ev Hev _. exists i. split; [|exact Hev].
      apply list_elem_of_In. eapply subseteq_take. exact Hi.
    + eapply Forall_impl; [exact HW|]. intros [[] r] Hw Hp; simpl in *; tauto.
Qed.

(** C1: in the spawn branch, whatever the [Popen] and [wait] calls do, the
    launcher's last actions are one [kill] per process tracked in [workers],
    that is per process a [Popen] call has returned; they come after
    everything the [try] block did and before the launcher hands back its
    outcome.  An exception raised by a [Popen] or a [wait] call is that
    outcome: it is not swallowed. *)
Theorem cleanup_on_every_exit_path distributed worker_fn args kwargs (s : state) :
  in_spawn_branch distributed ->
  exists body : list event,
    run distributed worker_fn args kwargs s =
      ({| log := log s ++ body ++ kill_events (spawned_of body);
          workers := spawned_of body |},
       outcome_of body) /\
    Forall (fun ev => is_Popen ev \/ is_wait ev) body /\
    (forall c e, In (c, Raised e) body -> outcome_of body = inl e).
Proof.
  intros Hbr.
  destruct (spawn_branch_shape distributed worker_fn args kwargs s Hbr)
    as (body & Hrun & Hshape & Hlast & _).
  exists body. split; [exact Hrun|split; [exact Hshape|]].
  intros c e Hin. apply outcome_of_raised. eauto.
Qed.

(** C2, as the code has it: the launcher does not look at the exit status
    [wait] returns.  Its outcome is an error exactly when a [Popen] or a
    [wait] call raises, and then it is that exception, handed on after the
    tracked workers have been killed; when all these calls return, with any
    exit status, the launcher returns normally. *)
Theorem exit_status_not_inspected distributed worker_fn args kwargs (s : state) :
  in_spawn_branch distributed ->
  exists body : list event,
    run distributed worker_fn args kwargs s =
      ({| log := log s ++ body ++ kill_events (spawned_of body);
          workers := spawned_of body |},
       outcome_of body) /\
    (Forall (fun ev => exists v, snd ev = Returned v) body ->
       outcome_of body = inr tt) /\
    (forall e, outcome_of body = inl e <-> exists c, In (c, Raised e) body).
Proof.
  intros Hbr.
  destruct (spawn_branch_shape distributed worker_fn args kwargs s Hbr)
    as (body & Hrun & _ & Hlast & _).
  exists body. split; [exact Hrun|split].
  - intros Hall. apply outcome_of_returned, raised_in_None, Hall.
  - intros e. split.
    + intros He. apply outcome_of_raised, raised_in_Some in He as [c Hc].
      exists c. by apply list_elem_of_In.
    + intros [c Hc]. apply outcome_of_raised. eauto.
Qed.

(** The spawn loop when every [Popen] returns: one process per local rank. *)
Lemma spawn_loop_nominal (l : list Z) (s : state) :
  every_Popen_returns w ->
  exists ps : list handle,
    length ps = length l /\
    for_each l (spawn_body w get_distributed_params get_distributed_env proc) s =
      ({| log := log s ++
                 zip_with (fun i p => (Popen cmd (env i), Returned p)) l ps;
          workers := workers s ++ ps |}, inr tt).
Proof.
  intros Hok. revert s. induction l as [|i l IH]; intros [lg wk].
  - exists []. simpl. unfold ret. by rewrite !app_nil_r.
  - destruct (Hok lg cmd (env i)) as [p Hp].
    destruct (IH {| log := lg ++ [(Popen cmd (env i), Returned p)];
                    workers := wk ++ [p] |}) as (ps & Hlen & Hrun).
    exists (p :: ps). split; [simpl; congruence|].
    simpl. unfold bind at 1. unfold spawn_body at 1. unfold bind at 1.
    unfold external at 1. simpl. rewrite Hp.
    unfold workers_append at 1. simpl. etrans; [exact Hrun|].
    simpl. by rewrite <- !app_assoc.
Qed.

(** The wait loop when every [wait] returns: one exit status per process. *)
Lemma wait_loop_nominal (ws : list handle) (s : state) :
  every_wait_returns w ->
  exists statuses : list Z,
    length statuses = length ws /\
    for_each ws (wait_body w) s =
      ({| log := log s ++
                 zip_with (fun p status => (wait p, Returned status)) ws statuses;
          workers := workers s |}, inr tt).
Proof.
  intros Hok. revert s. induction ws as [|p ws IH]; intros [lg wk].
  - exists []. simpl. unfold ret. by rewrite !app_nil_r.
  - destruct (Hok lg p) as [st Hst].
    destruct (IH {| log := lg ++ [(wait p, Returned st)]; workers := wk |})
      as (sts & Hlen & Hrun).
    exists (st :: sts). split; [simpl; congruence|].
    simpl. unfold bind at 1. unfold wait_body at 1. unfold bind at 1.
    unfold external at 1. simpl. rewrite Hst.
    unfold ret at 1. etrans; [exact Hrun|].
    simpl. by rewrite <- !app_assoc.
Qed.

Lemma range_length (n : Z) : length (range n) = Z.to_nat n.
Proof. unfold range. by rewrite length_map, length_seq. Qed.

Lemma range_In (n i : Z) : In i (range n) <-> 0 <= i < n.
Proof.
  unfold range. rewrite in_map_iff. split.
  - intros (k & <- & Hk). apply in_seq in Hk. lia.
  - intros Hi. exists (Z.to_nat i). split; [lia|]. apply in_seq. lia.
Qed.

Lemma range_NoDup (n : Z) : List.NoDup (range n).
Proof.
  unfold range. apply Finite.Injective_map_NoDup.
  - intros a b. lia.
  - apply seq_NoDup.
Qed.

(** The run of the spawn branch when the calls return. *)
Lemma spawn_branch_all_return distributed worker_fn args kwargs (s : state) :
  in_spawn_branch distributed ->
  every_Popen_returns w ->
  every_wait_returns w ->
  exists (ps : list handle) (statuses : list Z),
    length ps = Z.to_nat (cuda_device_count proc) /\
    length statuses = Z.to_nat (cuda_device_count proc) /\
    run distributed worker_fn args kwargs s =
      ({| log := log s ++ nominal ps statuses; workers := ps |}, inr tt).
Proof.
  intros Hbr HP HW. set (N := cuda_device_count proc).
  destruct (spawn_loop_nominal (range N) {| log := log s; workers := [] |} HP)
    as (ps & Hlen & Hsp).
  destruct (wait_loop_nominal ps
              {| log := log s ++
                        zip_with (fun i p => (Popen cmd (env i), Returned p))
                                 (range N) ps;
                 workers := ps |} HW)
    as (sts & Hlen' & Hwt).
  exists ps, sts. rewrite range_length in Hlen.
  split; [exact Hlen|]. split; [congruence|].
  rewrite (spawn_branch_unfold _ worker_fn args kwargs s Hbr).
  unfold bind at 1. unfold workers_assign at 1. unfold try_finally.
  unfold bind at 1. fold N. rewrite Hsp. simpl workers. simpl log.
  change ([] ++ ps) with ps.
  unfold bind at 1. unfold workers_read at 1. simpl workers.
  rewrite Hwt. simpl workers. simpl log.
  unfold bind at 1. unfold workers_read at 1. simpl workers.
  rewrite kill_loop_run. simpl. unfold nominal_log. fold N.
  by rewrite <- !app_assoc.
Qed.

(** A stretch of [Popen] events without exception, read as the list of the
    processes started. *)
Lemma spawns_returned (evs : list event) (l : list Z) :
  Forall2 (fun ev i => fst ev = Popen cmd (env i)) evs l ->
  raised_in evs = None ->
  length (spawned_of evs) = length l /\
  evs = zip_with (fun i p => (Popen cmd (env i), Returned p)) l (spawned_of evs).
Proof.
  induction 1 as [|[c [p|e]] i evs l Hc _ IH]; simpl; [done| |discriminate].
  intros Hr. destruct (IH Hr) as [Hlen Hevs]. simpl in Hc. subst c. simpl.
  split; [by f_equal|]. by f_equal.
Qed.

(** A stretch of [wait] events without exception, read as the list of the
    exit statuses. *)
Lemma waits_returned (evs : list event) (ps : list handle) :
  Forall2 (fun ev p => fst ev = wait p) evs ps ->
  raised_in evs = None ->
  exists statuses : list Z,
    length statuses = length ps /\
    evs = zip_with (fun p status => (wait p, Returned status)) ps statuses.
Proof.
  induction 1 as [|[c [v|e]] p evs ps Hc _ IH]; simpl; [|intros Hr|discriminate].
  - by exists [].
  - destruct (IH Hr) as (sts & Hlen & Hevs). simpl in Hc. subst c.
    exists (v :: sts). simpl. split; [by f_equal|]. by f_equal.
Qed.

(** C3: in the spawn branch with [N] devices the launcher starts exactly [N]
    subprocesses, the one for local rank [i] with the command
    [sys.executable] followed by [sys.argv] and with the environment
    [get_distributed_env i (start_rank + i) world_size], for the distinct [i]
    of [range N], and it waits for every one of them before it returns: this
    is the log of the run when the [Popen] and [wait] calls return, and the
    log of every run that returns. *)
Theorem spawn_branch_spawns_and_waits distributed worker_fn args kwargs (s : state) :
  in_spawn_branch distributed ->
  let N := cuda_device_count proc in
  (every_Popen_returns w -> every_wait_returns w ->
   exists (ps : list handle) (statuses : list Z),
     length ps = Z.to_nat N /\ length statuses = Z.to_nat N /\
     run distributed worker_fn args kwargs s =
       ({| log := log s ++ nominal ps statuses; workers := ps |}, inr tt)) /\
  (forall s' : state,
     run distributed worker_fn args kwargs s = (s', inr tt) ->
     exists (ps : list handle) (statuses : list Z),
       length ps = Z.to_nat N /\ length statuses = Z.to_nat N /\
       s' = {| log := log s ++ nominal ps statuses; workers := ps |}) /\
  List.NoDup (range N) /\
  (forall i, In i (range N) <-> 0 <= i < N).
Proof.
  intros Hbr N.
  split; [|split; [|split; [apply range_NoDup|apply range_In]]].
  - intros HP HW. by apply spawn_branch_all_return.
  - intros s' Hrun.
    destruct (spawn_branch_run distributed worker_fn args kwargs s Hbr)
      as (spawns & waits & Hrun' & Hsp & Hlen & _ & Hwt & Hwlen & _).
    rewrite Hrun' in Hrun. injection Hrun as <- Hout.
    apply outcome_of_returned in Hout. pose proof (Hwlen Hout) as Hwl.
    rewrite raised_in_app in Hout.
    destruct (raised_in spawns) eqn:Hrs; [discriminate|].
    specialize (Hlen eq_refl).
    rewrite Hlen, firstn_all in Hsp. rewrite Hwl, firstn_all in Hwt.
    destruct (spawns_returned spawns _ Hsp Hrs) as [Hps Hspawns].
    destruct (waits_returned waits _ Hwt Hout) as (sts & Hsts & Hwaits).
    exists (spawned_of spawns), sts. rewrite range_length in Hps.
    split; [exact Hps|]. split; [by rewrite Hsts|].
    f_equal. f_equal. unfold nominal_log.
    rewrite <- app_assoc. f_equal; [exact Hspawns|]. f_equal. exact Hwaits.
Qed.

(** C6: in the spawn branch with no device, the launcher makes no call at
    all (no [Popen], no [wait], no [kill]) and returns normally. *)
Theorem spawn_branch_no_device distributed worker_fn args kwargs (s : state) :
  in_spawn_branch distributed ->
  cuda_device_count proc = 0 ->
  run distributed worker_fn args kwargs s =
    ({| log := log s; workers := [] |}, inr tt).
Proof.
  intros Hbr HN.
  rewrite (spawn_branch_unfold _ worker_fn args kwargs s Hbr), HN.
  reflexivity.
Qed.

(** C9: in the spawn branch the callback and its arguments play no part:
    the run is the same for any other [worker_fn], [args] and [kwargs]; no
    call of [worker_fn] is made; and every [Popen] gets the command line of
    this process and an environment made by [get_distributed_env] from a
    local rank, nothing else. *)
Theorem spawn_branch_ignores_callback distributed worker_fn args kwargs
    worker_fn' args' kwargs' (s : state) :
  in_spawn_branch distributed ->
  run distributed worker_fn args kwargs s =
    run distributed worker_fn' args' kwargs' s /\
  exists evs : list event,
    log (fst (run distributed worker_fn args kwargs s)) = log s ++ evs /\
    Forall (fun ev => ~ is_worker_call ev) evs /\
    Forall (fun ev => is_Popen ev ->
              exists i, 0 <= i < cuda_device_count proc /\
                fst ev = Popen (sys_executable proc :: sys_argv proc)
                           (get_distributed_env i
                              (start_rank (get_distributed_params proc) + i)
                              (world_size (get_distributed_params proc)))) evs.
Proof.
  intros Hbr. split.
  - by rewrite !spawn_branch_unfold.
  - destruct (spawn_branch_shape distributed worker_fn args kwargs s Hbr)
      as (body & Hrun & Hshape & _ & Hcalls).
    exists (body ++ kill_events (spawned_of body)). rewrite Hrun. simpl.
    split; [reflexivity|split].
    + apply Forall_app. split.
      * eapply Forall_impl; [exact Hshape|].
        intros [[] r] [H|H] Hw; simpl in *; tauto.
      * unfold kill_events. apply Forall_map, Forall_forall. intros p _ [].
    + apply Forall_app. split.
      * eapply Forall_impl; [exact Hcalls|].
        intros ev Hev Hp. destruct (Hev Hp) as (i & Hi & Hc).
        exists i. split; [by apply range_In|exact Hc].
      * unfold kill_events. apply Forall_map, Forall_forall. intros p _ [].
Qed.

End Runs.

(** *** Concrete runs *)

(** Two devices, and the wait for the second worker is interrupted: both
    workers are killed, then the interruption reaches the caller. *)
Example interrupted_run :
  distributed_cmd_run interrupted_world host_params rank_env two_gpu_host
    true "main" [7] [] fresh_state =
  ({| log := [ (Popen ["/usr/bin/python"; "train.py"; "--config"; "config.yml"]
                      [("LOCAL_RANK", "0"); ("RANK", "0"); ("WORLD_SIZE", "2")],
                Returned 100);
               (Popen ["/usr/bin/python"; "train.py"; "--config"; "config.yml"]
                      [("LOCAL_RANK", "1"); ("RANK", "1"); ("WORLD_SIZE", "2")],
                Returned 101);
               (wait 100, Returned 0);
               (wait 101, Raised "KeyboardInterrupt");
               (kill 100, Returned 0);
               (kill 101, Returned 0) ];
      workers := [100; 101] |},
   inl "KeyboardInterrupt").
Proof. vm_compute. reflexivity. Qed.

(** The second [Popen] fails: the first worker is killed, nothing is waited
    for, and the failure reaches the caller. *)
Example fork_failing_run :
  distributed_cmd_run fork_failing_world host_params rank_env two_gpu_host
    true "main" [7] [] fresh_state =
  ({| log := [ (Popen ["/usr/bin/python"; "train.py"; "--config"; "config.yml"]
                      [("LOCAL_RANK", "0"); ("RANK", "0"); ("WORLD_SIZE", "2")],
                Returned 100);
               (Popen ["/usr/bin/python"; "train.py"; "--config"; "config.yml"]
                      [("LOCAL_RANK", "1"); ("RANK", "1"); ("WORLD_SIZE", "2")],
                Raised "OSError");
               (kill 100, Returned 0) ];
      workers := [100] |},
   inl "OSError").
Proof. vm_compute. reflexivity. Qed.

(** Both workers exit with status 1: the launcher returns normally. *)
Example failing_workers_run :
  distributed_cmd_run (world_exiting_with 1) host_params rank_env two_gpu_host
    true "main" [7] [] fresh_state =
  ({| log := [ (Popen ["/usr/bin/python"; "train.py"; "--config"; "config.yml"]
                      [("LOCAL_RANK", "0"); ("RANK", "0"); ("WORLD_SIZE", "2")],
                Returned 100);
               (Popen ["/usr/bin/python"; "train.py"; "--config"; "config.yml"]
                      [("LOCAL_RANK", "1"); ("RANK", "1"); ("WORLD_SIZE", "2")],
                Returned 101);
               (wait 100, Returned 1);
               (wait 101, Returned 1);
               (kill 100, Returned 0);
               (kill 101, Returned 0) ];
      workers := [100; 101] |},
   inr tt).
Proof. vm_compute. reflexivity. Qed.

(** The worker with local rank 1, started by the run above. *)
Example worker_run :
  distributed_cmd_run (world_exiting_with 0) worker_params rank_env two_gpu_host
    true "main" [7] [] fresh_state =
  ({| log := [ (set_device 1, Returned 0);
               (init_process_group "nccl" "env://", Returned 0);
               (worker_call "main" [7] [], Returned 0) ];
      workers := [] |},
   inr tt).
Proof. vm_compute. reflexivity. Qed.

(** C2, as stated, fails: with two workers that both exit with status 1 the
    launcher returns normally. *)
Lemma nonzero_exit_unreported :
  ~ nonzero_exit_is_reported (world_exiting_with 1) host_params rank_env
      two_gpu_host "main" [7] [] fresh_state.
Proof.
  unfold nonzero_exit_is_reported. rewrite failing_workers_run.
  intros H. destruct H as [e He]; [|discriminate].
  exists 100, 1. split; [lia|]. simpl. auto.
Qed.

Lemma cleanup_on_every_exit_path_witness :
  spawn_branch host_params two_gpu_host true /\
  exists body : list event,
    distributed_cmd_run interrupted_world host_params rank_env two_gpu_host
      true "main" [7] [] fresh_state =
      ({| log := log fresh_state ++ body ++ kill_events (spawned_of body);
          workers := spawned_of body |},
       outcome_of body) /\
    Forall (fun ev => is_Popen ev \/ is_wait ev) body /\
    (forall c e, In (c, Raised e) body -> outcome_of body = inl e).
Proof.
  split; [repeat split|].
  apply (cleanup_on_every_exit_path interrupted_world host_params rank_env
           two_gpu_host true "main" [7] [] fresh_state).
  repeat split.
Defined.

Lemma exit_status_not_inspected_witness :
  spawn_branch host_params two_gpu_host true /\
  exists body : list event,
    distributed_cmd_run (world_exiting_with 1) host_params rank_env two_gpu_host
      true "main" [7] [] fresh_state =
      ({| log := log fresh_state ++ body ++ kill_events (spawned_of body);
          workers := spawned_of body |},
       outcome_of body) /\
    (Forall (fun ev => exists v, snd ev = Returned v) body ->
       outcome_of body = inr tt) /\
    (forall e, outcome_of body = inl e <-> exists c, In (c, Raised e) body).
Proof.
  split; [repeat split|].
  apply (exit_status_not_inspected (world_exiting_with 1) host_params rank_env
           two_gpu_host true "main" [7] [] fresh_state).
  repeat split.
Defined.

Lemma in_process_branch_witness :
  (false = false \/ world_size (host_params two_gpu_host) <= 1) /\
  distributed_cmd_run (world_exiting_with 0) host_params rank_env two_gpu_host
    false "main" [7] [] fresh_state =
  ({| log := [(worker_call "main" [7] [], Returned 0)]; workers := [] |}, inr tt).
Proof.
  split; [by left|].
  apply (in_process_branch (world_exiting_with 0) host_params rank_env
           two_gpu_host false "main" [7] [] fresh_state).
  by left.
Defined.

Lemma worker_branch_witness :
  world_size (worker_params two_gpu_host) = 2 /\
  local_rank (worker_params two_gpu_host) = Some 1 /\
  distributed_cmd_run (world_exiting_with 0) worker_params rank_env two_gpu_host
    true "main" [7] [] fresh_state =
  ({| log := [ (set_device 1, Returned 0);
               (init_process_group "nccl" "env://", Returned 0);
               (worker_call "main" [7] [], Returned 0) ];
      workers := [] |},
   inr tt).
Proof.
  split; [reflexivity|]. split; [reflexivity|].
  apply (worker_branch (world_exiting_with 0) worker_params rank_env
           two_gpu_host true "main" [7] [] fresh_state 1);
    reflexivity.
Defined.

Lemma spawn_branch_spawns_and_waits_witness :
  spawn_branch host_params two_gpu_host true /\
  every_Popen_returns (world_exiting_with 0) /\
  every_wait_returns (world_exiting_with 0) /\
  exists (ps : list handle) (statuses : list Z),
    length ps = 2%nat /\ length statuses = 2%nat /\
    distributed_cmd_run (world_exiting_with 0) host_params rank_env two_gpu_host
      true "main" [7] [] fresh_state =
      ({| log := log fresh_state ++
                 nominal_log host_params rank_env two_gpu_host ps statuses;
          workers := ps |}, inr tt).
Proof.
  assert (HP : every_Popen_returns (world_exiting_with 0))
    by (intros h c e; eexists; reflexivity).
  assert (HW : every_wait_returns (world_exiting_with 0))
    by (intros h p; eexists; reflexivity).
  split; [repeat split|]. split; [exact HP|]. split; [exact HW|].
  apply (spawn_branch_spawns_and_waits (world_exiting_with 0) host_params
           rank_env two_gpu_host true "main" [7] [] fresh_state);
    [repeat split|exact HP|exact HW].
Defined.

Lemma spawn_branch_no_device_witness :
  spawn_branch host_params no_gpu_host true /\
  cuda_device_count no_gpu_host = 0 /\
  distributed_cmd_run (world_exiting_with 0) host_params rank_env no_gpu_host
    true "main" [7] [] fresh_state =
  ({| log := []; workers := [] |}, inr tt).
Proof.
  split; [repeat split|]. split; [reflexivity|].
  apply (spawn_branch_no_device (world_exiting_with 0) host_params rank_env
           no_gpu_host true "main" [7] [] fresh_state); repeat split.
Defined.

Lemma spawn_branch_ignores_callback_witness :
  spawn_branch host_params two_gpu_host true /\
  distributed_cmd_run (world_exiting_with 0) host_params rank_env two_gpu_host
    true "main" [7] [] fresh_state =
  distributed_cmd_run (world_exiting_with 0) host_params rank_env two_gpu_host
    true "other" [1; 2] [("lr", 3)] fresh_state.
Proof.
  split; [repeat split|].
  apply (spawn_branch_ignores_callback (world_exiting_with 0) host_params rank_env
           two_gpu_host true "main" [7] [] "other" [1; 2] [("lr", 3)] fresh_state).
  repeat split.
Defined.

End LauncherSpec.

(** ** Properties of the dict utilities *)

Module DictSpec.
Import StateErr Dict.
Local Open Scope monad_scope.

Local Abbreviation store := (gmap loc items).
Local Abbreviation M := (StateErr.M store exn).

(** *** Stores that keep their objects *)

Lemma unchanged_refl (h : store) : unchanged h h.
Proof. by intros l d. Qed.

Lemma unchanged_trans (h1 h2 h3 : store) :
  unchanged h1 h2 -> unchanged h2 h3 -> unchanged h1 h3.
Proof. intros H12 H23 l d Hl. eauto. Qed.

Lemma unchanged_dom (h h' : store) (l : loc) :
  unchanged h h' -> l ∈ dom h -> l ∈ dom h'.
Proof.
  intros Hu Hl. apply elem_of_dom in Hl as [d Hd].
  apply elem_of_dom. exists d. by apply Hu.
Qed.

Lemma unchanged_insert (h0 h : store) (l : loc) (d : items) :
  unchanged h0 h -> l ∉ dom h0 -> unchanged h0 (<[l := d]> h).
Proof.
  intros Hu Hl l' d' Hl'.
  rewrite lookup_insert_ne; [by apply Hu|].
  intros ->. apply Hl, elem_of_dom. by exists d'.
Qed.

Lemma unchanged_alloc (h : store) (d : items) :
  unchanged h (<[fresh (dom h) := d]> h).
Proof. apply unchanged_insert; [apply unchanged_refl|apply is_fresh]. Qed.

(** *** Rules for [keeps] *)

Lemma keeps_weaken {A} (h0 : store) (m : M A) (P Q : A -> Prop) :
  keeps h0 m P -> (forall a, P a -> Q a) -> keeps h0 m Q.
Proof.
  intros Hm HPQ h h' r Hh Hrun. destruct (Hm h h' r Hh Hrun) as [Hu HP].
  split; [exact Hu|]. intros a Ha. apply HPQ, HP, Ha.
Qed.

Lemma keeps_ret {A} (h0 : store) (a : A) (Q : A -> Prop) :
  Q a -> keeps h0 (ret a) Q.
Proof.
  intros HQ h h' r Hh [= <- <-]. split; [exact Hh|]. by intros a' [= <-].
Qed.

Lemma keeps_raise {A} (h0 : store) (e : exn) (Q : A -> Prop) :
  keeps h0 (raise e) Q.
Proof. intros h h' r Hh [= <- <-]. split; [exact Hh|]. intros a' [=]. Qed.

Lemma keeps_bind {A B} (h0 : store) (m : M A) (k : A -> M B)
    (P : A -> Prop) (Q : B -> Prop) :
  keeps h0 m P -> (forall a, P a -> keeps h0 (k a) Q) -> keeps h0 (bind m k) Q.
Proof.
  intros Hm Hk h h' r Hh Hrun. unfold bind in Hrun.
  destruct (m h) as [h1 [e|a]] eqn:Hm1.
  - injection Hrun as <- <-. destruct (Hm h h1 (inl e) Hh Hm1) as [Hu _].
    split; [exact Hu|]. intros a [=].
  - destruct (Hm h h1 (inr a) Hh Hm1) as [Hu HP].
    exact (Hk a (HP a eq_refl) h1 h' r Hu Hrun).
Qed.

Lemma keeps_for_each {A} (h0 : store) (l : list A) (body : A -> M unit) :
  (forall x, keeps h0 (body x) (fun _ => True)) ->
  keeps h0 (for_each l body) (fun _ => True).
Proof.
  intros Hbody. induction l as [|x l IH]; simpl.
  - by apply keeps_ret.
  - eapply keeps_bind; [apply Hbody|]. intros _ _. exact IH.
Qed.

Lemma keeps_fold_m {A B} (h0 : store) (l : list A) (acc : B)
    (body : B -> A -> M B) :
  (forall acc x, keeps h0 (body acc x) (fun _ => True)) ->
  keeps h0 (fold_m l acc body) (fun _ => True).
Proof.
  intros Hbody. revert acc. induction l as [|x l IH]; intros acc; simpl.
  - by apply keeps_ret.
  - eapply keeps_bind; [apply Hbody|]. intros acc' _. apply IH.
Qed.

Lemma keeps_map_m {A B} (h0 : store) (l : list A) (f : A -> M B) :
  (forall x, keeps h0 (f x) (fun _ => True)) ->
  keeps h0 (map_m l f) (fun _ => True).
Proof.
  intros Hf. induction l as [|x l IH]; simpl.
  - by apply keeps_ret.
  - eapply keeps_bind; [apply Hf|]. intros y _.
    eapply keeps_bind; [exact IH|]. intros ys _. by apply keeps_ret.
Qed.

Lemma keeps_read (h0 : store) (l : loc) : keeps h0 (read l) (fun _ => True).
Proof.
  intros h h' r Hh Hrun. unfold read in Hrun.
  destruct (h !! l); injection Hrun as <- <-; by split.
Qed.

Lemma keeps_getitem (h0 : store) (l : loc) (k : string) :
  keeps h0 (getitem l k) (fun _ => True).
Proof.
  unfold getitem. eapply keeps_bind; [apply keeps_read|]. intros d _.
  destruct (dict_get k d); [by apply keeps_ret|apply keeps_raise].
Qed.

Lemma keeps_contains (h0 : store) (l : loc) (k : string) :
  keeps h0 (contains l k) (fun _ => True).
Proof.
  unfold contains. eapply keeps_bind; [apply keeps_read|]. intros d _.
  by apply keeps_ret.
Qed.

Lemma keeps_keys (h0 : store) (l : loc) : keeps h0 (keys l) (fun _ => True).
Proof.
  unfold keys. eapply keeps_bind; [apply keeps_read|]. intros d _.
  by apply keeps_ret.
Qed.

(** A new object is none of the objects of [h0]. *)
Lemma keeps_new_dict (h0 : store) (d : items) :
  keeps h0 (new_dict d) (fun l => l ∉ dom h0).
Proof.
  intros h h' r Hh [= <- <-].
  assert (Hfresh : fresh (dom h) ∉ dom h0).
  { intros Hin. apply (is_fresh (dom h)). by eapply unchanged_dom. }
  split; [by apply unchanged_insert|]. by intros a [= <-].
Qed.

(** An assignment to an item of an object that is none of [h0]'s. *)
Lemma keeps_setitem (h0 : store) (l : loc) (k : string) (v : value) :
  l ∉ dom h0 -> keeps h0 (setitem l k v) (fun _ => True).
Proof.
  intros Hl h h' r Hh Hrun. unfold setitem in Hrun.
  destruct (h !! l); injection Hrun as <- <-; split; auto.
  by apply unchanged_insert.
Qed.

Lemma keeps_or_empty (h0 : store) (a : option loc) :
  keeps h0 (or_empty a) (fun l => a <> Some l -> l ∉ dom h0).
Proof.
  destruct a as [l|]; simpl.
  - eapply keeps_bind; [apply keeps_read|]. intros [|kv d] _.
    + eapply keeps_weaken; [apply keeps_new_dict|]. auto.
    + apply keeps_ret. congruence.
  - eapply keeps_weaken; [apply keeps_new_dict|]. auto.
Qed.

(** [keeps] by the shape of the statement. *)
Ltac keeps_step :=
  match goal with
  | |- keeps _ (ret _) _ => apply (keeps_ret _ _ (fun _ => True) I)
  | |- keeps _ (setitem _ _ _) _ => apply keeps_setitem; assumption
  | |- keeps _ (raise _) _ => apply keeps_raise
  | |- keeps _ (read _) _ => apply keeps_read
  | |- keeps _ (getitem _ _) _ => apply keeps_getitem
  | |- keeps _ (contains _ _) _ => apply keeps_contains
  | |- keeps _ (keys _) _ => apply keeps_keys
  | |- keeps _ (new_dict _) _ => apply keeps_new_dict
  | |- keeps _ (or_empty _) _ => apply keeps_or_empty
  | |- keeps _ (for_each _ _) _ => apply keeps_for_each; intros ?
  | |- keeps _ (fold_m _ _ _) _ => apply keeps_fold_m; intros ? ?
  | |- keeps _ (map_m _ _) _ => apply keeps_map_m; intros ?
  | |- keeps _ (bind _ _) _ => eapply keeps_bind; [|intros ? ?]
  | |- keeps _ (if ?b then _ else _) _ => destruct b
  | |- keeps _ (match ?x with _ => _ end) _ => destruct x
  end.

(** [copy.deepcopy] adds objects and changes none; the dict it returns is a
    new object. *)
Lemma keeps_deepcopy (h0 : store) (n : nat) (x : value) :
  keeps h0 (deepcopy n x) (fun x' => forall l, x' = VDict l -> l ∉ dom h0).
Proof.
  revert x. induction n as [|n IH]; intros x; destruct x; simpl;
    try (apply keeps_ret; discriminate); try apply keeps_raise.
  eapply keeps_bind; [apply keeps_read|]. intros d _.
  eapply keeps_bind.
  { apply keeps_map_m. intros kv.
    eapply keeps_bind; [apply IH|]. intros v' _. by apply keeps_ret. }
  intros d' _. eapply keeps_bind; [apply keeps_new_dict|].
  intros y Hy. apply keeps_ret. by intros ? [= <-].
Qed.

Lemma keeps_merge_dicts (h0 : store) (n : nat) (dicts : list (option loc)) :
  keeps h0 (merge_dicts n dicts) (fun _ => True).
Proof.
  revert h0 dicts. induction n as [|n IH]; intros h0 dicts; simpl.
  { apply keeps_raise. }
  destruct (length dicts <=? 1)%nat; [apply keeps_raise|].
  eapply keeps_bind; [apply keeps_deepcopy|]. intros dict_ Hnew.
  eapply keeps_bind; [|intros; by apply keeps_ret].
  apply keeps_for_each. intros merge_dict.
  eapply keeps_bind; [apply keeps_or_empty|]. intros md _.
  eapply keeps_bind; [apply keeps_keys|]. intros ks _.
  apply keeps_for_each. intros k.
  destruct dict_ as [| | | |l_]; try apply keeps_raise.
  assert (Hl : l_ ∉ dom h0) by auto.
  repeat (keeps_step || apply IH).
Qed.

Lemma keeps_flatten_dict (h0 : store) (n : nat) (dictionary : loc)
    (parent_key separator : string) :
  keeps h0 (flatten_dict n dictionary parent_key separator) (fun _ => True).
Proof.
  revert h0 dictionary parent_key. induction n as [|n IH];
    intros h0 dictionary parent_key; simpl.
  { apply keeps_raise. }
  eapply keeps_bind; [apply keeps_read|]. intros d _.
  eapply keeps_bind.
  { apply keeps_fold_m. intros acc [key [| | | |sub]]; simpl;
      try by apply keeps_ret.
    eapply keeps_bind; [apply IH|]. intros r _. repeat keeps_step. }
  intros pairs _. eapply keeps_weaken; [apply keeps_new_dict|]. auto.
Qed.

Lemma keeps_pure {A} (m : M A) :
  (forall h0, keeps h0 m (fun _ => True)) -> pure m.
Proof.
  intros Hm h. destruct (m h) as [h' r] eqn:Hrun.
  exact (proj1 (Hm h h h' r (unchanged_refl h) Hrun)).
Qed.

Lemma keeps_get_by_key (h0 : store) (key : key_spec) (dictionary : loc) :
  keeps h0 (get_by_key key dictionary) (fun _ => True).
Proof.
  unfold get_by_key, get_dictkey_auto_fn, get_key_all, get_key_str,
    get_key_list, get_key_dict, get_key_none.
  destruct key as [s|l|l| |]; try destruct (String.eqb s "__all__");
    repeat keeps_step.
Qed.

Lemma keeps_split_dict_to_subdicts (h0 : store) (dct : loc)
    (prefixes : list string) (extra_key : string) :
  keeps h0 (split_dict_to_subdicts dct prefixes extra_key) (fun _ => True).
Proof.
  unfold split_dict_to_subdicts.
  eapply keeps_bind; [apply keeps_new_dict|]. intros subdicts Hnew.
  repeat keeps_step.
Qed.

(** [append_dict] assigns to items of [dict1] and to nothing else. *)
Lemma keeps_append_dict (h : store) (dict1 dict2 : loc) :
  keeps (delete dict1 h) (append_dict dict1 dict2) (fun v => v = VDict dict1).
Proof.
  assert (Hd : dict1 ∉ dom (delete dict1 h)).
  { apply not_elem_of_dom, lookup_delete_eq. }
  unfold append_dict, concatenate.
  eapply keeps_bind; [apply keeps_keys|]. intros ks _.
  eapply keeps_bind; [|intros; by apply keeps_ret].
  apply keeps_for_each. intros key. repeat keeps_step.
Qed.

(** *** What [append_dict] stores *)

Lemma dict_get_head (k : string) (v : value) (d : items) :
  dict_get k ((k, v) :: d) = Some v.
Proof. simpl. by rewrite String.eqb_refl. Qed.

Lemma dict_get_app_notin (k : string) (d d' : items) :
  ~ In k (map fst d) -> dict_get k (d ++ d') = dict_get k d'.
Proof.
  induction d as [|[k' v'] d IH]; simpl; [done|]. intros Hk.
  destruct (String.eqb k k') eqn:E.
  - apply String.eqb_eq in E. subst k'. tauto.
  - apply IH. tauto.
Qed.

Lemma dict_set_app_notin (k : string) (c v : value) (d d' : items) :
  ~ In k (map fst d) -> dict_set k c (d ++ (k, v) :: d') = d ++ (k, c) :: d'.
Proof.
  induction d as [|[k' v'] d IH]; simpl; intros Hk.
  - by rewrite String.eqb_refl.
  - destruct (String.eqb k k') eqn:E.
    + apply String.eqb_eq in E. subst k'. tauto.
    + f_equal. apply IH. tauto.
Qed.

Lemma appended_keys (d items2 : items) :
  map fst (appended d items2) = map fst d.
Proof. unfold appended. rewrite map_map. reflexivity. Qed.

Lemma appended_app (d d' items2 : items) :
  appended (d ++ d') items2 = appended d items2 ++ appended d' items2.
Proof. unfold appended. apply map_app. Qed.

(** The loop of [append_dict], from the point where the items [done] have
    been dealt with and the items [rest] are still to come. *)
Lemma append_dict_loop (dict1 dict2 : loc) (items1 items2 : items) :
  List.NoDup (map fst items1) ->
  arrays_for items1 items2 ->
  (dict2 = dict1 -> items2 = items1) ->
  forall (rest done : items) (hc : store),
    items1 = done ++ rest ->
    hc !! dict1 = Some (appended done items2 ++ rest) ->
    (dict2 <> dict1 -> hc !! dict2 = Some items2) ->
    for_each (map fst rest) (fun key =>
      a <- getitem dict1 key ;;
      b <- getitem dict2 key ;;
      c <- concatenate a b ;;
      setitem dict1 key c) hc =
    (<[dict1 := appended items1 items2]> hc, inr tt).
Proof.
  intros Hnodup Harr Hsame rest.
  induction rest as [|[k v] rest IH]; intros done hc Hsplit H1 H2.
  - simpl. unfold ret. rewrite app_nil_r in Hsplit, H1. subst done.
    by rewrite insert_id.
  - assert (Hk : ~ In k (map fst done)).
    { rewrite Hsplit, map_app in Hnodup. simpl in Hnodup.
      apply NoDup_remove_2 in Hnodup. intros Hin. apply Hnodup.
      apply in_or_app. by left. }
    assert (Hk' : ~ In k (map fst (appended done items2)))
      by (by rewrite appended_keys).
    destruct (proj1 (Forall_forall _ _) Harr (k, v)) as (a & b & Hv & Hb).
    { rewrite Hsplit. apply list_elem_of_In, in_or_app. right. by left. }
    simpl in Hv, Hb. subst v.
    assert (Hread2 : getitem dict2 k hc = (hc, inr (VArray b))).
    { unfold getitem, bind, read. destruct (decide (dict2 = dict1)) as [->|Hne].
      - rewrite H1, (dict_get_app_notin k _ _ Hk'), dict_get_head.
        rewrite (Hsame eq_refl), Hsplit, (dict_get_app_notin k _ _ Hk),
          dict_get_head in Hb. by injection Hb as ->.
      - by rewrite (H2 Hne), Hb. }
    simpl. unfold bind at 1. unfold bind at 1.
    replace (getitem dict1 k hc) with (hc, @inr exn value (VArray a)).
    2:{ unfold getitem, bind, read.
        by rewrite H1, (dict_get_app_notin k _ _ Hk'), dict_get_head. }
    unfold bind at 1. rewrite Hread2. simpl.
    unfold bind at 1. unfold ret at 1. unfold setitem at 1. rewrite H1.
    rewrite (dict_set_app_notin k _ _ _ _ Hk').
    rewrite (IH (done ++ [(k, VArray a)])).
    + by rewrite insert_insert_eq.
    + by rewrite <- app_assoc.
    + rewrite lookup_insert_eq, appended_app, <- app_assoc. simpl.
      by rewrite Hb.
    + intros Hne. rewrite lookup_insert_ne; auto.
Qed.

(** On dicts of arrays with the same keys, [append_dict] replaces the items
    of [dict1], in the object itself, and returns that object. *)
Lemma append_dict_run (h : store) (dict1 dict2 : loc) (items1 items2 : items) :
  h !! dict1 = Some items1 ->
  h !! dict2 = Some items2 ->
  List.NoDup (map fst items1) ->
  arrays_for items1 items2 ->
  append_dict dict1 dict2 h =
    (<[dict1 := appended items1 items2]> h, inr (VDict dict1)).
Proof.
  intros H1 H2 Hnodup Harr. unfold append_dict.
  unfold bind at 1. unfold keys, bind at 1. unfold read at 1. rewrite H1.
  unfold ret at 1. unfold bind at 1.
  rewrite (append_dict_loop dict1 dict2 items1 items2 Hnodup Harr) with (done := []).
  - reflexivity.
  - intros ->. congruence.
  - reflexivity.
  - exact H1.
  - intros _. exact H2.
Qed.

(** *** Deep copies *)

Lemma nested_unchanged (n : nat) (h h' : store) (v : value) :
  unchanged h h' -> nested n h v -> nested n h' v.
Proof.
  intros Hu. revert v. induction n as [|n IH]; intros [| | | |l]; simpl; auto.
  intros (d & Hd & Hall). exists d. split; [by apply Hu|].
  eapply Forall_impl; [exact Hall|]. intros kv. apply IH.
Qed.

Lemma copy_of_unchanged (n : nat) (h0 h h' : store) (v v' : value) :
  unchanged h h' -> copy_of n h0 h v v' -> copy_of n h0 h' v v'.
Proof.
  intros Hu. revert v v'.
  induction n as [|n IH]; intros [| | | |a] [| | | |b]; simpl; auto.
  intros (da & db & Ha & Hb & Hnew & Hall). exists da, db.
  repeat split; auto. eapply Forall2_impl; [exact Hall|].
  intros x y [Hk Hc]. split; auto.
Qed.

Lemma copy_of_dict (n : nat) (h0 h : store) (a : loc) (v' : value) :
  copy_of n h0 h (VDict a) v' -> exists b, v' = VDict b /\ b ∉ dom h0.
Proof.
  destruct n, v'; simpl; try contradiction.
  intros (da & db & _ & _ & Hnew & _). eauto.
Qed.

Lemma content_items_ext (f g : value -> option data) (d : items) :
  Forall (fun kv => forall t, f (snd kv) = Some t -> g (snd kv) = Some t) d ->
  forall r, content_items f d = Some r -> content_items g d = Some r.
Proof.
  induction 1 as [|[k v] d Hv _ IH]; simpl; [done|]. intros r.
  simpl in Hv.
  destruct (f v) as [t|] eqn:Hf; [|discriminate].
  destruct (content_items f d) as [r'|]; [|discriminate].
  intros [= <-]. by rewrite (Hv t eq_refl), (IH r' eq_refl).
Qed.

(** Reading a value gives the same data after objects have been added. *)
Lemma content_unchanged (n : nat) (h h' : store) (v : value) (t : data) :
  unchanged h h' -> content n h v = Some t -> content n h' v = Some t.
Proof.
  intros Hu. revert v t.
  induction n as [|n IH]; intros [| | | |l] t; simpl; auto.
  destruct (h !! l) as [d|] eqn:Hd; [|discriminate]. rewrite (Hu l d Hd).
  destruct (content_items (content n h) d) as [r|] eqn:Hr; [|discriminate].
  intros [= <-]. erewrite content_items_ext; [reflexivity| |exact Hr].
  apply Forall_forall. intros kv _ t' Ht'. by apply IH.
Qed.

(** A value nested at most [n] deep stands for some data. *)
Lemma nested_content (n : nat) (h : store) (v : value) :
  nested n h v -> exists t, content n h v = Some t.
Proof.
  revert v. induction n as [|n IH]; intros [| | | |l]; simpl;
    try contradiction; eauto.
  intros (d & -> & Hall).
  assert (exists r, content_items (content n h) d = Some r) as [r ->];
    [|eauto].
  induction Hall as [|[k v] d Hv _ [r Hr]]; simpl; [eauto|].
  destruct (IH v Hv) as [t ->]. rewrite Hr. eauto.
Qed.

(** A deep copy stands for the same data as its original. *)
Lemma copy_of_content (n : nat) (h0 h : store) (v v' : value) :
  copy_of n h0 h v v' -> content n h v' = content n h v.
Proof.
  revert v v'.
  induction n as [|n IH]; intros [| | | |a] [| | | |b]; simpl;
    try contradiction; try congruence.
  intros (da & db & -> & -> & _ & Hall).
  assert (content_items (content n h) db = content_items (content n h) da)
    as ->; [|reflexivity].
  induction Hall as [|[k x] [k' y] da db [Hk Hxy] _ IHall]; simpl; [done|].
  simpl in Hk, Hxy. subst k'. by rewrite (IH x y Hxy), IHall.
Qed.

(** The items of a dict, copied one after the other. *)
Lemma deepcopy_items (n fuel : nat) (h0 : store) :
  (forall h v, unchanged h0 h -> nested n h v ->
     exists h' v', deepcopy fuel v h = (h', inr v') /\
                   unchanged h h' /\ copy_of n h0 h' v v') ->
  forall (d : items) (h : store),
    unchanged h0 h ->
    Forall (fun kv => nested n h (snd kv)) d ->
    exists h' d',
      map_m d (fun kv => v' <- deepcopy fuel (snd kv) ;; ret (fst kv, v')) h =
        (h', inr d') /\
      unchanged h h' /\
      Forall2 (fun x y => fst x = fst y /\ copy_of n h0 h' (snd x) (snd y)) d d'.
Proof.
  intros Hcopy d. induction d as [|[k v] d IH]; intros h Hh Hall.
  - exists h, []. simpl. unfold ret. repeat split; [apply unchanged_refl|constructor].
  - apply Forall_cons in Hall as [Hv Hall]. simpl in Hv.
    destruct (Hcopy h v Hh Hv) as (h1 & v1 & Hrun1 & Hu1 & Hc1).
    destruct (IH h1) as (h2 & d2 & Hrun2 & Hu2 & Hc2).
    { by eapply unchanged_trans. }
    { eapply Forall_impl; [exact Hall|]. intros kv. by apply nested_unchanged. }
    exists h2, ((k, v1) :: d2). split; [|split].
    + simpl. unfold bind at 1. unfold bind at 1. rewrite Hrun1.
      unfold ret at 1. unfold bind at 1. by rewrite Hrun2.
    + by eapply unchanged_trans.
    + constructor; [|exact Hc2]. split; [reflexivity|].
      by eapply copy_of_unchanged.
Qed.

(** [copy.deepcopy] of a value nested at most [n] deep, with fuel for it:
    it returns a deep copy and changes no object. *)
Lemma deepcopy_spec (n : nat) :
  forall (fuel : nat) (h0 h : store) (v : value),
    (n <= fuel)%nat ->
    unchanged h0 h ->
    nested n h v ->
    exists h' v',
      deepcopy fuel v h = (h', inr v') /\
      unchanged h h' /\
      copy_of n h0 h' v v'.
Proof.
  induction n as [|n IH]; intros fuel h0 h v Hfuel Hh Hv.
  - exists h, v. destruct v; try contradiction;
      destruct fuel; simpl; repeat split; apply unchanged_refl.
  - destruct v as [| | | |l];
      try (exists h; eexists; destruct fuel; simpl;
           repeat split; apply unchanged_refl).
    destruct fuel as [|fuel]; [lia|].
    destruct Hv as (d & Hd & Hall).
    destruct (deepcopy_items n fuel h0) with (d := d) (h := h)
      as (h1 & d1 & Hrun & Hu1 & Hc); auto.
    { intros h2 v2 Hh2 Hv2. apply IH; auto. lia. }
    exists (<[fresh (dom h1) := d1]> h1), (VDict (fresh (dom h1))).
    assert (Hu : unchanged h1 (<[fresh (dom h1) := d1]> h1))
      by apply unchanged_alloc.
    split; [|split].
    + simpl. unfold bind at 1. unfold read at 1. rewrite Hd.
      unfold bind at 1. rewrite Hrun. reflexivity.
    + by eapply unchanged_trans.
    + simpl. exists d, d1. repeat split.
      * by apply Hu, Hu1.
      * by rewrite lookup_insert_eq.
      * intros Hin. apply (is_fresh (dom h1)).
        eapply unchanged_dom; [|exact Hin]. by eapply unchanged_trans.
      * eapply Forall2_impl; [exact Hc|]. intros x y [Hk Hxy].
        split; [exact Hk|]. by eapply copy_of_unchanged.
Qed.

(** [merge_dict = merge_dict or {}] followed by [for k in merge_dict], on a
    falsy argument: a new empty dict, and a loop that does not run. *)
Lemma or_empty_falsy (h : store) (a : option loc) :
  falsy h a ->
  or_empty a h = (<[fresh (dom h) := []]> h, inr (fresh (dom h))).
Proof.
  destruct a as [l|]; simpl; [|reflexivity].
  intros Hl. unfold bind, read. by rewrite Hl.
Qed.

Lemma keys_of_new_dict (h : store) :
  keys (fresh (dom h)) (<[fresh (dom h) := []]> h) =
    (<[fresh (dom h) := []]> h, inr []).
Proof. unfold keys, bind, read. by rewrite lookup_insert_eq. Qed.

(** *** The claims on the dict utilities *)

(** C10: for a dict [d] (nested at most [n] deep, with fuel for it) and a
    falsy second argument, [None] or an empty dict, [merge_dicts(d, second)]
    returns a dict [d'] that is a deep copy of [d]: the same keys in the same
    order with deep copies as values, in objects that did not exist before
    the call; [d] and every other object that existed are left as they
    were. *)
Theorem merge_with_falsy (n fuel : nat) (h : store) (d : loc)
    (second : option loc) :
  nested n h (VDict d) ->
  (n < fuel)%nat ->
  falsy h second ->
  exists (h' : store) (d' : loc) (t : data),
    merge_dicts fuel [Some d; second] h = (h', inr (VDict d')) /\
    content n h (VDict d) = Some t /\
    content n h' (VDict d') = Some t /\
    content n h' (VDict d) = Some t /\
    copy_of n h h' (VDict d) (VDict d') /\
    (d' ∉ dom h) /\
    unchanged h h'.
Proof.
  intros Hd Hfuel Hfalsy. destruct fuel as [|fuel]; [lia|].
  destruct (deepcopy_spec n fuel h h (VDict d)) as (h1 & v1 & Hrun & Hu1 & Hc);
    [lia|apply unchanged_refl|exact Hd|].
  destruct (copy_of_dict n h h1 d v1 Hc) as (d' & -> & Hnew).
  assert (Hfalsy1 : falsy h1 second).
  { destruct second as [e|]; simpl in *; auto. }
  destruct (nested_content n h (VDict d) Hd) as [t Ht].
  exists (<[fresh (dom h1) := []]> h1), d', t.
  assert (Hu : unchanged h1 (<[fresh (dom h1) := []]> h1))
    by apply unchanged_alloc.
  assert (Hu' : unchanged h (<[fresh (dom h1) := []]> h1))
    by exact (unchanged_trans _ _ _ Hu1 Hu).
  assert (Hc' : copy_of n h (<[fresh (dom h1) := []]> h1) (VDict d) (VDict d'))
    by exact (copy_of_unchanged _ _ _ _ _ _ Hu Hc).
  assert (Ht' : content n (<[fresh (dom h1) := []]> h1) (VDict d) = Some t)
    by exact (content_unchanged _ _ _ _ _ Hu' Ht).
  split; [|repeat split]; auto.
  - simpl. unfold bind at 1. change (arg_value (Some d)) with (VDict d).
    rewrite Hrun. unfold bind at 1. unfold bind at 1. unfold bind at 1.
    rewrite (or_empty_falsy h1 second Hfalsy1).
    unfold bind at 1. rewrite keys_of_new_dict. reflexivity.
  - by rewrite (copy_of_content n h _ _ _ Hc').
Qed.

(** C7, as the code has it: [merge_dicts], [flatten_dict], the [get_key_*]
    functions and [split_dict_to_subdicts] change no dict that exists when
    they are called: all they do to the store is to add new dicts.
    [append_dict] is the exception: it assigns to the items of [dict1]
    itself (and to no other dict) and returns [dict1]; on dicts of arrays
    the items of [dict1] become the concatenations. *)
Theorem dict_utilities_and_their_arguments :
  (forall fuel dicts, pure (merge_dicts fuel dicts)) /\
  (forall fuel dictionary parent_key separator,
     pure (flatten_dict fuel dictionary parent_key separator)) /\
  (forall dictionary key, pure (get_key_str dictionary key)) /\
  (forall dictionary key, pure (get_key_list dictionary key)) /\
  (forall dictionary key, pure (get_key_dict dictionary key)) /\
  (forall dictionary, pure (get_key_none dictionary)) /\
  (forall dictionary, pure (get_key_all dictionary)) /\
  (forall key dictionary, pure (get_by_key key dictionary)) /\
  (forall dct prefixes extra_key,
     pure (split_dict_to_subdicts dct prefixes extra_key)) /\
  (forall (h : store) dict1 dict2,
     unchanged (delete dict1 h) (fst (append_dict dict1 dict2 h)) /\
     (forall v, snd (append_dict dict1 dict2 h) = inr v -> v = VDict dict1)) /\
  (forall (h : store) dict1 dict2 items1 items2,
     h !! dict1 = Some items1 ->
     h !! dict2 = Some items2 ->
     List.NoDup (map fst items1) ->
     arrays_for items1 items2 ->
     append_dict dict1 dict2 h =
       (<[dict1 := appended items1 items2]> h, inr (VDict dict1))).
Proof.
  repeat apply conj.
  - intros. apply keeps_pure. intros h0. apply keeps_merge_dicts.
  - intros. apply keeps_pure. intros h0. apply keeps_flatten_dict.
  - intros. apply keeps_pure. intros h0. unfold get_key_str. repeat keeps_step.
  - intros. apply keeps_pure. intros h0. unfold get_key_list. repeat keeps_step.
  - intros. apply keeps_pure. intros h0. unfold get_key_dict. repeat keeps_step.
  - intros. apply keeps_pure. intros h0. unfold get_key_none. repeat keeps_step.
  - intros. apply keeps_pure. intros h0. unfold get_key_all. repeat keeps_step.
  - intros. apply keeps_pure. intros h0. apply keeps_get_by_key.
  - intros. apply keeps_pure. intros h0. apply keeps_split_dict_to_subdicts.
  - intros h dict1 dict2.
    assert (Hh : unchanged (delete dict1 h) h).
    { intros l d Hl. apply lookup_delete_Some in Hl. tauto. }
    destruct (append_dict dict1 dict2 h) as [h' r] eqn:Hrun.
    destruct (keeps_append_dict h dict1 dict2 h h' r Hh Hrun) as [Hu Hv].
    simpl. split; [exact Hu|]. intros v ->. by apply Hv.
  - intros h dict1 dict2 items1 items2. apply append_dict_run.
Qed.

(** C7, as stated, fails for [append_dict]: after
    [append_dict({"x": [1, 2]}, {"x": [3]})] the first argument holds
    [[1, 2, 3]] under ["x"]. *)
Lemma append_dict_changes_dict1 :
  ~ append_dict_is_pure two_batches 1%positive 2%positive.
Proof.
  unfold append_dict_is_pure. intros H.
  specialize (H 1%positive [("x", VArray [1; 2])] eq_refl).
  vm_compute in H. discriminate.
Qed.

Lemma dict_utilities_and_their_arguments_witness :
  append_dict 1%positive 2%positive two_batches =
    (<[1%positive := [("x", VArray [1; 2; 3])]]> two_batches,
     inr (VDict 1%positive)).
Proof.
  destruct dict_utilities_and_their_arguments
    as (_ & _ & _ & _ & _ & _ & _ & _ & _ & _ & Hrun).
  apply (Hrun two_batches 1%positive 2%positive
           [("x", VArray [1; 2])] [("x", VArray [3])]).
  - reflexivity.
  - reflexivity.
  - repeat constructor. intros [].
  - repeat constructor. simpl. by exists [1; 2], [3].
Defined.

(** [merge_dicts(config, None)] and [merge_dicts(config, {})] on the sample
    store. *)
Lemma merge_with_falsy_witness :
  nested 2 configs (VDict 1%positive) /\
  falsy configs None /\
  falsy configs (Some 3%positive) /\
  (exists (h' : store) (d' : loc) (t : data),
     merge_dicts 3 [Some 1%positive; None] configs = (h', inr (VDict d')) /\
     content 2 configs (VDict 1%positive) = Some t /\
     content 2 h' (VDict d') = Some t /\
     content 2 h' (VDict 1%positive) = Some t /\
     copy_of 2 configs h' (VDict 1%positive) (VDict d') /\
     (d' ∉ dom configs) /\
     unchanged configs h') /\
  (exists (h' : store) (d' : loc) (t : data),
     merge_dicts 3 [Some 1%positive; Some 3%positive] configs =
       (h', inr (VDict d')) /\
     content 2 configs (VDict 1%positive) = Some t /\
     content 2 h' (VDict d') = Some t /\
     content 2 h' (VDict 1%positive) = Some t /\
     copy_of 2 configs h' (VDict 1%positive) (VDict d') /\
     (d' ∉ dom configs) /\
     unchanged configs h').
Proof.
  assert (Hn : nested 2 configs (VDict 1%positive)).
  { simpl. eexists. split; [reflexivity|]. repeat constructor.
    simpl. eexists. split; [reflexivity|]. repeat constructor. }
  split; [exact Hn|]. split; [exact I|]. split; [reflexivity|]. split.
  - apply (merge_with_falsy 2 3 configs 1%positive None); [exact Hn|lia|exact I].
  - apply (merge_with_falsy 2 3 configs 1%positive (Some 3%positive));
      [exact Hn|lia|reflexivity].
Defined.

(** The two calls above, run. *)
Example merge_config_with_None :
  let r := merge_dicts 3 [Some 1%positive; None] configs in
  snd r = inr (VDict 7%positive) /\
  fst r !! 7%positive = Some [("lr", VInt 1); ("opt", VDict 6%positive)] /\
  fst r !! 6%positive = Some [("name", VStr "adam")] /\
  fst r !! 1%positive = Some [("lr", VInt 1); ("opt", VDict 2%positive)] /\
  fst r !! 2%positive = Some [("name", VStr "adam")].
Proof. vm_compute. repeat split. Qed.

(** A merge that goes down into the nested dict: the result is new, the
    arguments are as before. *)
Example merge_two_configs :
  let r := merge_dicts 3 [Some 1%positive; Some 4%positive] configs in
  snd r = inr (VDict 7%positive) /\
  fst r !! 7%positive =
    Some [("lr", VInt 1); ("opt", VDict 8%positive); ("seed", VInt 7)] /\
  fst r !! 8%positive = Some [("name", VStr "adam"); ("eps", VInt 0)] /\
  fst r !! 1%positive = configs !! 1%positive /\
  fst r !! 2%positive = configs !! 2%positive /\
  fst r !! 4%positive = configs !! 4%positive /\
  fst r !! 5%positive = configs !! 5%positive.
Proof. vm_compute. repeat split. Qed.

Example flatten_config :
  let r := flatten_dict 3 1%positive "" "/" configs in
  snd r = inr 7%positive /\
  fst r !! 7%positive = Some [("lr", VInt 1); ("opt/name", VStr "adam")] /\
  fst r !! 1%positive = configs !! 1%positive.
Proof. vm_compute. repeat split. Qed.

End DictSpec.

(** ** More on [distributed_cmd_run]: the order of the calls *)

Module LauncherMore.
Import StateErr Launcher LauncherSpec.

Section Runs.

Context {pyobj callable : Type}.
Variable w : @world pyobj callable.
Variable get_distributed_params : process -> DistributedParams.
Variable get_distributed_env : Z -> Z -> Z -> environ.
Variable proc : process.

Local Abbreviation state := (@state pyobj callable).
Local Abbreviation event := (@event pyobj callable).
Local Abbreviation run := (distributed_cmd_run w get_distributed_params get_distributed_env proc).
Local Abbreviation cmd := (worker_cmd proc).
Local Abbreviation env := (worker_env get_distributed_params get_distributed_env proc).
Local Abbreviation in_spawn_branch := (spawn_branch get_distributed_params proc).

Lemma Forall2_fst_map {A} (f : A -> call) (evs : list event) (l : list A) :
  Forall2 (fun ev x => fst ev = f x) evs l -> map fst evs = map f l.
Proof. induction 1 as [|ev x evs l Hx _ IH]; simpl; congruence. Qed.

(** When a [Popen] call raises, the launcher waits for nothing: the [try]
    block holds [Popen] events only, the processes started before are killed
    (one [kill] each, in the order they were started), and the exception of
    [Popen] is the outcome. *)
Theorem popen_failure_skips_waiting distributed worker_fn args kwargs (s : state) :
  in_spawn_branch distributed ->
  exists evs : list event,
    run distributed worker_fn args kwargs s =
      ({| log := log s ++ evs ++ kill_events (spawned_of evs);
          workers := spawned_of evs |},
       outcome_of evs) /\
    (forall cmd0 env0 e,
       In (Popen cmd0 env0, Raised e) evs ->
       outcome_of evs = inl e /\ Forall is_Popen evs).
Proof.
  intros Hbr.
  destruct (spawn_branch_run w get_distributed_params get_distributed_env proc
              distributed worker_fn args kwargs s Hbr)
    as (spawns & waits & Hrun & Hsp & _ & Hskip & Hwt & _ & Hlast).
  pose proof (Forall2_fst_Popen _ _ _ _ _ Hsp) as HP.
  pose proof (Forall2_fst_wait _ _ Hwt) as HW.
  exists (spawns ++ waits).
  rewrite spawned_of_app, (spawned_of_waits waits HW), app_nil_r.
  split; [exact Hrun|].
  intros cmd0 env0 e Hin. split.
  - apply outcome_of_raised. eauto.
  - assert (Hin' : In (Popen cmd0 env0, Raised e) spawns).
    { apply in_app_or in Hin as [Hin|Hin]; [exact Hin|].
      apply list_elem_of_In in Hin.
      apply (proj1 (Forall_forall _ _) HW) in Hin. contradiction. }
    rewrite Hskip, app_nil_r; [exact HP|].
    intros Hnone. apply raised_in_None in Hnone.
    apply list_elem_of_In in Hin'.
    apply (proj1 (Forall_forall _ _) Hnone) in Hin' as [v Hv]. discriminate.
Qed.

(** In every run of the spawn branch the calls of the [try] block are the
    first [Popen] calls of the sequence for the local ranks 0, 1, ... (at
    most [device_count] of them, whatever fails), followed by [wait] calls on
    the first processes started, in the order they were started. *)
Theorem calls_in_rank_order distributed worker_fn args kwargs (s : state) :
  in_spawn_branch distributed ->
  exists spawns waits : list event,
    run distributed worker_fn args kwargs s =
      ({| log := log s ++ (spawns ++ waits) ++ kill_events (spawned_of spawns);
          workers := spawned_of spawns |},
       outcome_of (spawns ++ waits)) /\
    map fst spawns =
      take (length spawns)
           (map (fun i => Popen (worker_cmd proc)
                                (worker_env get_distributed_params
                                            get_distributed_env proc i))
                (range (cuda_device_count proc))) /\
    (length spawns <= Z.to_nat (cuda_device_count proc))%nat /\
    map fst waits = map wait (take (length waits) (spawned_of spawns)).
Proof.
  intros Hbr.
  destruct (spawn_branch_run w get_distributed_params get_distributed_env proc
              distributed worker_fn args kwargs s Hbr)
    as (spawns & waits & Hrun & Hsp & _ & _ & Hwt & _ & _).
  exists spawns, waits. split; [exact Hrun|].
  split; [|split].
  - rewrite (Forall2_fst_map _ _ _ Hsp). symmetry. apply firstn_map.
  - pose proof (Forall2_length _ _ _ Hsp) as Hl. rewrite length_take in Hl.
    rewrite <- range_length. unfold Launcher.event in *. lia.
  - apply (Forall2_fst_map _ _ _ Hwt).
Qed.

End Runs.

Lemma popen_failure_skips_waiting_witness :
  spawn_branch host_params two_gpu_host true /\
  exists evs : list event,
    distributed_cmd_run fork_failing_world host_params rank_env two_gpu_host
      true "main" [7] [] fresh_state =
      ({| log := log fresh_state ++ evs ++ kill_events (spawned_of evs);
          workers := spawned_of evs |},
       outcome_of evs) /\
    (forall cmd0 env0 e,
       In (Popen cmd0 env0, Raised e) evs ->
       outcome_of evs = inl e /\ Forall is_Popen evs).
Proof.
  split; [repeat split|].
  apply (popen_failure_skips_waiting fork_failing_world host_params rank_env
           two_gpu_host true "main" [7] [] fresh_state).
  repeat split.
Defined.

Lemma calls_in_rank_order_witness :
  spawn_branch host_params two_gpu_host true /\
  exists spawns waits : list event,
    distributed_cmd_run interrupted_world host_params rank_env two_gpu_host
      true "main" [7] [] fresh_state =
      ({| log := log fresh_state ++ (spawns ++ waits) ++
                 kill_events (spawned_of spawns);
          workers := spawned_of spawns |},
       outcome_of (spawns ++ waits)) /\
    map fst spawns =
      take (length spawns)
           (map (fun i => Popen (worker_cmd two_gpu_host)
                                (worker_env host_params rank_env two_gpu_host i))
                (range (cuda_device_count two_gpu_host))) /\
    (length spawns <= Z.to_nat (cuda_device_count two_gpu_host))%nat /\
    map fst waits = map wait (take (length waits) (spawned_of spawns)).
Proof.
  split; [repeat split|].
  apply (calls_in_rank_order interrupted_world host_params rank_env
           two_gpu_host true "main" [7] [] fresh_state).
  repeat split.
Defined.

End LauncherMore.

(** ** More on the dict utilities *)

Module DictMore.
Import StateErr Dict DictSpec.
Local Open Scope monad_scope.

Local Abbreviation store := (gmap loc items).
Local Abbreviation M := (StateErr.M store exn).

(** *** Items *)

Lemma dict_get_dict_set (k k' : string) (v : value) (d : items) :
  dict_get k (dict_set k' v d) =
  if String.eqb k k' then Some v else dict_get k d.
Proof.
  induction d as [|[k0 v0] d IH]; simpl.
  - destruct (String.eqb k k'); reflexivity.
  - destruct (String.eqb k' k0) eqn:E0; simpl.
    + apply String.eqb_eq in E0. subst k0.
      destruct (String.eqb k k'); reflexivity.
    + destruct (String.eqb k k0) eqn:E1; [|exact IH].
      apply String.eqb_eq in E1. subst k0.
      rewrite String.eqb_sym in E0. by rewrite E0.
Qed.

Lemma dict_get_None (k : string) (d : items) :
  dict_get k d = None <-> ~ In k (map fst d).
Proof.
  induction d as [|[k0 v0] d IH]; simpl; [tauto|].
  destruct (String.eqb k k0) eqn:E.
  - apply String.eqb_eq in E. subst k0. split; [discriminate|tauto].
  - apply String.eqb_neq in E. rewrite IH. split; [|tauto].
    intros H [Heq|Hin]; [congruence|tauto].
Qed.

Lemma dict_get_In (k : string) (v : value) (d : items) :
  dict_get k d = Some v -> In (k, v) d.
Proof.
  induction d as [|[k0 v0] d IH]; simpl; [discriminate|].
  destruct (String.eqb k k0) eqn:E.
  - apply String.eqb_eq in E. subst k0. intros [= ->]. by left.
  - intros H. right. by apply IH.
Qed.

Lemma dict_get_NoDup (k : string) (v : value) (d : items) :
  List.NoDup (map fst d) -> In (k, v) d -> dict_get k d = Some v.
Proof.
  induction d as [|[k0 v0] d IH]; simpl; [tauto|].
  intros Hnd Hin. apply NoDup_cons_iff in Hnd as [Hk0 Hnd].
  destruct Hin as [[= -> ->]|Hin].
  - by rewrite String.eqb_refl.
  - destruct (String.eqb k k0) eqn:E; [|by apply IH].
    apply String.eqb_eq in E. subst k0. exfalso. apply Hk0.
    change k with (fst (k, v)). by apply in_map.
Qed.

(** A key that is there keeps its place when it is assigned to. *)
Lemma dict_set_keys_present (k : string) (v : value) (d : items) :
  dict_get k d <> None -> map fst (dict_set k v d) = map fst d.
Proof.
  induction d as [|[k0 v0] d IH]; simpl; [congruence|].
  destruct (String.eqb k k0) eqn:E; simpl.
  - apply String.eqb_eq in E. by subst k0.
  - intros H. f_equal. by apply IH.
Qed.

(** A new key goes to the end. *)
Lemma dict_set_absent (k : string) (v : value) (d : items) :
  ~ In k (map fst d) -> dict_set k v d = d ++ [(k, v)].
Proof.
  induction d as [|[k0 v0] d IH]; simpl; [done|]. intros Hk.
  destruct (String.eqb k k0) eqn:E.
  - apply String.eqb_eq in E. subst k0. tauto.
  - f_equal. apply IH. tauto.
Qed.

Lemma dict_set_keys_In (k k' : string) (v : value) (d : items) :
  In k' (map fst (dict_set k v d)) <-> k' = k \/ In k' (map fst d).
Proof.
  induction d as [|[k0 v0] d IH]; simpl; [intuition|].
  destruct (String.eqb k k0) eqn:E; simpl.
  - apply String.eqb_eq in E. subst k0. intuition.
  - rewrite IH. intuition.
Qed.

Lemma dict_set_NoDup (k : string) (v : value) (d : items) :
  List.NoDup (map fst d) -> List.NoDup (map fst (dict_set k v d)).
Proof.
  induction d as [|[k0 v0] d IH]; simpl; intros Hnd.
  - constructor; [tauto|constructor].
  - apply NoDup_cons_iff in Hnd as [Hk0 Hnd].
    destruct (String.eqb k k0) eqn:E; simpl.
    + apply String.eqb_eq in E. subst k0. by constructor.
    + constructor; [|by apply IH]. rewrite dict_set_keys_In.
      apply String.eqb_neq in E. intros [->|Hin]; tauto.
Qed.

(** [dict(pairs)]: for a key that comes more than once the last pair wins;
    the keys are distinct. *)
Lemma dict_get_fold_set (k : string) (pairs acc : items) :
  dict_get k (fold_left (fun d kv => dict_set (fst kv) (snd kv) d) pairs acc) =
  match dict_get k (rev pairs) with
  | Some v => Some v
  | None => dict_get k acc
  end.
Proof.
  revert acc. induction pairs as [|[k0 v0] pairs IH]; intros acc; simpl; [done|].
  rewrite IH. clear IH.
  destruct (dict_get k (rev pairs)) as [v|] eqn:Hr.
  - assert (In k (map fst (rev pairs))) as Hin.
    { change k with (fst (k, v)). apply in_map. by apply dict_get_In. }
    destruct (dict_get k (rev pairs ++ [(k0, v0)])) as [v'|] eqn:Hr'.
    + revert Hr Hr'. generalize (rev pairs). intros l.
      induction l as [|[k1 v1] l IHl]; simpl; [discriminate|].
      destruct (String.eqb k k1); [congruence|exact IHl].
    + apply dict_get_None in Hr'. exfalso. apply Hr'.
      rewrite map_app. apply in_or_app. by left.
  - apply dict_get_None in Hr. rewrite dict_get_app_notin by exact Hr.
    simpl. rewrite dict_get_dict_set. by destruct (String.eqb k k0).
Qed.

Lemma dict_of_pairs_get (k : string) (pairs : items) :
  dict_get k (dict_of_pairs pairs) = dict_get k (rev pairs).
Proof.
  unfold dict_of_pairs. rewrite dict_get_fold_set. simpl.
  by destruct (dict_get k (rev pairs)).
Qed.

Lemma fold_set_NoDup (pairs acc : items) :
  List.NoDup (map fst acc) ->
  List.NoDup (map fst (fold_left (fun d kv => dict_set (fst kv) (snd kv) d)
                                 pairs acc)).
Proof.
  revert acc. induction pairs as [|[k v] pairs IH]; intros acc Hacc; simpl; auto.
  apply IH. by apply dict_set_NoDup.
Qed.

Lemma dict_of_pairs_NoDup (pairs : items) :
  List.NoDup (map fst (dict_of_pairs pairs)).
Proof. apply fold_set_NoDup. constructor. Qed.

(** On pairs with distinct keys [dict(pairs)] keeps the pairs as they are. *)
Lemma fold_set_distinct (pairs acc : items) :
  List.NoDup (map fst (acc ++ pairs)) ->
  fold_left (fun d kv => dict_set (fst kv) (snd kv) d) pairs acc = acc ++ pairs.
Proof.
  revert acc. induction pairs as [|[k v] pairs IH]; intros acc Hnd; simpl.
  - by rewrite app_nil_r.
  - rewrite dict_set_absent.
    + rewrite IH; rewrite <- app_assoc; [reflexivity|exact Hnd].
    + rewrite map_app in Hnd. simpl in Hnd.
      apply NoDup_remove_2 in Hnd. intros Hin. apply Hnd.
      apply in_or_app. by left.
Qed.

Lemma dict_of_pairs_distinct (pairs : items) :
  List.NoDup (map fst pairs) -> dict_of_pairs pairs = pairs.
Proof. intros Hnd. unfold dict_of_pairs. by rewrite fold_set_distinct. Qed.

(** *** Loops *)

Lemma for_each_app {A} (l1 l2 : list A) (body : A -> M unit) (h : store) :
  for_each (l1 ++ l2) body h =
  match for_each l1 body h with
  | (h', inr _) => for_each l2 body h'
  | (h', inl e) => (h', inl e)
  end.
Proof.
  revert h. induction l1 as [|x l1 IH]; intros h; simpl; [done|].
  unfold bind. destruct (body x h) as [h1 [e|[]]]; [done|]. apply IH.
Qed.

Lemma getitem_store (l : loc) (k : string) (h h' : store) (r : exn + value) :
  getitem l k h = (h', r) -> h' = h.
Proof.
  unfold getitem, bind, read, ret, raise.
  destruct (h !! l) as [d|]; [|by intros [= <- _]].
  destruct (dict_get k d); by intros [= <- _].
Qed.

Lemma getitem_present (l : loc) (k : string) (h : store) (d : items)
    (v : value) :
  h !! l = Some d -> dict_get k d = Some v -> getitem l k h = (h, inr v).
Proof. intros Hl Hk. unfold getitem, bind, read. by rewrite Hl, Hk. Qed.

Lemma getitem_absent (l : loc) (k : string) (h : store) (d : items) :
  h !! l = Some d -> dict_get k d = None ->
  getitem l k h = (h, inl (KeyError k)).
Proof. intros Hl Hk. unfold getitem, bind, read. by rewrite Hl, Hk. Qed.

Lemma for_each_cons {A} (x : A) (l : list A) (body : A -> M unit)
    (h h' : store) :
  body x h = (h', inr tt) -> for_each (x :: l) body h = for_each l body h'.
Proof. intros H. simpl. unfold bind. by rewrite H. Qed.

(** *** [append_dict] *)

(** One turn of the loop of [append_dict]: it raises and leaves the store as
    it is, or it assigns to the key [key] of [dict1], which is there. *)
Lemma append_dict_turn (dict1 dict2 : loc) (key : string) (hc : store)
    (cur : items) :
  hc !! dict1 = Some cur ->
  let turn := (a <- getitem dict1 key ;;
               b <- getitem dict2 key ;;
               c <- concatenate a b ;;
               setitem dict1 key c) in
  (exists e, turn hc = (hc, inl e)) \/
  (exists c, dict_get key cur <> None /\
             turn hc = (<[dict1 := dict_set key c cur]> hc, inr tt)).
Proof.
  intros H1 turn. subst turn. unfold bind.
  assert (Hg : getitem dict1 key hc =
               match dict_get key cur with
               | Some a => (hc, inr a)
               | None => (hc, inl (KeyError key))
               end).
  { unfold getitem, bind, read. rewrite H1. by destruct (dict_get key cur). }
  rewrite Hg. clear Hg.
  destruct (dict_get key cur) as [a|] eqn:Ha; [|left; by eexists].
  destruct (getitem dict2 key hc) as [h2 [e|b]] eqn:Hb;
    apply getitem_store in Hb as ->.
  - left. by exists e.
  - unfold concatenate.
    destruct a, b; try (left; by eexists).
    right. eexists. split; [congruence|]. unfold ret, setitem. by rewrite H1.
Qed.

Lemma append_dict_loop_keys (dict1 dict2 : loc) (ks : list string) :
  forall (hc : store) (cur : items),
    hc !! dict1 = Some cur ->
    exists cur',
      fst (for_each ks (fun key =>
             a <- getitem dict1 key ;;
             b <- getitem dict2 key ;;
             c <- concatenate a b ;;
             setitem dict1 key c) hc) !! dict1 = Some cur' /\
      map fst cur' = map fst cur.
Proof.
  induction ks as [|k ks IH]; intros hc cur H1; simpl.
  - by exists cur.
  - unfold bind at 1.
    destruct (append_dict_turn dict1 dict2 k hc cur H1)
      as [[e ->]|(c & Hk & ->)].
    + by exists cur.
    + destruct (IH (<[dict1 := dict_set k c cur]> hc) (dict_set k c cur))
        as (cur' & Hcur' & Hkeys); [by rewrite lookup_insert_eq|].
      exists cur'. split; [exact Hcur'|].
      by rewrite Hkeys, dict_set_keys_present.
Qed.

(** Whether it succeeds or raises, [append_dict] leaves [dict1] with the keys
    it had, in the order they had: it adds none (a key that only [dict2] has
    is ignored), drops none and moves none. *)
Theorem append_dict_keeps_keys (h : store) (dict1 dict2 : loc) (items1 : items) :
  h !! dict1 = Some items1 ->
  exists items1',
    fst (append_dict dict1 dict2 h) !! dict1 = Some items1' /\
    map fst items1' = map fst items1.
Proof.
  intros H1. unfold append_dict.
  unfold bind at 1. unfold keys, bind at 1. unfold read at 1. rewrite H1.
  unfold ret at 1. unfold bind at 1.
  destruct (append_dict_loop_keys dict1 dict2 (map fst items1) h items1 H1)
    as (cur' & Hcur' & Hkeys).
  exists cur'. split; [|exact Hkeys].
  destruct (for_each _ _ h) as [h' [e|[]]]; exact Hcur'.
Qed.

(** The loop of [append_dict] over the items [todo], which come after the
    items [done] and before the items [rest]. *)
Lemma append_dict_segment (dict1 dict2 : loc) (items2 : items) :
  dict2 <> dict1 ->
  forall (todo done rest : items) (hc : store),
    List.NoDup (map fst (done ++ todo ++ rest)) ->
    arrays_for todo items2 ->
    hc !! dict1 = Some (appended done items2 ++ todo ++ rest) ->
    hc !! dict2 = Some items2 ->
    for_each (map fst todo) (fun key =>
      a <- getitem dict1 key ;;
      b <- getitem dict2 key ;;
      c <- concatenate a b ;;
      setitem dict1 key c) hc =
    (<[dict1 := appended (done ++ todo) items2 ++ rest]> hc, inr tt).
Proof.
  intros Hne todo.
  induction todo as [|[k v] todo IH]; intros done rest hc Hnd Harr H1 H2.
  - simpl. unfold ret. rewrite app_nil_r. simpl in H1. by rewrite insert_id.
  - assert (Hk : ~ In k (map fst (appended done items2))).
    { rewrite appended_keys. rewrite map_app in Hnd. simpl in Hnd.
      apply NoDup_remove_2 in Hnd. intros Hin. apply Hnd.
      apply in_or_app. by left. }
    apply Forall_cons in Harr as [(a & b & Hv & Hb) Harr].
    simpl in Hv, Hb. subst v. change (((k, VArray a) :: todo) ++ rest)
      with ((k, VArray a) :: todo ++ rest) in H1.
    simpl. unfold bind at 1. unfold bind at 1.
    replace (getitem dict1 k hc) with (hc, @inr exn value (VArray a)).
    2:{ unfold getitem, bind, read.
        by rewrite H1, (dict_get_app_notin k _ _ Hk), dict_get_head. }
    unfold bind at 1.
    replace (getitem dict2 k hc) with (hc, @inr exn value (VArray b)).
    2:{ unfold getitem, bind, read. by rewrite H2, Hb. }
    simpl. unfold bind at 1. unfold ret at 1. unfold setitem at 1. rewrite H1.
    simpl. rewrite (dict_set_app_notin k _ _ _ _ Hk).
    rewrite (IH (done ++ [(k, VArray a)]) rest).
    + rewrite insert_insert_eq. by rewrite <- app_assoc.
    + by rewrite <- app_assoc.
    + exact Harr.
    + rewrite lookup_insert_eq, appended_app, <- app_assoc. simpl.
      by rewrite Hb.
    + by rewrite lookup_insert_ne.
Qed.

(** [append_dict] is not all or nothing.  When [dict2] lacks the key [k] of
    [dict1], the call raises [KeyError(k)], and the items of [dict1] that
    come before [k] have been extended already; the others are as before. *)
Theorem append_dict_missing_key (h : store) (dict1 dict2 : loc)
    (done rest items2 : items) (k : string) (v : value) :
  h !! dict1 = Some (done ++ (k, v) :: rest) ->
  h !! dict2 = Some items2 ->
  List.NoDup (map fst (done ++ (k, v) :: rest)) ->
  arrays_for done items2 ->
  dict_get k items2 = None ->
  append_dict dict1 dict2 h =
    (<[dict1 := appended done items2 ++ (k, v) :: rest]> h, inl (KeyError k)).
Proof.
  intros H1 H2 Hnd Harr Hk2.
  assert (Hne : dict2 <> dict1).
  { intros ->. rewrite H1 in H2. injection H2 as <-.
    apply dict_get_None in Hk2. apply Hk2. rewrite map_app.
    apply in_or_app. right. by left. }
  assert (Hk : ~ In k (map fst (appended done items2))).
  { rewrite appended_keys. rewrite map_app in Hnd. simpl in Hnd.
    apply NoDup_remove_2 in Hnd. intros Hin. apply Hnd.
    apply in_or_app. by left. }
  unfold append_dict.
  unfold bind at 1. unfold keys, bind at 1. unfold read at 1. rewrite H1.
  unfold ret at 1. unfold bind at 1.
  rewrite map_app, for_each_app.
  rewrite (append_dict_segment dict1 dict2 items2 Hne done [] ((k, v) :: rest));
    [|done|done|done|done].
  simpl. unfold bind at 1. unfold bind at 1.
  unfold getitem at 1. unfold bind at 1. unfold read at 1.
  rewrite lookup_insert_eq, (dict_get_app_notin k _ _ Hk), dict_get_head.
  unfold ret at 1. unfold bind at 1.
  unfold getitem, bind, read. rewrite lookup_insert_ne by done.
  by rewrite H2, Hk2.
Qed.

Lemma append_dict_keeps_keys_witness :
  two_batches !! 1%positive = Some [("x", VArray [1; 2])] /\
  exists items1',
    fst (append_dict 1%positive 2%positive two_batches) !! 1%positive =
      Some items1' /\
    map fst items1' = map fst [("x", VArray [1; 2])].
Proof.
  split; [reflexivity|].
  apply (append_dict_keeps_keys two_batches 1%positive 2%positive
           [("x", VArray [1; 2])]).
  reflexivity.
Defined.

(** [dict1] has the keys ["x"] and ["y"], [dict2] only ["x"]. *)
Lemma append_dict_missing_key_witness :
  append_dict 1%positive 2%positive
    (<[1%positive := [("x", VArray [1]); ("y", VArray [2])]]>
       (<[2%positive := [("x", VArray [3])]]> (∅ : store))) =
    (<[1%positive := [("x", VArray [1; 3]); ("y", VArray [2])]]>
       (<[1%positive := [("x", VArray [1]); ("y", VArray [2])]]>
          (<[2%positive := [("x", VArray [3])]]> (∅ : store))),
     inl (KeyError "y")).
Proof.
  apply (append_dict_missing_key _ 1%positive 2%positive
           [("x", VArray [1])] [] [("x", VArray [3])] "y" (VArray [2])).
  - reflexivity.
  - reflexivity.
  - repeat constructor; simpl; intuition discriminate.
  - repeat constructor. simpl. by exists [1], [3].
  - reflexivity.
Defined.

(** *** The getters *)

Lemma dict_of_pairs_keys_In (k : string) (pairs : items) :
  In k (map fst (dict_of_pairs pairs)) <-> In k (map fst pairs).
Proof.
  destruct (dict_get k (dict_of_pairs pairs)) as [v|] eqn:E.
  - split; intros _.
    + rewrite dict_of_pairs_get in E. apply dict_get_In in E.
      apply in_rev in E. apply in_map_iff. by exists (k, v).
    + apply dict_get_In in E. apply in_map_iff. by exists (k, v).
  - pose proof E as E'. apply dict_get_None in E.
    rewrite dict_of_pairs_get in E'. apply dict_get_None in E'.
    rewrite map_rev in E'. rewrite <- in_rev in E'. tauto.
Qed.

(** The comprehension of [get_key_list], when [dictionary] has the keys. *)
Lemma get_key_list_pairs (h : store) (dictionary : loc) (d : items)
    (key : list string) :
  h !! dictionary = Some d ->
  (forall k, In k key -> dict_get k d <> None) ->
  map_m key (fun key_ => v <- getitem dictionary key_ ;; ret (key_, v)) h =
    (h, inr (map (fun k => (k, default VNone (dict_get k d))) key)).
Proof.
  intros Hd. induction key as [|k key IH]; intros Hkey; simpl; [done|].
  destruct (dict_get k d) as [v|] eqn:Hk.
  2:{ exfalso. apply (Hkey k); [by left|done]. }
  unfold bind at 1. unfold bind at 1.
  rewrite (getitem_present dictionary k h d v Hd Hk).
  unfold ret at 1. unfold bind at 1.
  rewrite IH; [|intros k' Hk'; apply Hkey; by right].
  done.
Qed.

(** The comprehension of [get_key_list] stops at the first key that
    [dictionary] lacks. *)
Lemma get_key_list_pairs_missing (h : store) (dictionary : loc) (d : items)
    (pre post : list string) (k : string) :
  h !! dictionary = Some d ->
  (forall k', In k' pre -> dict_get k' d <> None) ->
  dict_get k d = None ->
  map_m (pre ++ k :: post)
        (fun key_ => v <- getitem dictionary key_ ;; ret (key_, v)) h =
    (h, inl (KeyError k)).
Proof.
  intros Hd Hpre Hk. induction pre as [|k' pre IH]; simpl.
  - unfold bind at 1. unfold bind at 1.
    by rewrite (getitem_absent dictionary k h d Hd Hk).
  - destruct (dict_get k' d) as [v|] eqn:Hk'.
    2:{ exfalso. apply (Hpre k'); [by left|done]. }
    unfold bind at 1. unfold bind at 1.
    rewrite (getitem_present dictionary k' h d v Hd Hk').
    unfold ret at 1. unfold bind at 1.
    rewrite IH; [done|]. intros k0 Hk0. apply Hpre. by right.
Qed.

(** [get_key_list(dictionary, key)], when [dictionary] has every key of the
    list: the result is a new dict object, [dictionary] and the other
    objects are as they were, and the new dict has under each key of the
    list the value [dictionary] has and nothing under any other key.  When
    the list names no key twice, the new dict holds the keys in the order of
    the list. *)
Theorem get_key_list_selects (h : store) (dictionary : loc) (d : items)
    (key : list string) :
  h !! dictionary = Some d ->
  (forall k, In k key -> dict_get k d <> None) ->
  exists result : items,
    get_key_list dictionary key h =
      (<[fresh (dom h) := result]> h, inr (VDict (fresh (dom h)))) /\
    (forall k, In k key -> dict_get k result = dict_get k d) /\
    (forall k, ~ In k key -> dict_get k result = None) /\
    (List.NoDup key ->
     Forall2 (fun k kv => fst kv = k /\ dict_get k d = Some (snd kv))
             key result).
Proof.
  intros Hd Hkey.
  set (pairs := map (fun k => (k, default VNone (dict_get k d))) key).
  assert (Hfst : map fst pairs = key).
  { unfold pairs. rewrite map_map. simpl. apply map_id. }
  exists (dict_of_pairs pairs). repeat apply conj.
  - unfold get_key_list. unfold bind at 1.
    rewrite (get_key_list_pairs h dictionary d key Hd Hkey). done.
  - intros k Hk. destruct (dict_get k d) as [v|] eqn:E;
      [|by destruct (Hkey k Hk)].
    apply dict_get_NoDup; [apply dict_of_pairs_NoDup|].
    destruct (dict_get k (dict_of_pairs pairs)) as [v'|] eqn:E'.
    + pose proof E' as Hin. apply dict_get_In in Hin.
      rewrite dict_of_pairs_get in E'. apply dict_get_In, in_rev in E'.
      unfold pairs in E'. apply in_map_iff in E' as (k0 & [= -> <-] & _).
      rewrite E in Hin. exact Hin.
    + apply dict_get_None in E'. rewrite dict_of_pairs_keys_In, Hfst in E'.
      tauto.
  - intros k Hk. apply dict_get_None.
    by rewrite dict_of_pairs_keys_In, Hfst.
  - intros Hnd. rewrite dict_of_pairs_distinct; [|by rewrite Hfst].
    unfold pairs. clear pairs Hfst Hnd.
    induction key as [|k key IH]; simpl; constructor.
    + simpl. split; [done|]. destruct (dict_get k d) eqn:E; [done|].
      destruct (Hkey k); [by left|done].
    + apply IH. intros k' Hk'. apply Hkey. by right.
Qed.

(** [get_key_list(dictionary, key)] raises [KeyError(k)] for the first key
    [k] of the list that [dictionary] lacks, whatever comes after [k] in the
    list, and no object is created or changed. *)
Theorem get_key_list_missing_key (h : store) (dictionary : loc) (d : items)
    (pre post : list string) (k : string) :
  h !! dictionary = Some d ->
  (forall k', In k' pre -> dict_get k' d <> None) ->
  dict_get k d = None ->
  get_key_list dictionary (pre ++ k :: post) h = (h, inl (KeyError k)).
Proof.
  intros Hd Hpre Hk. unfold get_key_list. unfold bind at 1.
  by rewrite (get_key_list_pairs_missing h dictionary d pre post k Hd Hpre Hk).
Qed.

(** Asked for all the keys of [dictionary], [get_key_list] makes a shallow
    copy: a new dict object with the items of [dictionary], in their order;
    the values are shared, not copied. *)
Theorem get_key_list_all_keys (h : store) (dictionary : loc) (d : items) :
  h !! dictionary = Some d ->
  List.NoDup (map fst d) ->
  get_key_list dictionary (map fst d) h =
    (<[fresh (dom h) := d]> h, inr (VDict (fresh (dom h)))).
Proof.
  intros Hd Hnd. unfold get_key_list. unfold bind at 1.
  rewrite (get_key_list_pairs h dictionary d (map fst d) Hd).
  2:{ intros k Hk E. by apply dict_get_None in E. }
  assert (Hpairs : map (fun k => (k, default VNone (dict_get k d))) (map fst d)
                   = d).
  { rewrite map_map. rewrite <- (map_id d) at 2. apply map_ext_in.
    intros [k v] Hin. simpl. by rewrite (dict_get_NoDup k v d Hnd Hin). }
  rewrite Hpairs, (dict_of_pairs_distinct d Hnd). done.
Qed.

(** The comprehension of [get_key_dict], when the new names are strings and
    [dictionary] has the old ones. *)
Lemma get_key_dict_pairs (h : store) (dictionary : loc) (d renames : items) :
  h !! dictionary = Some d ->
  Forall (fun kv => (exists key_out, snd kv = VStr key_out) /\
                    dict_get (fst kv) d <> None) renames ->
  exists pairs : items,
    map_m renames (fun kv =>
        match snd kv with
        | VStr key_out => v <- getitem dictionary (fst kv) ;; ret (key_out, v)
        | _ => raise TypeError
        end) h = (h, inr pairs) /\
    Forall2 (fun kv r => snd kv = VStr (fst r) /\
                         dict_get (fst kv) d = Some (snd r)) renames pairs.
Proof.
  intros Hd. induction renames as [|[k_in v_out] renames IH]; intros Hall.
  - exists []. split; [done|constructor].
  - apply Forall_cons in Hall as [[[key_out Hout] Hin] Hall].
    simpl in Hout, Hin. subst v_out.
    destruct (IH Hall) as (pairs & Hrun & Hpairs).
    destruct (dict_get k_in d) as [v|] eqn:Hv; [|done].
    exists ((key_out, v) :: pairs). split.
    + simpl. unfold bind at 1. unfold bind at 1.
      rewrite (getitem_present dictionary k_in h d v Hd Hv).
      unfold ret at 1. unfold bind at 1.
      by rewrite Hrun.
    + constructor; [by split|exact Hpairs].
Qed.

(** [get_key_dict(dictionary, key)], when the dict [key] maps keys of
    [dictionary] to new names that are strings, no two of them equal: the
    result is a new dict object that holds, in the order of [key], each new
    name with the value [dictionary] has under the old name; [dictionary],
    [key] and the other objects are as they were. *)
Theorem get_key_dict_renames (h : store) (dictionary key : loc)
    (d renames : items) :
  h !! dictionary = Some d ->
  h !! key = Some renames ->
  Forall (fun kv => (exists key_out, snd kv = VStr key_out) /\
                    dict_get (fst kv) d <> None) renames ->
  List.NoDup (map snd renames) ->
  exists result : items,
    get_key_dict dictionary key h =
      (<[fresh (dom h) := result]> h, inr (VDict (fresh (dom h)))) /\
    Forall2 (fun kv r => snd kv = VStr (fst r) /\
                         dict_get (fst kv) d = Some (snd r)) renames result.
Proof.
  intros Hd Hkey Hall Hnd.
  destruct (get_key_dict_pairs h dictionary d renames Hd Hall)
    as (pairs & Hrun & Hpairs).
  exists pairs. split; [|exact Hpairs].
  unfold get_key_dict. unfold bind at 1. unfold read at 1. rewrite Hkey.
  unfold bind at 1. rewrite Hrun.
  rewrite dict_of_pairs_distinct; [done|].
  assert (Hsnd : map snd renames = map (fun r => VStr (fst r)) pairs).
  { clear -Hpairs. induction Hpairs as [|kv r renames pairs [H _] _ IH];
      simpl; [done|]. by rewrite H, IH. }
  rewrite Hsnd, <- (map_map fst VStr) in Hnd.
  by apply NoDup_map_inv in Hnd.
Qed.

Lemma get_key_list_selects_witness :
  configs !! 4%positive = Some [("opt", VDict 5%positive); ("seed", VInt 7)] /\
  exists result : items,
    get_key_list 4%positive ["seed"] configs =
      (<[fresh (dom configs) := result]> configs,
       inr (VDict (fresh (dom configs)))) /\
    (forall k, In k ["seed"] ->
       dict_get k result =
       dict_get k [("opt", VDict 5%positive); ("seed", VInt 7)]) /\
    (forall k, ~ In k ["seed"] -> dict_get k result = None) /\
    (List.NoDup ["seed"] ->
     Forall2 (fun k kv =>
                fst kv = k /\
                dict_get k [("opt", VDict 5%positive); ("seed", VInt 7)] =
                  Some (snd kv))
             ["seed"] result).
Proof.
  split; [reflexivity|].
  apply (get_key_list_selects configs 4%positive
           [("opt", VDict 5%positive); ("seed", VInt 7)] ["seed"]).
  - reflexivity.
  - intros k [<-|[]]. simpl. discriminate.
Defined.

Lemma get_key_list_missing_key_witness :
  get_key_list 4%positive (["seed"] ++ "lr" :: ["opt"]) configs =
    (configs, inl (KeyError "lr")).
Proof.
  apply (get_key_list_missing_key configs 4%positive
           [("opt", VDict 5%positive); ("seed", VInt 7)] ["seed"] ["opt"] "lr").
  - reflexivity.
  - intros k [<-|[]]. simpl. discriminate.
  - reflexivity.
Defined.

Lemma get_key_list_all_keys_witness :
  get_key_list 4%positive
     (map fst [("opt", VDict 5%positive); ("seed", VInt 7)]) configs =
    (<[fresh (dom configs) := [("opt", VDict 5%positive); ("seed", VInt 7)]]>
       configs,
     inr (VDict (fresh (dom configs)))).
Proof.
  apply (get_key_list_all_keys configs 4%positive
           [("opt", VDict 5%positive); ("seed", VInt 7)]).
  - reflexivity.
  - repeat constructor; simpl; intuition discriminate.
Defined.

(** [dictionary] is the dict at 4 of [configs]; [key] is
    [{"seed": "random_state"}], at 6. *)
Lemma get_key_dict_renames_witness :
  exists result : items,
    get_key_dict 4%positive 6%positive
      (<[6%positive := [("seed", VStr "random_state")]]> configs) =
      (<[fresh (dom (<[6%positive := [("seed", VStr "random_state")]]> configs))
           := result]>
         (<[6%positive := [("seed", VStr "random_state")]]> configs),
       inr (VDict (fresh (dom (<[6%positive :=
                                   [("seed", VStr "random_state")]]> configs))))) /\
    Forall2 (fun kv r =>
               snd kv = VStr (fst r) /\
               dict_get (fst kv) [("opt", VDict 5%positive); ("seed", VInt 7)] =
                 Some (snd r))
            [("seed", VStr "random_state")] result.
Proof.
  apply (get_key_dict_renames
           (<[6%positive := [("seed", VStr "random_state")]]> configs)
           4%positive 6%positive
           [("opt", VDict 5%positive); ("seed", VInt 7)]
           [("seed", VStr "random_state")]).
  - reflexivity.
  - reflexivity.
  - repeat constructor; simpl; [by eexists|discriminate].
  - repeat constructor. simpl. tauto.
Defined.

(** *** [split_dict_to_subdicts] *)

Lemma dict_of_pairs_nil (pairs : items) :
  dict_of_pairs pairs = [] <-> pairs = [].
Proof.
  split; [|by intros ->].
  destruct pairs as [|[k v] pairs]; [done|]. intros H.
  assert (Hin : In k (map fst (dict_of_pairs ((k, v) :: pairs))))
    by (apply dict_of_pairs_keys_In; by left).
  rewrite H in Hin. contradiction.
Qed.

(** The loop of [split_dict_to_subdicts] over the prefixes [todo], from a
    store where [subdicts] has the items [ec]: it ends without an exception,
    every prefix of [todo] has got its dict, a new object, and the other items
    of [subdicts] and the other objects are as before. *)
Lemma split_dict_to_subdicts_loop (dct subdicts : loc) (d : items) :
  subdicts <> dct ->
  forall (todo : list string) (hc : store) (ec : items),
    hc !! subdicts = Some ec ->
    hc !! dct = Some d ->
    exists (h' : store) (e' : items),
      for_each todo (fun prefix =>
        d <- read dct ;;
        sub <- new_dict
          (dict_of_pairs
             (map (fun kv => (replace (prefix +:+ "_") "" (fst kv), snd kv))
                  (filter (fun kv => startswith (fst kv) prefix) d))) ;;
        setitem subdicts prefix (VDict sub)) hc = (h', inr tt) /\
      h' !! subdicts = Some e' /\
      (forall l x, l <> subdicts -> hc !! l = Some x -> h' !! l = Some x) /\
      (forall l, hc !! l <> None -> h' !! l <> None) /\
      (forall prefix, In prefix todo ->
         exists sub,
           dict_get prefix e' = Some (VDict sub) /\
           hc !! sub = None /\
           h' !! sub = Some
             (dict_of_pairs
                (map (fun kv => (replace (prefix +:+ "_") "" (fst kv), snd kv))
                     (filter (fun kv => startswith (fst kv) prefix) d)))) /\
      (forall k, ~ In k todo -> dict_get k e' = dict_get k ec).
Proof.
  intros Hne todo. induction todo as [|p todo IH]; intros hc ec Hs Hd.
  - exists hc, ec. simpl. unfold ret. repeat apply conj; auto. tauto.
  - set (sub0 := fresh (dom hc)).
    set (items0 := dict_of_pairs
           (map (fun kv => (replace (p +:+ "_") "" (fst kv), snd kv))
                (filter (fun kv => startswith (fst kv) p) d))).
    assert (Hsub0 : hc !! sub0 = None)
      by (apply not_elem_of_dom, is_fresh).
    assert (Hsub0s : sub0 <> subdicts) by congruence.
    assert (Hsub0d : sub0 <> dct) by congruence.
    set (h1 := <[subdicts := dict_set p (VDict sub0) ec]> (<[sub0 := items0]> hc)).
    destruct (IH h1 (dict_set p (VDict sub0) ec))
      as (h' & e' & Hrun & Hs' & Hkeep & Hdom & Hsubs & Hrest).
    { unfold h1. by rewrite lookup_insert_eq. }
    { unfold h1. by rewrite lookup_insert_ne, lookup_insert_ne. }
    assert (Hstep : forall l x, l <> subdicts -> hc !! l = Some x ->
                                h1 !! l = Some x).
    { intros l x Hl Hx. unfold h1. rewrite lookup_insert_ne by done.
      rewrite lookup_insert_ne; [done|congruence]. }
    exists h', e'. repeat apply conj.
    + simpl. unfold bind at 1. unfold bind at 1. unfold read at 1.
      rewrite Hd. unfold bind at 1. unfold new_dict at 1.
      unfold setitem at 1. rewrite lookup_insert_ne by done. rewrite Hs.
      exact Hrun.
    + exact Hs'.
    + intros l x Hl Hx. apply Hkeep; [done|]. by apply Hstep.
    + intros l Hl. apply Hdom. unfold h1.
      destruct (decide (l = subdicts)) as [->|Hl1];
        [by rewrite lookup_insert_eq|].
      rewrite lookup_insert_ne by done.
      destruct (decide (l = sub0)) as [->|Hl2];
        [by rewrite lookup_insert_eq|].
      by rewrite lookup_insert_ne.
    + intros prefix Hin.
      destruct (in_dec string_dec prefix todo) as [Hin'|Hout].
      * destruct (Hsubs prefix Hin') as (sub & Hget & Hnew & Hsub).
        exists sub. repeat apply conj; [done| |done].
        destruct (hc !! sub) as [x|] eqn:Hx; [|done].
        destruct (decide (sub = subdicts)) as [->|Hl1].
        { unfold h1 in Hnew. by rewrite lookup_insert_eq in Hnew. }
        by rewrite (Hstep sub x Hl1 Hx) in Hnew.
      * destruct Hin as [<-|Hin]; [|contradiction].
        exists sub0. repeat apply conj; [|done|].
        -- rewrite (Hrest p Hout), dict_get_dict_set.
           by rewrite String.eqb_refl.
        -- apply Hkeep; [done|]. unfold h1.
           rewrite lookup_insert_ne by done. by rewrite lookup_insert_eq.
    + intros k Hk. rewrite Hrest by (simpl in Hk; tauto).
      rewrite dict_get_dict_set.
      destruct (String.eqb k p) eqn:E; [|done].
      apply String.eqb_eq in E. subst k. simpl in Hk. tauto.
Qed.

(** A run of [split_dict_to_subdicts] on a dict [dct] of the store: it ends
    without an exception and returns a new dict [subdicts], whose items
    [entries] are described key by key. *)
Lemma split_dict_to_subdicts_run (h : store) (dct : loc) (d : items)
    (prefixes : list string) (extra_key : string) :
  h !! dct = Some d ->
  exists (h' : store) (entries : items),
    split_dict_to_subdicts dct prefixes extra_key h =
      (h', inr (VDict (fresh (dom h)))) /\
    h' !! fresh (dom h) = Some entries /\
    (forall prefix, In prefix prefixes ->
       exists sub,
         dict_get prefix entries = Some (VDict sub) /\
         h !! sub = None /\
         h' !! sub = Some
           (dict_of_pairs
              (map (fun kv => (replace (prefix +:+ "_") "" (fst kv), snd kv))
                   (filter (fun kv => startswith (fst kv) prefix) d)))) /\
    (~ In extra_key prefixes ->
     match filter (fun kv => forallb (fun prefix =>
                                negb (startswith (fst kv) prefix)) prefixes) d
     with
     | [] => dict_get extra_key entries = None
     | kv :: rest =>
         exists extra,
           dict_get extra_key entries = Some (VDict extra) /\
           h !! extra = None /\
           h' !! extra = Some (dict_of_pairs (kv :: rest))
     end) /\
    (forall k, In k (map fst entries) -> k = extra_key \/ In k prefixes).
Proof.
  intros Hd.
  set (s := fresh (dom h)).
  assert (Hs : h !! s = None) by (apply not_elem_of_dom, is_fresh).
  assert (Hsd : s <> dct) by congruence.
  set (h1 := <[s := []]> h).
  set (x := fresh (dom h1)).
  assert (Hx1 : h1 !! x = None) by (apply not_elem_of_dom, is_fresh).
  assert (Hxs : x <> s).
  { intros E. rewrite E in Hx1. unfold h1 in Hx1.
    by rewrite lookup_insert_eq in Hx1. }
  assert (Hx : h !! x = None).
  { unfold h1 in Hx1. by rewrite lookup_insert_ne in Hx1. }
  assert (Hxd : x <> dct) by congruence.
  remember (filter (fun kv => forallb (fun prefix =>
                      negb (startswith (fst kv) prefix)) prefixes) d)
    as unmatched eqn:Hunmatched.
  set (h2 := <[x := dict_of_pairs unmatched]> h1).
  set (ec := if (0 <? length (dict_of_pairs unmatched))%nat
             then [(extra_key, VDict x)] else []).
  set (h3 := if (0 <? length (dict_of_pairs unmatched))%nat
             then <[s := [(extra_key, VDict x)]]> h2 else h2).
  assert (H3s : h3 !! s = Some ec).
  { unfold h3, ec. destruct (0 <? length (dict_of_pairs unmatched))%nat.
    - by rewrite lookup_insert_eq.
    - unfold h2, h1. rewrite lookup_insert_ne by done.
      by rewrite lookup_insert_eq. }
  assert (H3 : forall l, l <> s -> h3 !! l = h2 !! l).
  { intros l Hl. unfold h3.
    destruct (0 <? length (dict_of_pairs unmatched))%nat; [|done].
    by rewrite lookup_insert_ne. }
  assert (H3d : h3 !! dct = Some d).
  { rewrite H3 by done. unfold h2, h1.
    rewrite lookup_insert_ne by done. by rewrite lookup_insert_ne. }
  assert (H3x : h3 !! x = Some (dict_of_pairs unmatched)).
  { rewrite H3 by done. unfold h2. by rewrite lookup_insert_eq. }
  destruct (split_dict_to_subdicts_loop dct s d Hsd prefixes h3 ec H3s H3d)
    as (h' & e' & Hrun & Hs' & Hkeep & Hdom & Hsubs & Hrest).
  exists h', e'. repeat apply conj.
  - unfold split_dict_to_subdicts.
    unfold bind at 1. unfold new_dict at 1. fold s. fold h1.
    unfold bind at 1. unfold read at 1.
    replace (h1 !! dct) with (Some d)
      by (unfold h1; by rewrite lookup_insert_ne).
    unfold bind at 1. unfold new_dict at 1. fold x. rewrite <- Hunmatched.
    fold h2.
    unfold bind at 1. unfold read at 1.
    replace (h2 !! x) with (Some (dict_of_pairs unmatched))
      by (unfold h2; by rewrite lookup_insert_eq).
    unfold bind at 1.
    assert (Hif : (if (0 <? length (dict_of_pairs unmatched))%nat
                   then setitem s extra_key (VDict x) else ret tt) h2 =
                  (h3, inr tt)).
    { unfold h3. destruct (0 <? length (dict_of_pairs unmatched))%nat; [|done].
      unfold setitem. unfold h2 at 1. rewrite lookup_insert_ne by done.
      unfold h1 at 1. by rewrite lookup_insert_eq. }
    rewrite Hif. unfold bind at 1. by rewrite Hrun.
  - exact Hs'.
  - intros prefix Hin.
    destruct (Hsubs prefix Hin) as (sub & Hget & Hnew & Hsub).
    exists sub. repeat apply conj; [done| |done].
    destruct (h !! sub) as [y|] eqn:Hy; [|done].
    exfalso.
    assert (Hsubs0 : sub <> s) by congruence.
    assert (Hsubx : sub <> x) by congruence.
    rewrite H3 in Hnew by done. unfold h2, h1 in Hnew.
    rewrite lookup_insert_ne in Hnew by done.
    rewrite lookup_insert_ne in Hnew by done. congruence.
  - intros Hout. rewrite (Hrest extra_key Hout).
    assert (Hx' : h' !! x = Some (dict_of_pairs unmatched))
      by (by apply Hkeep).
    assert (Hec : dict_get extra_key ec =
                  match unmatched with
                  | [] => None
                  | _ :: _ => Some (VDict x)
                  end).
    { unfold ec. pose proof (dict_of_pairs_nil unmatched) as [Hnil _].
      clear -Hnil. destruct unmatched as [|kv rest]; [done|].
      destruct (dict_of_pairs (kv :: rest)); [by specialize (Hnil eq_refl)|].
      simpl. by rewrite String.eqb_refl. }
    rewrite Hec. clear -Hx Hx'.
    destruct unmatched as [|kv rest]; [done|]. by exists x.
  - intros k Hk.
    destruct (in_dec string_dec k prefixes) as [Hin|Hout]; [by right|].
    left. assert (Hget : dict_get k e' <> None).
    { intros E. by apply dict_get_None in E. }
    rewrite (Hrest k Hout) in Hget. unfold ec in Hget.
    destruct (0 <? length (dict_of_pairs unmatched))%nat; simpl in Hget;
      [|done].
    destruct (String.eqb k extra_key) eqn:E; [|done].
    by apply String.eqb_eq in E.
Qed.

(** [split_dict_to_subdicts(dct, prefixes, extra_key)] never raises.  It
    returns a new dict which has, under every prefix of [prefixes], a new
    dict made of the items of [dct] whose key starts with the prefix, each
    under its key with every occurrence of the prefix followed by ["_"]
    removed (where two keys become equal the later item wins); this holds
    for a prefix equal to [extra_key] too. *)
Theorem split_dict_to_subdicts_prefixes (h : store) (dct : loc) (d : items)
    (prefixes : list string) (extra_key : string) :
  h !! dct = Some d ->
  exists (h' : store) (entries : items),
    split_dict_to_subdicts dct prefixes extra_key h =
      (h', inr (VDict (fresh (dom h)))) /\
    h' !! fresh (dom h) = Some entries /\
    forall prefix, In prefix prefixes ->
      exists sub,
        dict_get prefix entries = Some (VDict sub) /\
        h !! sub = None /\
        h' !! sub = Some
          (dict_of_pairs
             (map (fun kv => (replace (prefix +:+ "_") "" (fst kv), snd kv))
                  (filter (fun kv => startswith (fst kv) prefix) d))).
Proof.
  intros Hd.
  destruct (split_dict_to_subdicts_run h dct d prefixes extra_key Hd)
    as (h' & entries & Hrun & Hs & Hsubs & _ & _).
  by exists h', entries.
Qed.


Lemma split_dict_to_subdicts_prefixes_witness :
  exists (h' : store) (entries : items),
    split_dict_to_subdicts 1%positive ["train"; "valid"] "_base" metrics =
      (h', inr (VDict (fresh (dom metrics)))) /\
    h' !! fresh (dom metrics) = Some entries /\
    forall prefix, In prefix ["train"; "valid"] ->
      exists sub,
        dict_get prefix entries = Some (VDict sub) /\
        metrics !! sub = None /\
        h' !! sub = Some
          (dict_of_pairs
             (map (fun kv => (replace (prefix +:+ "_") "" (fst kv), snd kv))
                  (filter (fun kv => startswith (fst kv) prefix)
                          [("train_loss", VInt 1); ("valid_loss", VInt 2);
                           ("lr", VInt 3)]))).
Proof.
  apply (split_dict_to_subdicts_prefixes metrics 1%positive
           [("train_loss", VInt 1); ("valid_loss", VInt 2); ("lr", VInt 3)]
           ["train"; "valid"] "_base").
  reflexivity.
Defined.


(** [split_dict_to_subdicts(metrics, ["train", "valid"], "_base")] is
    [{"_base": {"lr": 3}, "train": {"loss": 1}, "valid": {"loss": 2}}]. *)
Example split_metrics :
  exists h' subdicts,
    split_dict_to_subdicts 1%positive ["train"; "valid"] "_base" metrics =
      (h', inr (VDict subdicts)) /\
    content 2 h' (VDict subdicts) =
      Some (DDict [("_base", DDict [("lr", DInt 3)]);
                   ("train", DDict [("loss", DInt 1)]);
                   ("valid", DDict [("loss", DInt 2)])]).
Proof. eexists _, _. split; vm_compute; reflexivity. Qed.

(** *** [flatten_dict] *)

Lemma append_String (x : Ascii.ascii) (a b : string) :
  String x a +:+ b = String x (a +:+ b).
Proof. reflexivity. Qed.

Lemma append_assoc (a b c : string) : (a +:+ b) +:+ c = a +:+ (b +:+ c).
Proof.
  induction a as [|x a IH]; [reflexivity|].
  by rewrite !append_String, IH.
Qed.

Lemma prefix_append (a b : string) : String.prefix a (a +:+ b) = true.
Proof.
  induction a as [|x a IH].
  - change (EmptyString +:+ b) with b. by destruct b.
  - rewrite append_String. simpl. by destruct (Ascii.ascii_dec x x).
Qed.

Lemma prefix_trans (a b c : string) :
  String.prefix a b = true -> String.prefix b c = true ->
  String.prefix a c = true.
Proof.
  revert a b. induction c as [|z c IH]; intros [|x a] [|y b]; simpl; auto;
    try discriminate.
  destruct (Ascii.ascii_dec x y) as [->|]; [|discriminate].
  destruct (Ascii.ascii_dec y z) as [->|]; [|discriminate].
  apply IH.
Qed.

Lemma dict_of_pairs_In (kv : string * value) (pairs : items) :
  In kv (dict_of_pairs pairs) -> In kv pairs.
Proof.
  destruct kv as [k v]. intros Hin.
  apply (dict_get_NoDup k v _ (dict_of_pairs_NoDup pairs)) in Hin.
  rewrite dict_of_pairs_get in Hin. apply dict_get_In in Hin.
  by apply in_rev.
Qed.

(** One unfolding of [flatten_dict], with [new_key] by its name. *)
Lemma flatten_dict_S (fuel : nat) (dictionary : loc)
    (parent_key separator : string) :
  flatten_dict (S fuel) dictionary parent_key separator =
  (d <- read dictionary ;;
   items <- fold_m d [] (fun items kv =>
     match snd kv with
     | VDict sub =>
         r <- flatten_dict fuel sub (new_key parent_key separator (fst kv))
                           separator ;;
         sub_items <- read r ;;
         ret (items ++ sub_items)
     | _ => ret (items ++ [(new_key parent_key separator (fst kv), snd kv)])
     end) ;;
   new_dict (dict_of_pairs items)).
Proof. reflexivity. Qed.

Lemma flat_item_below (parent_key separator key : string)
    (kv : string * value) :
  flat_item (new_key parent_key separator key) separator kv ->
  flat_item parent_key separator kv.
Proof.
  intros [Hv Hk]. split; [exact Hv|]. intros Hp.
  destruct parent_key as [|c p]; [done|].
  apply (prefix_trans _ (new_key (String c p) separator key +:+ separator)).
  - unfold new_key. rewrite <- append_assoc, append_assoc.
    apply prefix_append.
  - apply Hk. unfold new_key. by rewrite append_String.
Qed.

Lemma flat_item_leaf (parent_key separator key : string) (v : value) :
  isinstance_dict v = false ->
  flat_item parent_key separator (new_key parent_key separator key, v).
Proof.
  intros Hv. split; [exact Hv|]. simpl. intros Hp.
  destruct parent_key as [|c p]; [done|].
  unfold new_key. rewrite <- append_assoc. apply prefix_append.
Qed.

Lemma flatten_dict_run (n : nat) :
  forall (fuel : nat) (h : store) (dictionary : loc)
         (parent_key separator : string),
    (n <= fuel)%nat ->
    nested n h (VDict dictionary) ->
    exists (h' : store) (r : loc) (result : items),
      flatten_dict fuel dictionary parent_key separator h = (h', inr r) /\
      unchanged h h' /\
      h !! r = None /\
      h' !! r = Some result /\
      List.NoDup (map fst result) /\
      Forall (flat_item parent_key separator) result.
Proof.
  induction n as [|n IH];
    intros fuel h dictionary parent_key separator Hfuel Hnested;
    [contradiction|].
  destruct fuel as [|fuel]; [lia|].
  destruct Hnested as (d & Hd & Hall).
  assert (Hloop : forall (todo : items) (hc : store) (acc : items),
    Forall (fun kv => nested n hc (snd kv)) todo ->
    Forall (flat_item parent_key separator) acc ->
    exists (hc' : store) (pairs : items),
      fold_m todo acc (fun items kv =>
         match snd kv with
         | VDict sub =>
             r <- flatten_dict fuel sub (new_key parent_key separator (fst kv))
                               separator ;;
             sub_items <- read r ;;
             ret (items ++ sub_items)
         | _ => ret (items ++ [(new_key parent_key separator (fst kv), snd kv)])
         end) hc = (hc', inr pairs) /\
      unchanged hc hc' /\
      Forall (flat_item parent_key separator) pairs).
  { induction todo as [|[k v] todo IHtodo]; intros hc acc Htodo Hacc.
    - exists hc, acc. repeat apply conj; [done|apply unchanged_refl|done].
    - apply Forall_cons in Htodo as [Hv Htodo]. simpl in Hv.
      destruct (isinstance_dict v) eqn:Hisdict.
      + destruct v as [| | | |sub]; try discriminate Hisdict.
        destruct (IH fuel hc sub (new_key parent_key separator k) separator)
          as (h1 & r & res & Hrun & Hu1 & Hnew & Hr & _ & Hres);
          [lia|exact Hv|].
        destruct (IHtodo h1 (acc ++ res))
          as (h2 & pairs & Hrun2 & Hu2 & Hpairs).
        { eapply Forall_impl; [exact Htodo|].
          intros kv. by apply nested_unchanged. }
        { apply Forall_app. split; [done|].
          eapply Forall_impl; [exact Hres|]. intros kv.
          apply flat_item_below. }
        exists h2, pairs. repeat apply conj.
        * simpl. unfold bind at 1. unfold bind at 1. rewrite Hrun.
          unfold bind at 1. unfold read at 1. rewrite Hr.
          unfold ret at 1. exact Hrun2.
        * exact (unchanged_trans _ _ _ Hu1 Hu2).
        * exact Hpairs.
      + destruct (IHtodo hc (acc ++ [(new_key parent_key separator k, v)]))
          as (h2 & pairs & Hrun2 & Hu2 & Hpairs); [done| |].
        { apply Forall_app. split; [done|]. constructor; [|constructor].
          by apply flat_item_leaf. }
        exists h2, pairs. repeat apply conj; [|done|done].
        destruct v as [| | | |sub]; try discriminate Hisdict;
          simpl; unfold bind at 1, ret at 1; exact Hrun2. }
  destruct (Hloop d h []) as (h1 & pairs & Hrun & Hu & Hpairs);
    [exact Hall|constructor|].
  exists (<[fresh (dom h1) := dict_of_pairs pairs]> h1), (fresh (dom h1)),
         (dict_of_pairs pairs).
  repeat apply conj.
  - rewrite flatten_dict_S. unfold bind at 1. unfold read at 1. rewrite Hd.
    unfold bind at 1. by rewrite Hrun.
  - exact (unchanged_trans _ _ _ Hu (unchanged_alloc h1 _)).
  - destruct (h !! fresh (dom h1)) as [x|] eqn:Hx; [|done].
    exfalso. apply (is_fresh (dom h1)), elem_of_dom. exists x. by apply Hu.
  - by rewrite lookup_insert_eq.
  - apply dict_of_pairs_NoDup.
  - apply List.Forall_forall. intros kv Hin.
    apply dict_of_pairs_In in Hin.
    by apply (proj1 (List.Forall_forall _ _) Hpairs).
Qed.

(** On a dict without dicts among its values the loop of [flatten_dict]
    files every item under its new key, and makes no object. *)
Lemma flatten_dict_leaves (fuel : nat) (parent_key separator : string)
    (h : store) :
  forall (d acc : items),
    Forall (fun kv => isinstance_dict (snd kv) = false) d ->
    fold_m d acc (fun items kv =>
         match snd kv with
         | VDict sub =>
             r <- flatten_dict fuel sub (new_key parent_key separator (fst kv))
                               separator ;;
             sub_items <- read r ;;
             ret (items ++ sub_items)
         | _ => ret (items ++ [(new_key parent_key separator (fst kv), snd kv)])
         end) h =
      (h, inr (acc ++ map (fun kv => (new_key parent_key separator (fst kv),
                                      snd kv)) d)).
Proof.
  induction d as [|[k v] d IH]; intros acc Hd; simpl.
  - unfold ret. by rewrite app_nil_r.
  - apply Forall_cons in Hd as [Hv Hd]. simpl in Hv.
    destruct v as [| | | |sub]; try discriminate Hv;
      unfold bind at 1, ret at 1; rewrite (IH _ Hd), <- app_assoc; done.
Qed.

Lemma new_key_NoDup (parent_key separator : string) (d : items) :
  List.NoDup (map fst d) ->
  List.NoDup (map fst (map (fun kv => (new_key parent_key separator (fst kv),
                                       snd kv)) d)).
Proof.
  intros Hnd. rewrite map_map. simpl.
  rewrite <- (map_map fst (fun key => new_key parent_key separator key)).
  apply Finite.Injective_map_NoDup; [|exact Hnd].
  intros a b Hab. destruct parent_key as [|c p]; [done|].
  unfold new_key in Hab.
  apply String.app_inj in Hab. by apply String.app_inj in Hab.
Qed.

(** [flatten_dict] of a dict nested at most [n] deep ends without an
    exception (the recursion is [n] deep), and its result is flat: a new
    object, with no dict among its values and no key twice; the objects that
    existed are as they were. *)
Theorem flatten_dict_is_flat (n fuel : nat) (h : store) (dictionary : loc)
    (parent_key separator : string) :
  (n <= fuel)%nat ->
  nested n h (VDict dictionary) ->
  exists (h' : store) (r : loc) (result : items),
    flatten_dict fuel dictionary parent_key separator h = (h', inr r) /\
    unchanged h h' /\
    h !! r = None /\
    h' !! r = Some result /\
    List.NoDup (map fst result) /\
    Forall (fun kv => isinstance_dict (snd kv) = false) result.
Proof.
  intros Hfuel Hnested.
  destruct (flatten_dict_run n fuel h dictionary parent_key separator
              Hfuel Hnested)
    as (h' & r & result & Hrun & Hu & Hnew & Hr & Hnd & Hflat).
  exists h', r, result. repeat apply conj; auto.
  eapply Forall_impl; [exact Hflat|]. by intros kv [Hv _].
Qed.

(** With a [parent_key] that is not empty, every key of the result of
    [flatten_dict] starts with [parent_key] followed by the separator. *)
Theorem flatten_dict_keys_below_parent (n fuel : nat) (h : store)
    (dictionary : loc) (parent_key separator : string) :
  (n <= fuel)%nat ->
  nested n h (VDict dictionary) ->
  parent_key <> EmptyString ->
  exists (h' : store) (r : loc) (result : items),
    flatten_dict fuel dictionary parent_key separator h = (h', inr r) /\
    h' !! r = Some result /\
    Forall (fun kv => String.prefix (parent_key +:+ separator) (fst kv) = true)
           result.
Proof.
  intros Hfuel Hnested Hparent.
  destruct (flatten_dict_run n fuel h dictionary parent_key separator
              Hfuel Hnested)
    as (h' & r & result & Hrun & Hu & Hnew & Hr & Hnd & Hflat).
  exists h', r, result. repeat apply conj; auto.
  eapply Forall_impl; [exact Hflat|]. intros kv [_ Hk]. by apply Hk.
Qed.

(** On a dict that is flat already (no dict among its values, no key twice)
    [flatten_dict] makes one new object, with the same values in the same
    order; each key is as it was when [parent_key] is empty, and has
    [parent_key] and the separator put before it otherwise. *)
Theorem flatten_dict_of_flat (fuel : nat) (h : store) (dictionary : loc)
    (d : items) (parent_key separator : string) :
  h !! dictionary = Some d ->
  List.NoDup (map fst d) ->
  Forall (fun kv => isinstance_dict (snd kv) = false) d ->
  flatten_dict (S fuel) dictionary parent_key separator h =
    (<[fresh (dom h) :=
         map (fun kv => (new_key parent_key separator (fst kv), snd kv)) d]> h,
     inr (fresh (dom h))).
Proof.
  intros Hd Hnd Hflat. rewrite flatten_dict_S.
  unfold bind at 1. unfold read at 1. rewrite Hd. unfold bind at 1.
  rewrite (flatten_dict_leaves fuel parent_key separator h d [] Hflat).
  simpl. unfold new_dict.
  by rewrite (dict_of_pairs_distinct _
                (new_key_NoDup parent_key separator d Hnd)).
Qed.

(** Flattening twice is flattening once: [flatten_dict], with no
    [parent_key], of a result of [flatten_dict] makes a new object with the
    very items of that result. *)
Theorem flatten_dict_twice (n fuel fuel' : nat) (h : store) (dictionary : loc)
    (parent_key separator separator' : string) :
  (n <= fuel)%nat ->
  nested n h (VDict dictionary) ->
  exists (h' : store) (r : loc) (result : items),
    flatten_dict fuel dictionary parent_key separator h = (h', inr r) /\
    h' !! r = Some result /\
    flatten_dict (S fuel') r EmptyString separator' h' =
      (<[fresh (dom h') := result]> h', inr (fresh (dom h'))).
Proof.
  intros Hfuel Hnested.
  destruct (flatten_dict_run n fuel h dictionary parent_key separator
              Hfuel Hnested)
    as (h' & r & result & Hrun & Hu & Hnew & Hr & Hnd & Hflat).
  exists h', r, result. repeat apply conj; auto.
  rewrite flatten_dict_S.
  unfold bind at 1. unfold read at 1. rewrite Hr. unfold bind at 1.
  rewrite (flatten_dict_leaves fuel' EmptyString separator' h' result []).
  2:{ eapply Forall_impl; [exact Hflat|]. by intros kv [Hv _]. }
  rewrite app_nil_l. unfold new_dict.
  assert (Hid : map (fun kv : string * value =>
                       (new_key EmptyString separator' (fst kv), snd kv)) result
                = result).
  { rewrite <- (map_id result) at 2. apply map_ext. by intros [k v]. }
  by rewrite Hid, (dict_of_pairs_distinct _ Hnd).
Qed.

Lemma flatten_dict_is_flat_witness :
  nested 2 configs (VDict 1%positive) /\
  exists (h' : store) (r : loc) (result : items),
    flatten_dict 3 1%positive "" "/" configs = (h', inr r) /\
    unchanged configs h' /\
    configs !! r = None /\
    h' !! r = Some result /\
    List.NoDup (map fst result) /\
    Forall (fun kv => isinstance_dict (snd kv) = false) result.
Proof.
  assert (Hn : nested 2 configs (VDict 1%positive)).
  { simpl. eexists. split; [reflexivity|]. repeat constructor.
    simpl. eexists. split; [reflexivity|]. repeat constructor. }
  split; [exact Hn|].
  apply (flatten_dict_is_flat 2 3 configs 1%positive "" "/"); [lia|exact Hn].
Defined.

Lemma flatten_dict_keys_below_parent_witness :
  nested 2 configs (VDict 1%positive) /\
  exists (h' : store) (r : loc) (result : items),
    flatten_dict 3 1%positive "cfg" "/" configs = (h', inr r) /\
    h' !! r = Some result /\
    Forall (fun kv => String.prefix ("cfg" +:+ "/") (fst kv) = true) result.
Proof.
  assert (Hn : nested 2 configs (VDict 1%positive)).
  { simpl. eexists. split; [reflexivity|]. repeat constructor.
    simpl. eexists. split; [reflexivity|]. repeat constructor. }
  split; [exact Hn|].
  apply (flatten_dict_keys_below_parent 2 3 configs 1%positive "cfg" "/");
    [lia|exact Hn|discriminate].
Defined.

Lemma flatten_dict_of_flat_witness :
  flatten_dict 1 1%positive "metrics" "/" metrics =
    (<[fresh (dom metrics) :=
         map (fun kv => (new_key "metrics" "/" (fst kv), snd kv))
             [("train_loss", VInt 1); ("valid_loss", VInt 2); ("lr", VInt 3)]]>
       metrics,
     inr (fresh (dom metrics))).
Proof.
  apply (flatten_dict_of_flat 0 metrics 1%positive
           [("train_loss", VInt 1); ("valid_loss", VInt 2); ("lr", VInt 3)]
           "metrics" "/").
  - reflexivity.
  - repeat constructor; simpl; intuition discriminate.
  - repeat constructor.
Defined.

Lemma flatten_dict_twice_witness :
  nested 2 configs (VDict 1%positive) /\
  exists (h' : store) (r : loc) (result : items),
    flatten_dict 3 1%positive "" "/" configs = (h', inr r) /\
    h' !! r = Some result /\
    flatten_dict 1 r "" "." h' =
      (<[fresh (dom h') := result]> h', inr (fresh (dom h'))).
Proof.
  assert (Hn : nested 2 configs (VDict 1%positive)).
  { simpl. eexists. split; [reflexivity|]. repeat constructor.
    simpl. eexists. split; [reflexivity|]. repeat constructor. }
  split; [exact Hn|].
  apply (flatten_dict_twice 2 3 0 configs 1%positive "" "/" "."); [lia|exact Hn].
Defined.

(** *** [merge_dicts] *)

Lemma bind_returns {A B} (m : M A) (k : A -> M B) (h h' : store) (a : A) :
  m h = (h', inr a) -> bind m k h = k a h'.
Proof. intros H. unfold bind. by rewrite H. Qed.

Lemma bind_same {A B} (m m' : M A) (k : A -> M B) (h : store) :
  m h = m' h -> bind m k h = bind m' k h.
Proof. intros H. unfold bind. by rewrite H. Qed.

Lemma bind_raises {A B} (m : M A) (k : A -> M B) (h h' : store) (e : exn) :
  m h = (h', inl e) -> bind m k h = (h', inl e).
Proof. intros H. unfold bind. by rewrite H. Qed.

(** [merge_dicts] does not take [None] first: with a second argument that
    is a dict with items, [merge_dicts(None, merge_dict, ...)] raises
    [TypeError] at [k in dict_], and no object is created or changed.  (A
    [None] after the first argument is skipped.) *)
Theorem merge_dicts_None_first (fuel : nat) (h : store) (merge_dict : loc)
    (kv : string * value) (d : items) (dicts : list (option loc)) :
  h !! merge_dict = Some (kv :: d) ->
  merge_dicts (S fuel) (None :: Some merge_dict :: dicts) h =
    (h, inl TypeError).
Proof.
  intros Hd.
  assert (Hcopy : deepcopy fuel VNone h = (h, inr VNone)) by (by destruct fuel).
  assert (Hor : or_empty (Some merge_dict) h = (h, inr merge_dict)).
  { simpl. unfold bind, read. by rewrite Hd. }
  assert (Hkeys : keys merge_dict h = (h, inr (fst kv :: map fst d))).
  { unfold keys, bind, read. by rewrite Hd. }
  simpl. etrans; [apply (bind_returns _ _ _ _ _ Hcopy)|].
  apply bind_raises. apply bind_raises.
  etrans; [apply (bind_returns _ _ _ _ _ Hor)|].
  etrans; [apply (bind_returns _ _ _ _ _ Hkeys)|].
  reflexivity.
Qed.

Lemma deepcopy_leaves (fuel : nat) (h : store) (d : items) :
  Forall (fun kv => isinstance_dict (snd kv) = false) d ->
  map_m d (fun kv => v' <- deepcopy fuel (snd kv) ;; ret (fst kv, v')) h =
    (h, inr d).
Proof.
  induction d as [|[k v] d IH]; intros Hd; simpl; [done|].
  apply Forall_cons in Hd as [Hv Hd]. simpl in Hv.
  assert (Hcopy : deepcopy fuel v h = (h, inr v))
    by (destruct v; try discriminate Hv; by destruct fuel).
  unfold bind at 1. unfold bind at 1. rewrite Hcopy. unfold ret at 1.
  unfold bind at 1. by rewrite (IH Hd).
Qed.

(** The loop [for k in merge_dict] of [merge_dicts] over the keys of the
    items [todo] of [merge_dict], when [dict_] has no dict under these keys:
    every item is assigned to [dict_] as it is. *)
Lemma merge_dicts_loop_leaves (fuel : nat) (h : store) (dict_ merge_dict : loc)
    (db : items) :
  h !! dict_ = None ->
  h !! merge_dict = Some db ->
  List.NoDup (map fst db) ->
  forall (todo seen cur : items),
    db = seen ++ todo ->
    (forall k x, In k (map fst todo) -> dict_get k cur = Some x ->
                 isinstance_dict x = false) ->
    for_each (map fst todo) (fun k =>
      k_in_dict <- contains dict_ k ;;
      both_dicts <-
        (if k_in_dict then
           x <- getitem dict_ k ;;
           if isinstance_dict x then
             y <- getitem merge_dict k ;; ret (isinstance_dict y)
           else ret false
         else ret false) ;;
      if both_dicts then
        x <- getitem dict_ k ;;
        y <- getitem merge_dict k ;;
        match x, y with
        | VDict a, VDict b =>
            r <- merge_dicts fuel [Some a; Some b] ;;
            setitem dict_ k r
        | _, _ => raise SystemError
        end
      else
        y <- getitem merge_dict k ;;
        setitem dict_ k y) (<[dict_ := cur]> h) =
    (<[dict_ := fold_left (fun d kv => dict_set (fst kv) (snd kv) d) todo cur]> h,
     inr tt).
Proof.
  intros Hnew Hb Hnd.
  assert (Hne : merge_dict <> dict_) by congruence.
  induction todo as [|[k y] todo IH]; intros seen cur Hdb Hflat; [done|].
  assert (Hy : dict_get k db = Some y).
  { apply dict_get_NoDup; [done|]. rewrite Hdb. apply in_or_app.
    right. by left. }
  assert (Hgetb : getitem merge_dict k (<[dict_ := cur]> h) =
                  (<[dict_ := cur]> h, inr y)).
  { apply (getitem_present _ _ _ db); [|done]. by rewrite lookup_insert_ne. }
  assert (Hflat' : forall k' x, In k' (map fst todo) ->
                     dict_get k' (dict_set k y cur) = Some x ->
                     isinstance_dict x = false).
  { intros k' x Hk' Hx. rewrite dict_get_dict_set in Hx.
    destruct (String.eqb k' k) eqn:E.
    - exfalso. apply String.eqb_eq in E. subst k'.
      rewrite Hdb, map_app in Hnd. apply NoDup_app_remove_l in Hnd.
      simpl in Hnd. apply NoDup_cons_iff in Hnd as [Hnd _]. by apply Hnd.
    - apply (Hflat k' x); [by right|done]. }
  assert (Hdb' : db = (seen ++ [(k, y)]) ++ todo) by (by rewrite <- app_assoc).
  pose proof (IH (seen ++ [(k, y)]) (dict_set k y cur) Hdb' Hflat') as Hrest.
  assert (Hset : setitem dict_ k y (<[dict_ := cur]> h) =
                 (<[dict_ := dict_set k y cur]> h, inr tt)).
  { unfold setitem. by rewrite lookup_insert_eq, insert_insert_eq. }
  change (map fst ((k, y) :: todo)) with (k :: map fst todo).
  etrans; [apply (for_each_cons _ _ _ _ (<[dict_ := dict_set k y cur]> h))
          |exact Hrest].
  cbv beta.
  assert (Hin : contains dict_ k (<[dict_ := cur]> h) =
                (<[dict_ := cur]> h,
                 inr (match dict_get k cur with Some _ => true | None => false end))).
  { unfold contains, bind, read. by rewrite lookup_insert_eq. }
  etrans; [apply (bind_returns _ _ _ _ _ Hin)|].
  destruct (dict_get k cur) as [x|] eqn:Hx.
  - assert (Hgeta : getitem dict_ k (<[dict_ := cur]> h) =
                    (<[dict_ := cur]> h, inr x)).
    { apply (getitem_present _ _ _ cur); [|done]. by rewrite lookup_insert_eq. }
    assert (Hleaf : isinstance_dict x = false)
      by (apply (Hflat k x); [by left|done]).
    etrans; [apply (bind_returns _ _ _ (<[dict_ := cur]> h) false)|].
    { etrans; [apply (bind_returns _ _ _ _ _ Hgeta)|]. by rewrite Hleaf. }
    etrans; [apply (bind_returns _ _ _ _ _ Hgetb)|]. exact Hset.
  - etrans; [apply (bind_returns _ _ _ (<[dict_ := cur]> h) false)|]; [done|].
    etrans; [apply (bind_returns _ _ _ _ _ Hgetb)|]. exact Hset.
Qed.

(** When no value of the first dict is a dict, [merge_dicts(a, b)] is a copy
    of [a] updated with [b], as [dict.update] does it: one new object, whose
    items are those of [a] with every item of [b] assigned in turn.  The
    values of [b] are assigned as they are: a dict among them is shared with
    [b], not copied. *)
Theorem merge_dicts_flat_first (fuel : nat) (h : store) (a b : loc)
    (da db : items) :
  h !! a = Some da ->
  h !! b = Some db ->
  Forall (fun kv => isinstance_dict (snd kv) = false) da ->
  List.NoDup (map fst db) ->
  db <> [] ->
  merge_dicts (S (S fuel)) [Some a; Some b] h =
    (<[fresh (dom h) :=
         fold_left (fun d kv => dict_set (fst kv) (snd kv) d) db da]> h,
     inr (VDict (fresh (dom h)))).
Proof.
  intros Ha Hb Hflat Hnd Hdb.
  assert (Hnew : h !! fresh (dom h) = None)
    by (apply not_elem_of_dom, is_fresh).
  assert (Hne : b <> fresh (dom h)) by congruence.
  assert (Hcopy : deepcopy (S fuel) (VDict a) h =
                  (<[fresh (dom h) := da]> h, inr (VDict (fresh (dom h))))).
  { simpl. unfold bind at 1. unfold read at 1. rewrite Ha.
    unfold bind at 1. by rewrite (deepcopy_leaves fuel h da Hflat). }
  change (merge_dicts (S (S fuel)) [Some a; Some b]) with
    (dict_ <- deepcopy (S fuel) (VDict a) ;;
     for_each [Some b] (fun merge_dict =>
       merge_dict <- or_empty merge_dict ;;
       ks <- keys merge_dict ;;
       for_each ks (fun k =>
         match dict_ with
         | VDict dict_ =>
             k_in_dict <- contains dict_ k ;;
             both_dicts <-
               (if k_in_dict then
                  x <- getitem dict_ k ;;
                  if isinstance_dict x then
                    y <- getitem merge_dict k ;; ret (isinstance_dict y)
                  else ret false
                else ret false) ;;
             if both_dicts then
               x <- getitem dict_ k ;;
               y <- getitem merge_dict k ;;
               match x, y with
               | VDict a, VDict b =>
                   r <- merge_dicts (S fuel) [Some a; Some b] ;;
                   setitem dict_ k r
               | _, _ => raise SystemError
               end
             else
               y <- getitem merge_dict k ;;
               setitem dict_ k y
         | _ => raise TypeError
         end)) ;;;
     ret dict_).
  etrans; [apply (bind_returns _ _ _ _ _ Hcopy)|].
  etrans; [apply (bind_returns _ _ _
             (<[fresh (dom h) :=
                  fold_left (fun d kv => dict_set (fst kv) (snd kv) d) db da]> h)
             tt)|reflexivity].
  simpl.
  etrans; [apply (bind_returns _ _ _
             (<[fresh (dom h) :=
                  fold_left (fun d kv => dict_set (fst kv) (snd kv) d) db da]> h)
             tt)|reflexivity].
  assert (Hor : or_empty (Some b) (<[fresh (dom h) := da]> h) =
                (<[fresh (dom h) := da]> h, inr b)).
  { simpl. unfold bind, read. rewrite lookup_insert_ne by done. rewrite Hb.
    by destruct db. }
  etrans; [apply (bind_returns _ _ _ _ _ Hor)|].
  assert (Hkeys : keys b (<[fresh (dom h) := da]> h) =
                  (<[fresh (dom h) := da]> h, inr (map fst db))).
  { unfold keys, bind, read. rewrite lookup_insert_ne by done. by rewrite Hb. }
  etrans; [apply (bind_returns _ _ _ _ _ Hkeys)|].
  apply (merge_dicts_loop_leaves (S fuel) h (fresh (dom h)) b db Hnew Hb Hnd
           db [] da); [done|].
  intros k x _ Hx. apply dict_get_In in Hx.
  by apply (proj1 (List.Forall_forall _ _) Hflat (k, x)).
Qed.

Lemma merge_dicts_None_first_witness :
  merge_dicts 1 (None :: Some 4%positive :: []) configs =
    (configs, inl TypeError).
Proof.
  apply (merge_dicts_None_first 0 configs 4%positive
           ("opt", VDict 5%positive) [("seed", VInt 7)] []).
  reflexivity.
Defined.

(** [merge_dicts({"eps": 0}, {"opt": {...}, "seed": 7})]: the dict under
    ["opt"] of the result is the one of the second argument, at 5. *)
Lemma merge_dicts_flat_first_witness :
  merge_dicts 2 [Some 5%positive; Some 4%positive] configs =
    (<[fresh (dom configs) :=
         fold_left (fun d kv => dict_set (fst kv) (snd kv) d)
                   [("opt", VDict 5%positive); ("seed", VInt 7)]
                   [("eps", VInt 0)]]> configs,
     inr (VDict (fresh (dom configs)))).
Proof.
  apply (merge_dicts_flat_first 0 configs 5%positive 4%positive
           [("eps", VInt 0)] [("opt", VDict 5%positive); ("seed", VInt 7)]).
  - reflexivity.
  - reflexivity.
  - repeat constructor.
  - repeat constructor; simpl; intuition discriminate.
  - discriminate.
Defined.

(** *** [merge_dicts], read as data *)

Local Ltac split_all := repeat match goal with |- _ /\ _ => split end.

Local Abbreviation merge_step :=
  (fun (acc : list (string * data)) (ky : string * data) =>
     data_set (fst ky)
       (match data_get (fst ky) acc, snd ky with
        | Some (DDict ex), DDict _ => DDict (merge_into ex (snd ky))
        | _, _ => snd ky
        end) acc).

Lemma merge_into_unfold (ea eb : list (string * data)) :
  merge_into ea (DDict eb) = fold_left merge_step eb ea.
Proof.
  revert ea. induction eb as [|[k y] eb IH]; intros ea; [reflexivity|].
  simpl fold_left. rewrite <- IH. reflexivity.
Qed.

Lemma content_items_unchanged (n : nat) (h h' : store) (d : items)
    (es : list (string * data)) :
  unchanged h h' ->
  content_items (content n h) d = Some es ->
  content_items (content n h') d = Some es.
Proof.
  intros Hu. apply content_items_ext. apply List.Forall_forall.
  intros kv _ t. by apply content_unchanged.
Qed.

Lemma content_items_cons (f : value -> option data) (k : string) (v : value)
    (d : items) (es : list (string * data)) :
  content_items f ((k, v) :: d) = Some es ->
  exists t es', f v = Some t /\ content_items f d = Some es' /\
                es = (k, t) :: es'.
Proof.
  simpl. destruct (f v) as [t|]; [|discriminate].
  destruct (content_items f d) as [es'|]; [|discriminate].
  intros [= <-]. by exists t, es'.
Qed.

Lemma content_items_keys (f : value -> option data) (d : items) :
  forall es, content_items f d = Some es -> map fst es = map fst d.
Proof.
  induction d as [|[k v] d IH]; intros es Hes.
  - by injection Hes as <-.
  - apply content_items_cons in Hes as (t & es' & _ & Hes' & ->).
    simpl. by rewrite (IH es' Hes').
Qed.

Lemma content_items_get (f : value -> option data) (k : string) (d : items) :
  forall es, content_items f d = Some es ->
    match dict_get k d with
    | Some x => exists tx, f x = Some tx /\ data_get k es = Some tx
    | None => data_get k es = None
    end.
Proof.
  induction d as [|[k' v] d IH]; intros es Hes.
  - by injection Hes as <-.
  - apply content_items_cons in Hes as (t & es' & Ht & Hes' & ->).
    simpl. destruct (String.eqb k k'); [by exists t|]. by apply IH.
Qed.

Lemma content_items_set (f : value -> option data) (k : string) (v : value)
    (t : data) (d : items) :
  f v = Some t ->
  forall es, content_items f d = Some es ->
    content_items f (dict_set k v d) = Some (data_set k t es).
Proof.
  intros Hv. induction d as [|[k' v'] d IH]; intros es Hes.
  - injection Hes as <-. simpl. by rewrite Hv.
  - apply content_items_cons in Hes as (t' & es' & Ht' & Hes' & ->).
    simpl. destruct (String.eqb k k'); simpl.
    + by rewrite Hv, Hes'.
    + by rewrite Ht', (IH es' Hes').
Qed.

Lemma content_dict (n : nat) (h : store) (l : loc) (t : data) :
  content n h (VDict l) = Some t ->
  exists n' d es,
    n = S n' /\ h !! l = Some d /\
    content_items (content n' h) d = Some es /\ t = DDict es.
Proof.
  destruct n as [|n']; simpl; [discriminate|].
  destruct (h !! l) as [d|]; [|discriminate].
  destruct (content_items (content n' h) d) as [es|] eqn:Hes; [|discriminate].
  intros [= <-]. by exists n', d, es.
Qed.

Lemma content_leaf (n : nat) (h : store) (v : value) (t : data) :
  isinstance_dict v = false ->
  content n h v = Some t ->
  forall y, match t, y with
            | DDict ex, DDict _ => DDict (merge_into ex y)
            | _, _ => y
            end = y.
Proof.
  intros Hv Ht y. destruct v; try discriminate Hv;
    destruct n; simpl in Ht; injection Ht as <-; done.
Qed.

Lemma content_leaf_r (n : nat) (h : store) (v : value) (t : data) :
  isinstance_dict v = false ->
  content n h v = Some t ->
  forall tx, match tx, t with
             | DDict ex, DDict _ => DDict (merge_into ex t)
             | _, _ => t
             end = t.
Proof.
  intros Hv Ht tx. destruct v; try discriminate Hv;
    destruct n; simpl in Ht; injection Ht as <-; by destruct tx.
Qed.

Lemma content_dict_data (n : nat) (h : store) (l : loc) (t : data) :
  content n h (VDict l) = Some t -> exists es, t = DDict es.
Proof.
  intros Ht. apply content_dict in Ht as (n' & d & es & _ & _ & _ & ->).
  by exists es.
Qed.

Lemma grows_refl (h hf : store) : grows h hf hf.
Proof. split; [apply unchanged_refl|auto]. Qed.

Lemma grows_trans (h h' hf hf' hf'' : store) :
  (forall l, h !! l <> None -> h' !! l <> None) ->
  grows h hf hf' -> grows h' hf' hf'' -> grows h hf hf''.
Proof.
  intros Hdom [Hu1 Hg1] [Hu2 Hg2]. split.
  - exact (unchanged_trans _ _ _ Hu1 Hu2).
  - intros l Hl Hl''. apply Hg1; [done|]. apply Hg2; [|done]. by apply Hdom.
Qed.

Lemma unchanged_lookup (h h' : store) (l : loc) :
  unchanged h h' -> h !! l <> None -> h' !! l <> None.
Proof.
  intros Hu Hl. destruct (h !! l) as [d|] eqn:Hd; [|done].
  by rewrite (Hu l d Hd).
Qed.

(** [copy.deepcopy], with the part of the store that the copy is read
    from: the items of a dict, one after the other. *)
Lemma deepcopy_items_part (n fuel : nat) :
  (forall h hf v t, unchanged hf h -> content n hf v = Some t ->
     exists h' v' hf',
       deepcopy fuel v h = (h', inr v') /\ unchanged h h' /\
       unchanged hf' h' /\ grows h hf hf' /\ content n hf' v' = Some t) ->
  forall (d : items) (h hf : store) (es : list (string * data)),
    unchanged hf h ->
    content_items (content n hf) d = Some es ->
    exists h' d' hf',
      map_m d (fun kv => v' <- deepcopy fuel (snd kv) ;; ret (fst kv, v')) h =
        (h', inr d') /\
      unchanged h h' /\ unchanged hf' h' /\ grows h hf hf' /\
      content_items (content n hf') d' = Some es.
Proof.
  intros Hcopy d. induction d as [|[k v] d IH]; intros h hf es Hf Hes.
  - exists h, [], hf. split_all;
      [done|apply unchanged_refl|done|apply grows_refl|done].
  - apply content_items_cons in Hes as (t & es' & Ht & Hes' & ->).
    destruct (Hcopy h hf v t Hf Ht) as (h1 & v1 & hf1 & Hrun1 & Hu1 & Hf1 & Hg1 & Hv1).
    destruct (IH h1 hf1 es' Hf1) as (h2 & d2 & hf2 & Hrun2 & Hu2 & Hf2 & Hg2 & Hd2).
    { apply (content_items_unchanged n hf); [apply Hg1|done]. }
    exists h2, ((k, v1) :: d2), hf2. split_all.
    + simpl. etrans; [apply (bind_returns _ _ _ h1 (k, v1))|].
      { by etrans; [apply (bind_returns _ _ _ _ _ Hrun1)|]. }
      by etrans; [apply (bind_returns _ _ _ _ _ Hrun2)|].
    + exact (unchanged_trans _ _ _ Hu1 Hu2).
    + exact Hf2.
    + apply (grows_trans h h1 hf hf1 hf2); auto.
      intros l. by apply unchanged_lookup.
    + simpl. rewrite Hd2.
      by rewrite (content_unchanged n hf1 hf2 v1 t (proj1 Hg2) Hv1).
Qed.

Lemma deepcopy_part (n : nat) :
  forall (fuel : nat) (h hf : store) (v : value) (t : data),
    (n <= fuel)%nat ->
    unchanged hf h ->
    content n hf v = Some t ->
    exists h' v' hf',
      deepcopy fuel v h = (h', inr v') /\ unchanged h h' /\
      unchanged hf' h' /\ grows h hf hf' /\ content n hf' v' = Some t.
Proof.
  induction n as [|n IH]; intros fuel h hf v t Hfuel Hf Ht.
  - exists h, v, hf. destruct v; try discriminate Ht;
      (split_all; [by destruct fuel|apply unchanged_refl|done
                          |apply grows_refl|done]).
  - destruct v as [| | | |l];
      try (exists h; eexists; exists hf;
           split_all; [by destruct fuel|apply unchanged_refl|done
                              |apply grows_refl|done]).
    destruct fuel as [|fuel]; [lia|].
    apply content_dict in Ht as (n' & d & es & [= <-] & Hd & Hes & ->).
    destruct (deepcopy_items_part n fuel) with (d := d) (h := h) (hf := hf)
      (es := es) as (h1 & d1 & hf1 & Hrun & Hu1 & Hf1 & Hg1 & Hd1); auto.
    { intros h2 hf2 v2 t2. apply IH. lia. }
    assert (Hnew : h1 !! fresh (dom h1) = None)
      by (apply not_elem_of_dom, is_fresh).
    assert (Hnewf : hf1 !! fresh (dom h1) = None).
    { destruct (hf1 !! fresh (dom h1)) as [x|] eqn:Hx; [|done].
      by rewrite (Hf1 _ _ Hx) in Hnew. }
    exists (<[fresh (dom h1) := d1]> h1), (VDict (fresh (dom h1))),
           (<[fresh (dom h1) := d1]> hf1).
    assert (Hup : unchanged hf1 (<[fresh (dom h1) := d1]> hf1)).
    { apply unchanged_insert; [apply unchanged_refl|].
      by apply not_elem_of_dom. }
    split_all.
    + simpl. etrans; [apply (bind_returns _ _ _ h d)|].
      { unfold read. by rewrite (Hf _ _ Hd). }
      by etrans; [apply (bind_returns _ _ _ _ _ Hrun)|].
    + exact (unchanged_trans _ _ _ Hu1 (unchanged_alloc h1 d1)).
    + intros l0 x. destruct (decide (l0 = fresh (dom h1))) as [->|Hl].
      * by rewrite !lookup_insert_eq.
      * rewrite !lookup_insert_ne by done. apply Hf1.
    + split; [exact (unchanged_trans _ _ _ (proj1 Hg1) Hup)|].
      intros l0 Hl Hl'. apply Hg1; [done|].
      rewrite lookup_insert_ne in Hl'; [done|].
      intros <-. apply Hl. destruct (h !! fresh (dom h1)) as [x|] eqn:Hx; [|done].
      by rewrite (Hu1 _ _ Hx) in Hnew.
    + simpl. rewrite lookup_insert_eq.
      by rewrite (content_items_unchanged n hf1 _ d1 es Hup Hd1).
Qed.

(** [copy.deepcopy] of a dict: the copy [dict_] is a new object whose items
    are read from a part [hf'] of the store that does not hold [dict_]. *)
Lemma deepcopy_dict_part (n fuel : nat) (h hf : store) (l : loc)
    (es : list (string * data)) :
  (n < fuel)%nat ->
  unchanged hf h ->
  content (S n) hf (VDict l) = Some (DDict es) ->
  exists h' dict_ d' hf',
    deepcopy fuel (VDict l) h = (<[dict_ := d']> h', inr (VDict dict_)) /\
    unchanged h h' /\ h' !! dict_ = None /\
    unchanged hf' h' /\ grows h hf hf' /\
    content_items (content n hf') d' = Some es.
Proof.
  intros Hfuel Hf Ht. destruct fuel as [|fuel]; [lia|].
  apply content_dict in Ht as (n' & d & es' & [= <-] & Hd & Hes & [= <-]).
  destruct (deepcopy_items_part n fuel) with (d := d) (h := h) (hf := hf)
    (es := es) as (h1 & d1 & hf1 & Hrun & Hu1 & Hf1 & Hg1 & Hd1); auto.
  { intros h2 hf2 v2 t2. apply deepcopy_part. lia. }
  exists h1, (fresh (dom h1)), d1, hf1. split_all; auto.
  - simpl. etrans; [apply (bind_returns _ _ _ h d)|].
    { unfold read. by rewrite (Hf _ _ Hd). }
    by etrans; [apply (bind_returns _ _ _ _ _ Hrun)|].
  - apply not_elem_of_dom, is_fresh.
Qed.

Lemma unchanged_insert_None (hf h : store) (l : loc) (d : items) :
  unchanged hf h -> hf !! l = None -> unchanged hf (<[l := d]> h).
Proof. intros Hu Hl. apply unchanged_insert; [done|]. by apply not_elem_of_dom. Qed.

Lemma unchanged_None (hf h : store) (l : loc) :
  unchanged hf h -> h !! l = None -> hf !! l = None.
Proof.
  intros Hu Hl. destruct (hf !! l) as [x|] eqn:Hx; [|done].
  by rewrite (Hu _ _ Hx) in Hl.
Qed.

Lemma distinct_keys_cons (k : string) (t : data) (es : list (string * data)) :
  distinct_keys (DDict ((k, t) :: es)) ->
  distinct_keys t /\ distinct_keys (DDict es).
Proof.
  simpl. intros [Hnd [Ht Hes]]. apply NoDup_cons_iff in Hnd as [_ Hnd].
  auto.
Qed.

Lemma merge_arg_unchanged (n : nat) (h h' : store) (a : option loc) (t : data) :
  unchanged h h' -> merge_arg n h a t -> merge_arg n h' a t.
Proof.
  intros Hu. destruct a as [l|]; simpl; [|done].
  intros [Ht Hk]. split; [|done]. by apply (content_unchanged n h).
Qed.

(** One unfolding of [merge_dicts]. *)
Lemma merge_dicts_S (fuel : nat) (a : loc) (o : option loc)
    (rest : list (option loc)) :
  merge_dicts (S fuel) (Some a :: o :: rest) =
  (dict_ <- deepcopy fuel (VDict a) ;;
   for_each (o :: rest) (fun merge_dict =>
     merge_dict <- or_empty merge_dict ;;
     ks <- keys merge_dict ;;
     for_each ks (fun k =>
       match dict_ with
       | VDict dict_ =>
           k_in_dict <- contains dict_ k ;;
           both_dicts <-
             (if k_in_dict then
                x <- getitem dict_ k ;;
                if isinstance_dict x then
                  y <- getitem merge_dict k ;; ret (isinstance_dict y)
                else ret false
              else ret false) ;;
           if both_dicts then
             x <- getitem dict_ k ;;
             y <- getitem merge_dict k ;;
             match x, y with
             | VDict a, VDict b =>
                 r <- merge_dicts fuel [Some a; Some b] ;;
                 setitem dict_ k r
             | _, _ => raise SystemError
             end
           else
             y <- getitem merge_dict k ;;
             setitem dict_ k y
       | _ => raise TypeError
       end)) ;;;
   ret dict_).
Proof. reflexivity. Qed.

Section MergeLoop.

Variables (fuel n : nat).

(** The recursive calls, on dicts nested less deep, do what is to be shown. *)
Hypothesis merge_below :
  forall (h hf : store) (a b : loc) (ea : list (string * data)) (tb : data),
    unchanged hf h ->
    content n hf (VDict a) = Some (DDict ea) ->
    content n hf (VDict b) = Some tb ->
    distinct_keys tb ->
    exists h' r hf',
      merge_dicts fuel [Some a; Some b] h = (h', inr (VDict r)) /\
      unchanged h h' /\ h !! r = None /\
      unchanged hf' h' /\ grows h hf hf' /\
      content n hf' (VDict r) = Some (DDict (merge_into ea tb)).

Variable dict_ : loc.

(** [for k in merge_dict] of [merge_dicts], for the copy [dict_]. *)
Local Abbreviation merge_body merge_dict :=
  (fun k : string =>
     k_in_dict <- contains dict_ k ;;
     both_dicts <-
       (if k_in_dict then
          x <- getitem dict_ k ;;
          if isinstance_dict x then
            y <- getitem merge_dict k ;; ret (isinstance_dict y)
          else ret false
        else ret false) ;;
     if both_dicts then
       x <- getitem dict_ k ;;
       y <- getitem merge_dict k ;;
       match x, y with
       | VDict a, VDict b =>
           r <- merge_dicts fuel [Some a; Some b] ;;
           setitem dict_ k r
       | _, _ => raise SystemError
       end
     else
       y <- getitem merge_dict k ;;
       setitem dict_ k y).

Lemma goes_on_lookup (hc hc' : store) (cur' : items) :
  (forall l d, l <> dict_ -> hc !! l = Some d -> hc' !! l = Some d) ->
  hc' !! dict_ = Some cur' ->
  forall l, hc !! l <> None -> hc' !! l <> None.
Proof.
  intros Hkeep Hd l Hl. destruct (decide (l = dict_)) as [->|Hne];
    [by rewrite Hd|].
  destruct (hc !! l) as [d|] eqn:Hx; [|done]. by rewrite (Hkeep l d Hne Hx).
Qed.

(** An assignment [dict_[k] = v] in the loop. *)
Lemma merge_assign (hc hf : store) (cur : items) (acc : list (string * data))
    (k : string) (v : value) (t : data) :
  merging n dict_ hc hf cur acc ->
  content n hf v = Some t ->
  setitem dict_ k v hc = (<[dict_ := dict_set k v cur]> hc, inr tt) /\
  merging n dict_ (<[dict_ := dict_set k v cur]> hc) hf (dict_set k v cur)
          (data_set k t acc) /\
  goes_on dict_ hc hf (<[dict_ := dict_set k v cur]> hc) hf.
Proof.
  intros (Hd & Hf & Hnew & Hcur) Hv. unfold merging, goes_on. split_all.
  - unfold setitem. by rewrite Hd.
  - by rewrite lookup_insert_eq.
  - by apply unchanged_insert_None.
  - exact Hnew.
  - by apply content_items_set.
  - apply grows_refl.
  - intros l d Hl Hx. by rewrite lookup_insert_ne.
Qed.

(** One turn of [for k in merge_dict]. *)
Lemma merge_body_run (merge_dict : loc) (db : items) (hc hf : store)
    (cur : items) (acc : list (string * data)) (k : string) (y : value)
    (ty : data) :
  merge_dict <> dict_ ->
  hc !! merge_dict = Some db ->
  dict_get k db = Some y ->
  merging n dict_ hc hf cur acc ->
  content n hf y = Some ty ->
  distinct_keys ty ->
  exists hc' hf' cur',
    merge_body merge_dict k hc = (hc', inr tt) /\
    merging n dict_ hc' hf' cur' (merge_step acc (k, ty)) /\
    goes_on dict_ hc hf hc' hf'.
Proof.
  intros Hne Hb Hy Hinv Hty Hdist.
  pose proof Hinv as (Hd & Hf & Hnew & Hcur).
  assert (Hgetb : getitem merge_dict k hc = (hc, inr y))
    by exact (getitem_present _ _ _ _ _ Hb Hy).
  assert (Hin : contains dict_ k hc =
                (hc, inr (match dict_get k cur with
                          | Some _ => true | None => false end))).
  { unfold contains, bind, read. by rewrite Hd. }
  (* the turns that end with [dict_[k] = merge_dict[k]] *)
  assert (Hplain :
    (forall tx, data_get k acc = Some tx ->
       match tx, ty with
       | DDict ex, DDict _ => DDict (merge_into ex ty)
       | _, _ => ty
       end = ty) ->
    (both_dicts <- ret false ;;
     if both_dicts : bool then
       x <- getitem dict_ k ;;
       y <- getitem merge_dict k ;;
       match x, y with
       | VDict a, VDict b =>
           r <- merge_dicts fuel [Some a; Some b] ;;
           setitem dict_ k r
       | _, _ => raise SystemError
       end
     else
       y <- getitem merge_dict k ;;
       setitem dict_ k y) hc =
      (<[dict_ := dict_set k y cur]> hc, inr tt) /\
    merging n dict_ (<[dict_ := dict_set k y cur]> hc) hf (dict_set k y cur)
            (merge_step acc (k, ty)) /\
    goes_on dict_ hc hf (<[dict_ := dict_set k y cur]> hc) hf).
  { intros Hval.
    destruct (merge_assign hc hf cur acc k y ty Hinv Hty)
      as (Hset & Hinv' & Hgo).
    split; [|split; [|exact Hgo]].
    - etrans; [apply (bind_returns _ _ _ hc false); reflexivity|].
      etrans; [apply (bind_returns _ _ _ _ _ Hgetb)|]. exact Hset.
    - assert (Hstep : merge_step acc (k, ty) = data_set k ty acc).
      { simpl. destruct (data_get k acc) as [tx|] eqn:Hx; [|done].
        by rewrite (Hval tx eq_refl). }
      rewrite Hstep. exact Hinv'. }
  pose proof (content_items_get (content n hf) k cur acc Hcur) as Hget.
  destruct (dict_get k cur) as [x|] eqn:Hx.
  - destruct Hget as (tx & Htx & Hacc).
    assert (Hgeta : getitem dict_ k hc = (hc, inr x))
      by exact (getitem_present _ _ _ _ _ Hd Hx).
    destruct (isinstance_dict x) eqn:Hxd.
    + destruct (isinstance_dict y) eqn:Hyd.
      * (* both are dicts: the recursive call *)
        destruct x as [| | | |x']; try discriminate Hxd.
        destruct y as [| | | |y']; try discriminate Hyd.
        destruct (content_dict_data _ _ _ _ Htx) as [ex ->].
        destruct (content_dict_data _ _ _ _ Hty) as [ey ->].
        destruct (merge_below hc hf x' y' ex (DDict ey) Hf Htx Hty Hdist)
          as (h1 & r & hf1 & Hrun & Hu1 & Hr & Hf1 & Hg1 & Hres).
        assert (Hd1 : h1 !! dict_ = Some cur) by (by apply Hu1).
        assert (Hnew1 : hf1 !! dict_ = None).
        { destruct (hf1 !! dict_) eqn:E; [|done]. exfalso.
          apply (proj2 Hg1 dict_); [by rewrite Hd|by rewrite E|done]. }
        assert (Hcur1 : content_items (content n hf1) cur = Some acc)
          by exact (content_items_unchanged _ _ _ _ _ (proj1 Hg1) Hcur).
        destruct (merge_assign h1 hf1 cur acc k (VDict r)
                    (DDict (merge_into ex (DDict ey))))
          as (Hset & Hinv' & Hgo); [by unfold merging|done|].
        exists (<[dict_ := dict_set k (VDict r) cur]> h1), hf1,
               (dict_set k (VDict r) cur).
        split; [|split].
        -- etrans; [apply (bind_returns _ _ _ _ _ Hin)|].
           etrans; [apply (bind_returns _ _ _ hc true)|].
           { etrans; [apply (bind_returns _ _ _ _ _ Hgeta)|].
             by etrans; [apply (bind_returns _ _ _ _ _ Hgetb)|]. }
           etrans; [apply (bind_returns _ _ _ _ _ Hgeta)|].
           etrans; [apply (bind_returns _ _ _ _ _ Hgetb)|].
           etrans; [apply (bind_returns _ _ _ _ _ Hrun)|]. exact Hset.
        -- assert (Hstep : merge_step acc (k, DDict ey) =
                           data_set k (DDict (merge_into ex (DDict ey))) acc).
           { simpl. by rewrite Hacc. }
           rewrite Hstep. exact Hinv'.
        -- split; [exact Hg1|]. intros l d Hl Hld.
           rewrite lookup_insert_ne by done. by apply Hu1.
      * destruct Hplain as (Hrun & Hinv' & Hgo).
        { intros tx' Htx'. rewrite Hacc in Htx'. injection Htx' as <-.
          exact (content_leaf_r n hf y ty Hyd Hty tx). }
        exists (<[dict_ := dict_set k y cur]> hc), hf, (dict_set k y cur).
        split; [|split; [exact Hinv'|exact Hgo]].
        etrans; [apply (bind_returns _ _ _ _ _ Hin)|].
        etrans; [apply (bind_same _ (ret false))|exact Hrun].
        etrans; [apply (bind_returns _ _ _ _ _ Hgeta)|]. rewrite Hxd.
        etrans; [apply (bind_returns _ _ _ _ _ Hgetb)|]. by rewrite Hyd.
    + destruct Hplain as (Hrun & Hinv' & Hgo).
      { intros tx' Htx'. rewrite Hacc in Htx'. injection Htx' as <-.
        exact (content_leaf n hf x tx Hxd Htx ty). }
      exists (<[dict_ := dict_set k y cur]> hc), hf, (dict_set k y cur).
      split; [|split; [exact Hinv'|exact Hgo]].
      etrans; [apply (bind_returns _ _ _ _ _ Hin)|].
      etrans; [apply (bind_same _ (ret false))|exact Hrun].
      etrans; [apply (bind_returns _ _ _ _ _ Hgeta)|]. by rewrite Hxd.
  - destruct Hplain as (Hrun & Hinv' & Hgo).
    { intros tx' Htx'. rewrite Hget in Htx'. discriminate Htx'. }
    exists (<[dict_ := dict_set k y cur]> hc), hf, (dict_set k y cur).
    split; [|split; [exact Hinv'|exact Hgo]].
    etrans; [apply (bind_returns _ _ _ _ _ Hin)|]. exact Hrun.
Qed.

Lemma goes_on_refl (hc hf : store) : goes_on dict_ hc hf hc hf.
Proof. split; [apply grows_refl|auto]. Qed.

Lemma goes_on_trans (hc hf hc1 hf1 hc2 hf2 : store) (cur1 : items) :
  hc1 !! dict_ = Some cur1 ->
  goes_on dict_ hc hf hc1 hf1 -> goes_on dict_ hc1 hf1 hc2 hf2 ->
  goes_on dict_ hc hf hc2 hf2.
Proof.
  intros Hd [Hg1 Hk1] [Hg2 Hk2]. split.
  - apply (grows_trans hc hc1 hf hf1 hf2); [|done|done].
    by apply (goes_on_lookup hc hc1 cur1).
  - intros l d Hl Hx. apply Hk2; [done|]. by apply Hk1.
Qed.

(** [for k in merge_dict], over the keys of the items [todo] of
    [merge_dict]. *)
Lemma merge_loop_run (merge_dict : loc) (db : items) :
  merge_dict <> dict_ ->
  List.NoDup (map fst db) ->
  forall (todo seen : items) (etodo : list (string * data)) (hc hf : store)
         (cur : items) (acc : list (string * data)),
    db = seen ++ todo ->
    hc !! merge_dict = Some db ->
    merging n dict_ hc hf cur acc ->
    content_items (content n hf) todo = Some etodo ->
    distinct_keys (DDict etodo) ->
    exists hc' hf' cur',
      for_each (map fst todo) (merge_body merge_dict) hc = (hc', inr tt) /\
      merging n dict_ hc' hf' cur' (fold_left merge_step etodo acc) /\
      goes_on dict_ hc hf hc' hf'.
Proof.
  intros Hne Hnd todo.
  induction todo as [|[k y] todo IH];
    intros seen etodo hc hf cur acc Hdb Hb Hinv Htodo Hdist.
  - injection Htodo as <-. exists hc, hf, cur.
    split; [done|]. split; [exact Hinv|apply goes_on_refl].
  - apply content_items_cons in Htodo as (ty & etodo' & Hty & Htodo' & ->).
    apply distinct_keys_cons in Hdist as [Hdy Hdist].
    assert (Hy : dict_get k db = Some y).
    { apply dict_get_NoDup; [done|]. rewrite Hdb. apply in_or_app.
      right. by left. }
    destruct (merge_body_run merge_dict db hc hf cur acc k y ty
                Hne Hb Hy Hinv Hty Hdy)
      as (hc1 & hf1 & cur1 & Hrun1 & Hinv1 & Hgo1).
    destruct (IH (seen ++ [(k, y)]) etodo' hc1 hf1 cur1
                 (merge_step acc (k, ty)))
      as (hc2 & hf2 & cur2 & Hrun2 & Hinv2 & Hgo2).
    + by rewrite <- app_assoc.
    + by apply Hgo1.
    + exact Hinv1.
    + exact (content_items_unchanged _ _ _ _ _ (proj1 (proj1 Hgo1)) Htodo').
    + exact Hdist.
    + exists hc2, hf2, cur2. split; [|split].
      * change (map fst ((k, y) :: todo)) with (k :: map fst todo).
        etrans; [apply (for_each_cons _ _ _ _ hc1); exact Hrun1|exact Hrun2].
      * exact Hinv2.
      * exact (goes_on_trans _ _ _ _ _ _ cur1 (proj1 Hinv1) Hgo1 Hgo2).
Qed.

(** The turn of the loop [for merge_dict in dicts[1:]] for one argument. *)
Lemma merge_arg_run (o : option loc) (t : data) (hc hf : store) (cur : items)
    (acc : list (string * data)) :
  merging n dict_ hc hf cur acc ->
  merge_arg (S n) hf o t ->
  exists hc' hf' cur',
    (merge_dict <- or_empty o ;;
     ks <- keys merge_dict ;;
     for_each ks (merge_body merge_dict)) hc = (hc', inr tt) /\
    merging n dict_ hc' hf' cur' (merge_into acc t) /\
    goes_on dict_ hc hf hc' hf'.
Proof.
  intros Hinv Harg. pose proof Hinv as (Hd & Hf & Hnew & Hcur).
  assert (Hempty :
    or_empty o hc = (<[fresh (dom hc) := []]> hc, inr (fresh (dom hc))) ->
    t = DDict [] ->
    exists hc' hf' cur',
      (merge_dict <- or_empty o ;;
       ks <- keys merge_dict ;;
       for_each ks (merge_body merge_dict)) hc = (hc', inr tt) /\
      merging n dict_ hc' hf' cur' (merge_into acc t) /\
      goes_on dict_ hc hf hc' hf').
  { intros Hor ->. exists (<[fresh (dom hc) := []]> hc), hf, cur.
    assert (Hfresh : hc !! fresh (dom hc) = None)
      by (apply not_elem_of_dom, is_fresh).
    split; [|split].
    - etrans; [apply (bind_returns _ _ _ _ _ Hor)|].
      by etrans; [apply (bind_returns _ _ _ _ _ (keys_of_new_dict hc))|].
    - split; [|split; [|split]]; [|exact (unchanged_trans _ _ _ Hf (unchanged_alloc hc []))
                                   |exact Hnew|exact Hcur].
      rewrite lookup_insert_ne; [done|congruence].
    - split; [apply grows_refl|]. intros l d _ Hl.
      rewrite lookup_insert_ne; [done|congruence]. }
  destruct o as [b|]; [|by apply Hempty].
  destruct Harg as [Ht Hdist].
  apply content_dict in Ht as (n' & db & eb & [= <-] & Hb & Heb & ->).
  assert (Hbc : hc !! b = Some db) by (by apply Hf).
  assert (Hne : b <> dict_) by congruence.
  destruct db as [|kv db'] eqn:Hdb.
  { injection Heb as <-. apply Hempty; [|done].
    simpl. unfold bind, read. by rewrite Hbc. }
  rewrite <- Hdb in *.
  assert (Hor : or_empty (Some b) hc = (hc, inr b)).
  { simpl. unfold bind, read. rewrite Hbc. by rewrite Hdb. }
  assert (Hkeys : keys b hc = (hc, inr (map fst db))).
  { unfold keys, bind, read. by rewrite Hbc. }
  assert (Hnd : List.NoDup (map fst db)).
  { rewrite <- (content_items_keys _ _ _ Heb). apply Hdist. }
  destruct (merge_loop_run b db Hne Hnd db [] eb hc hf cur acc)
    as (hc' & hf' & cur' & Hrun & Hinv' & Hgo); try done.
  exists hc', hf', cur'. split; [|split; [|exact Hgo]].
  - etrans; [apply (bind_returns _ _ _ _ _ Hor)|].
    etrans; [apply (bind_returns _ _ _ _ _ Hkeys)|]. exact Hrun.
  - by rewrite merge_into_unfold.
Qed.

(** The loop [for merge_dict in dicts[1:]]. *)
Lemma merge_args_run (rest : list (option loc)) :
  forall (ts : list data) (hc hf : store) (cur : items)
         (acc : list (string * data)),
    merging n dict_ hc hf cur acc ->
    Forall2 (merge_arg (S n) hf) rest ts ->
    exists hc' hf' cur',
      for_each rest (fun o =>
        merge_dict <- or_empty o ;;
        ks <- keys merge_dict ;;
        for_each ks (merge_body merge_dict)) hc = (hc', inr tt) /\
      merging n dict_ hc' hf' cur' (fold_left merge_into ts acc) /\
      goes_on dict_ hc hf hc' hf'.
Proof.
  induction rest as [|o rest IH]; intros ts hc hf cur acc Hinv Hargs.
  - inversion Hargs; subst. exists hc, hf, cur.
    split; [done|]. split; [exact Hinv|apply goes_on_refl].
  - inversion Hargs as [|? t ? ts' Harg Hargs']; subst.
    destruct (merge_arg_run o t hc hf cur acc Hinv Harg)
      as (hc1 & hf1 & cur1 & Hrun1 & Hinv1 & Hgo1).
    destruct (IH ts' hc1 hf1 cur1 (merge_into acc t) Hinv1)
      as (hc2 & hf2 & cur2 & Hrun2 & Hinv2 & Hgo2).
    { eapply Forall2_impl; [exact Hargs'|]. intros o' t'.
      apply merge_arg_unchanged, Hgo1. }
    exists hc2, hf2, cur2. split; [|split].
    + etrans; [apply (for_each_cons _ _ _ _ hc1); exact Hrun1|exact Hrun2].
    + exact Hinv2.
    + exact (goes_on_trans _ _ _ _ _ _ cur1 (proj1 Hinv1) Hgo1 Hgo2).
Qed.

End MergeLoop.

(** [merge_dicts] on a first dict that is read as [DDict ea] and on further
    arguments read as [ts], with the part of the store that the result is
    read from. *)
Lemma merge_dicts_part (fuel : nat) :
  forall (n : nat) (h hf : store) (a : loc) (rest : list (option loc))
         (ea : list (string * data)) (ts : list data),
    (n < fuel)%nat ->
    rest <> [] ->
    unchanged hf h ->
    content n hf (VDict a) = Some (DDict ea) ->
    Forall2 (merge_arg n hf) rest ts ->
    exists h' r hf',
      merge_dicts fuel (Some a :: rest) h = (h', inr (VDict r)) /\
      unchanged h h' /\ h !! r = None /\
      unchanged hf' h' /\ grows h hf hf' /\
      content n hf' (VDict r) = Some (DDict (fold_left merge_into ts ea)).
Proof.
  induction fuel as [|fuel IH]; intros n h hf a rest ea ts Hfuel Hrest Hf Ha Hargs;
    [lia|].
  pose proof Ha as Ha'.
  apply content_dict in Ha' as (n' & da & ea' & -> & Hda & Hea & [= <-]).
  destruct (deepcopy_dict_part n' fuel h hf a ea)
    as (h1 & dict_ & d' & hf1 & Hcopy & Hu1 & Hnew1 & Hf1 & Hg1 & Hd');
    [lia|done|done|].
  assert (Hbelow :
    forall (h hf : store) (a b : loc) (ea : list (string * data)) (tb : data),
      unchanged hf h ->
      content n' hf (VDict a) = Some (DDict ea) ->
      content n' hf (VDict b) = Some tb ->
      distinct_keys tb ->
      exists h' r hf',
        merge_dicts fuel [Some a; Some b] h = (h', inr (VDict r)) /\
        unchanged h h' /\ h !! r = None /\
        unchanged hf' h' /\ grows h hf hf' /\
        content n' hf' (VDict r) = Some (DDict (merge_into ea tb))).
  { intros h0 hf0 a0 b0 ea0 tb0 Hf0 Ha0 Hb0 Hdist0.
    apply (IH n' h0 hf0 a0 [Some b0] ea0 [tb0]); [lia|done|done|done|].
    constructor; [by split|constructor]. }
  assert (Hnewh : h !! dict_ = None) by exact (unchanged_None _ _ _ Hu1 Hnew1).
  assert (Hnewf : hf1 !! dict_ = None) by exact (unchanged_None _ _ _ Hf1 Hnew1).
  assert (Hinv : merging n' dict_ (<[dict_ := d']> h1) hf1 d' ea).
  { split; [by rewrite lookup_insert_eq|].
    split; [by apply unchanged_insert_None|]. by split. }
  destruct (merge_args_run fuel n' Hbelow dict_ rest ts
              (<[dict_ := d']> h1) hf1 d' ea Hinv)
    as (hc' & hf' & cur' & Hrun & Hinv' & Hgo).
  { eapply Forall2_impl; [exact Hargs|]. intros o t.
    apply merge_arg_unchanged, Hg1. }
  destruct Hinv' as (Hd'' & Hf' & Hnew' & Hcur').
  assert (Hup : unchanged hf' (<[dict_ := cur']> hf'))
    by (apply unchanged_insert_None; [apply unchanged_refl|done]).
  exists hc', dict_, (<[dict_ := cur']> hf'). split_all.
  - destruct rest as [|o rest]; [done|]. rewrite merge_dicts_S.
    etrans; [apply (bind_returns _ _ _ _ _ Hcopy)|].
    etrans; [apply (bind_returns _ _ _ hc' tt)|reflexivity]. exact Hrun.
  - intros l d Hl. apply Hgo; [congruence|].
    rewrite lookup_insert_ne by congruence. by apply Hu1.
  - exact Hnewh.
  - intros l d. destruct (decide (l = dict_)) as [->|Hl].
    + rewrite lookup_insert_eq. by intros [= <-].
    + rewrite lookup_insert_ne by done. apply Hf'.
  - split.
    + exact (unchanged_trans _ _ _ (proj1 Hg1)
               (unchanged_trans _ _ _ (proj1 (proj1 Hgo)) Hup)).
    + intros l Hl Hl'.
      assert (Hne : l <> dict_) by congruence.
      rewrite lookup_insert_ne in Hl' by done.
      apply Hg1; [done|]. apply (proj2 (proj1 Hgo)); [|done].
      rewrite lookup_insert_ne by done. by apply (unchanged_lookup h).
  - simpl. rewrite lookup_insert_eq.
    by rewrite (content_items_unchanged n' hf' _ cur' _ Hup Hcur').
Qed.

(** What [merge_dicts] computes.  For a first argument [a] that reads as
    the data [DDict ea] and further arguments that read as the data [ts]
    ([None] reads as the empty dict), [merge_dicts(a, ...)] returns a new
    dict that reads as [ea] with the further arguments merged into it from
    left to right: each key of an argument is assigned in turn, at the end
    for a key not yet there, and where both sides hold a dict under the key
    the two are merged in the same way, at every depth.  The objects that
    existed are as they were. *)
Theorem merge_dicts_content (n fuel : nat) (h : store) (a : loc)
    (rest : list (option loc)) (ea : list (string * data)) (ts : list data) :
  (n < fuel)%nat ->
  rest <> [] ->
  content n h (VDict a) = Some (DDict ea) ->
  Forall2 (merge_arg n h) rest ts ->
  exists (h' : store) (r : loc),
    merge_dicts fuel (Some a :: rest) h = (h', inr (VDict r)) /\
    h !! r = None /\
    unchanged h h' /\
    content n h' (VDict r) = Some (DDict (fold_left merge_into ts ea)).
Proof.
  intros Hfuel Hrest Ha Hargs.
  destruct (merge_dicts_part fuel n h h a rest ea ts Hfuel Hrest
              (unchanged_refl h) Ha Hargs)
    as (h' & r & hf' & Hrun & Hu & Hnew & Hf' & _ & Hres).
  exists h', r. split_all; [done|done|done|].
  exact (content_unchanged _ _ _ _ _ Hf' Hres).
Qed.

(** [merge_dicts(configs[1], None, configs[4])]:
    [{"lr": 1, "opt": {"name": "adam"}}] with [None] and
    [{"opt": {"eps": 0}, "seed": 7}]. *)
Lemma merge_dicts_content_witness :
  exists (h' : store) (r : loc),
    merge_dicts 3 [Some 1%positive; None; Some 4%positive] configs =
      (h', inr (VDict r)) /\
    configs !! r = None /\
    unchanged configs h' /\
    content 2 h' (VDict r) =
      Some (DDict (fold_left merge_into
                     [DDict [];
                      DDict [("opt", DDict [("eps", DInt 0)]);
                             ("seed", DInt 7)]]
                     [("lr", DInt 1); ("opt", DDict [("name", DStr "adam")])])).
Proof.
  apply (merge_dicts_content 2 3 configs 1%positive
           [None; Some 4%positive]
           [("lr", DInt 1); ("opt", DDict [("name", DStr "adam")])]
           [DDict [];
            DDict [("opt", DDict [("eps", DInt 0)]); ("seed", DInt 7)]]).
  - lia.
  - discriminate.
  - reflexivity.
  - constructor; [reflexivity|]. constructor; [|constructor].
    split; [reflexivity|]. simpl.
    repeat constructor; simpl; intuition discriminate.
Defined.

(** The data of the result above. *)
Example merge_into_configs :
  fold_left merge_into
    [DDict []; DDict [("opt", DDict [("eps", DInt 0)]); ("seed", DInt 7)]]
    [("lr", DInt 1); ("opt", DDict [("name", DStr "adam")])] =
  [("lr", DInt 1);
   ("opt", DDict [("name", DStr "adam"); ("eps", DInt 0)]);
   ("seed", DInt 7)].
Proof. reflexivity. Qed.

(** *** [flatten_dict], then [split_dict_to_subdicts] *)

Lemma new_key_startswith (parent_key separator key : string) :
  startswith (new_key parent_key separator key) parent_key = true.
Proof.
  unfold startswith. destruct parent_key as [|c p]; [by destruct key|].
  apply prefix_append.
Qed.

Lemma filter_none {A} (P : A -> Prop) `{forall x, Decision (P x)} (l : list A) :
  (forall x, In x l -> ~ P x) -> filter P l = [].
Proof.
  induction l as [|x l IH]; intros Hl; [done|].
  rewrite filter_cons_False by (apply Hl; by left).
  apply IH. intros y Hy. apply Hl. by right.
Qed.

Lemma filter_all {A} (P : A -> Prop) `{forall x, Decision (P x)} (l : list A) :
  (forall x, In x l -> P x) -> filter P l = l.
Proof.
  induction l as [|x l IH]; intros Hl; [done|].
  rewrite filter_cons_True by (apply Hl; by left).
  f_equal. apply IH. intros y Hy. apply Hl. by right.
Qed.

(** [flatten_dict] of a dict without dicts among its values. *)
Lemma flatten_dict_flat_run (fuel : nat) (h : store) (dictionary : loc)
    (d : items) (parent_key separator : string) :
  h !! dictionary = Some d ->
  List.NoDup (map fst d) ->
  Forall (fun kv => isinstance_dict (snd kv) = false) d ->
  flatten_dict (S fuel) dictionary parent_key separator h =
    (<[fresh (dom h) :=
         map (fun kv => (new_key parent_key separator (fst kv), snd kv)) d]> h,
     inr (fresh (dom h))).
Proof.
  intros Hd Hnd Hflat. rewrite flatten_dict_S.
  etrans; [apply (bind_returns _ _ _ h d); unfold read; by rewrite Hd|].
  etrans; [apply (bind_returns _ _ _ _ _
                    (flatten_dict_leaves fuel parent_key separator h d [] Hflat))|].
  rewrite app_nil_l. unfold new_dict.
  by rewrite (dict_of_pairs_distinct _
                (new_key_NoDup parent_key separator d Hnd)).
Qed.

Lemma dicts_of_leaves_unchanged (h h' : store) (d : items) :
  unchanged h h' -> dicts_of_leaves h d -> dicts_of_leaves h' d.
Proof.
  intros Hu Hd. unfold dicts_of_leaves in *.
  eapply Forall_impl; [exact Hd|]. intros pv (l & sub & Hv & Hl & Hsub).
  exists l, sub. split; [done|]. split; [by apply Hu|done].
Qed.

Lemma two_level_items_unchanged (h h' : store) (separator : string) (d : items) :
  unchanged h h' -> dicts_of_leaves h d ->
  two_level_items h' separator d = two_level_items h separator d.
Proof.
  intros Hu Hd. unfold two_level_items.
  induction Hd as [|[p v] d (l & sub & Hv & Hl & _) _ IH]; [done|].
  simpl in *. subst v. by rewrite Hl, (Hu _ _ Hl), IH.
Qed.

(** The loop of [flatten_dict] over items whose values are dicts of
    leaves. *)
Lemma flatten_dict_two_levels (fuel : nat) (separator : string) :
  forall (todo : items) (h : store) (acc : items),
    dicts_of_leaves h todo ->
    exists h',
      fold_m todo acc (fun items kv =>
         match snd kv with
         | VDict sub =>
             r <- flatten_dict (S fuel) sub
                    (new_key EmptyString separator (fst kv)) separator ;;
             sub_items <- read r ;;
             ret (items ++ sub_items)
         | _ => ret (items ++ [(new_key EmptyString separator (fst kv), snd kv)])
         end) h = (h', inr (acc ++ two_level_items h separator todo)) /\
      unchanged h h'.
Proof.
  induction todo as [|[p v] todo IH]; intros h acc Htodo.
  - exists h. simpl. unfold ret. rewrite app_nil_r.
    split; [done|apply unchanged_refl].
  - pose proof Htodo as Htodo0.
    apply Forall_cons in Htodo as [(l & sub & Hv & Hl & Hnd & Hleaves) Htodo].
    simpl in Hv. subst v.
    pose proof (flatten_dict_flat_run fuel h l sub p separator Hl Hnd Hleaves)
      as Hrun.
    remember (map (fun kv => (new_key p separator (fst kv), snd kv)) sub)
      as block eqn:Hblock.
    remember (<[fresh (dom h) := block]> h) as h1 eqn:Hh1.
    assert (Hu : unchanged h h1) by (subst h1; apply unchanged_alloc).
    destruct (IH h1 (acc ++ block)) as (h' & Hrest & Hu').
    { by apply (dicts_of_leaves_unchanged h). }
    exists h'. split; [|exact (unchanged_trans _ _ _ Hu Hu')].
    rewrite (two_level_items_unchanged h _ separator todo Hu Htodo) in Hrest.
    simpl. etrans; [apply (bind_returns _ _ _ h1 (acc ++ block))|].
    { etrans; [apply (bind_returns _ _ _ _ _ Hrun)|].
      etrans; [apply (bind_returns _ _ _ h1 block)|done].
      unfold read. subst h1. by rewrite lookup_insert_eq. }
    etrans; [exact Hrest|]. unfold two_level_items. simpl. rewrite Hl.
    by rewrite <- app_assoc, Hblock.
Qed.

Lemma two_level_items_In (h : store) (separator : string) (d : items)
    (kv : string * value) :
  dicts_of_leaves h d ->
  In kv (two_level_items h separator d) ->
  exists q l sub k,
    In (q, VDict l) d /\ h !! l = Some sub /\ In (k, snd kv) sub /\
    fst kv = new_key q separator k.
Proof.
  intros Hd Hin. unfold two_level_items in Hin.
  apply in_flat_map in Hin as ([q v] & Hq & Hin).
  pose proof (proj1 (List.Forall_forall _ _) Hd _ Hq)
    as (l & sub & Hv & Hl & _).
  simpl in Hv, Hin. subst v. rewrite Hl in Hin.
  apply in_map_iff in Hin as ([k x] & <- & Hk).
  exists q, l, sub, k. by split_all.
Qed.

Section SplitBack.

Variables (h : store) (d : items).

(** A key of the flat dict starts with one key of the nested dict only, the
    one of the dict it comes from. *)
Hypothesis own_prefix :
  forall p q l sub k,
    In p (map fst d) -> In (q, VDict l) d -> h !! l = Some sub ->
    In k (map fst sub) ->
    startswith (new_key q "_" k) p = true -> p = q.

Hypothesis distinct : List.NoDup (map fst d).

Hypothesis leaves : dicts_of_leaves h d.

Lemma two_level_items_NoDup (todo seen : items) :
  d = seen ++ todo ->
  List.NoDup (map fst (two_level_items h "_" todo)).
Proof.
  revert seen. induction todo as [|[q v] todo IH]; intros seen Hd;
    [constructor|].
  assert (Hq : In (q, v) d) by (rewrite Hd; apply in_or_app; right; by left).
  pose proof (proj1 (List.Forall_forall _ _) leaves _ Hq)
    as (l & sub & Hv & Hl & Hnd & _).
  simpl in Hv. subst v.
  assert (Htodo : dicts_of_leaves h todo).
  { unfold dicts_of_leaves in *. rewrite Hd in leaves.
    apply Forall_app in leaves as [_ Hl']. by apply Forall_cons in Hl' as [_ ?]. }
  unfold two_level_items. simpl. rewrite Hl. rewrite map_app.
  apply List.NoDup_app.
  - by apply new_key_NoDup.
  - apply (IH (seen ++ [(q, VDict l)])). by rewrite <- app_assoc.
  - intros x Hx Hx'.
    apply in_map_iff in Hx as ([x1 v1] & <- & Hx).
    apply in_map_iff in Hx as ([k v2] & [= <- <-] & Hk).
    apply in_map_iff in Hx' as ([x2 v3] & Hx2 & Hx').
    simpl in Hx2. subst x2.
    apply (two_level_items_In h "_" todo _ Htodo) in Hx'
      as (q' & l' & sub' & k' & Hq' & Hl' & Hk' & Hkey).
    simpl in Hkey.
    assert (Hqq : q = q').
    { apply (own_prefix q q' l' sub' k').
      - apply in_map_iff. by exists (q, VDict l).
      - rewrite Hd. apply in_or_app. right. by right.
      - exact Hl'.
      - apply in_map_iff. by exists (k', v3).
      - rewrite <- Hkey. apply new_key_startswith. }
    subst q'. rewrite Hd, map_app in distinct.
    apply NoDup_app_remove_l in distinct. simpl in distinct.
    apply NoDup_cons_iff in distinct as [Hnotin _]. apply Hnotin.
    apply in_map_iff. by exists (q, VDict l').
Qed.

Lemma two_level_items_filter (pre post : items) (p : string) (l : loc)
    (sub : items) :
  d = pre ++ (p, VDict l) :: post ->
  h !! l = Some sub ->
  filter (fun kv => startswith (fst kv) p) (two_level_items h "_" d) =
    map (fun kv => (new_key p "_" (fst kv), snd kv)) sub.
Proof.
  intros Hd Hl.
  assert (Hother : forall part : items,
    (forall x, In x part -> In x d) ->
    ~ In p (map fst part) ->
    filter (fun kv => startswith (fst kv) p) (two_level_items h "_" part) = []).
  { intros part Hpart Hp. apply filter_none. intros kv Hkv Hstarts.
    assert (Hleaves : dicts_of_leaves h part).
    { apply List.Forall_forall. intros x Hx.
      apply (proj1 (List.Forall_forall _ _) leaves). by apply Hpart. }
    apply (two_level_items_In h "_" part _ Hleaves) in Hkv
      as (q & l' & sub' & k & Hq & Hl' & Hk & Hkey).
    assert (Hpq : p = q).
    { apply (own_prefix p q l' sub' k).
      - rewrite Hd, map_app. apply in_or_app. right. by left.
      - by apply Hpart.
      - exact Hl'.
      - apply in_map_iff. by exists (k, snd kv).
      - rewrite <- Hkey. by apply Is_true_true_1. }
    subst q. apply Hp. apply in_map_iff. by exists (p, VDict l'). }
  pose proof distinct as Hnd. rewrite Hd, map_app in Hnd. simpl in Hnd.
  apply NoDup_remove_2 in Hnd.
  rewrite Hd at 1. unfold two_level_items. rewrite flat_map_app. simpl.
  rewrite Hl. rewrite !filter_app.
  fold (two_level_items h "_" pre). fold (two_level_items h "_" post).
  rewrite (Hother pre), (Hother post).
  - rewrite app_nil_l, app_nil_r. apply filter_all.
    intros kv Hkv. apply in_map_iff in Hkv as ([k v] & <- & _). simpl.
    apply Is_true_true_2, new_key_startswith.
  - intros x Hx. rewrite Hd. apply in_or_app. right. by right.
  - intros Hin. apply Hnd. apply in_or_app. by right.
  - intros x Hx. rewrite Hd. apply in_or_app. by left.
  - intros Hin. apply Hnd. apply in_or_app. by left.
Qed.

Lemma two_level_items_matched :
  filter (fun kv => forallb (fun prefix => negb (startswith (fst kv) prefix))
                            (map fst d))
         (two_level_items h "_" d) = [].
Proof.
  apply filter_none. intros kv Hkv Hall.
  apply (two_level_items_In h "_" d _ leaves) in Hkv
    as (q & l & sub & k & Hq & Hl & Hk & Hkey).
  apply Is_true_true_1 in Hall.
  rewrite forallb_forall in Hall.
  specialize (Hall q). rewrite Hkey, new_key_startswith in Hall.
  assert (Hin : In q (map fst d)) by (apply in_map_iff; by exists (q, VDict l)).
  by specialize (Hall Hin).
Qed.

End SplitBack.

(** [split_dict_to_subdicts] undoes [flatten_dict] with the separator ["_"].
    Let every value of [dct] be a dict without dicts among its values, and
    let the keys be such that each flat key starts with one key of [dct]
    only, and gives back the inner key when that key followed by ["_"] is
    removed.  Then flattening [dct] and splitting the flat dict by the keys
    of [dct] yields a dict with the keys of [dct] at most, which has under
    each key of [dct] a new dict with the very items of the dict that [dct]
    has there, and no dict under [extra_key]. *)
Theorem flatten_then_split (fuel : nat) (h : store) (dct : loc) (d : items)
    (extra_key : string) :
  h !! dct = Some d ->
  List.NoDup (map fst d) ->
  dicts_of_leaves h d ->
  (forall p q l sub k,
     In p (map fst d) -> In (q, VDict l) d -> h !! l = Some sub ->
     In k (map fst sub) ->
     startswith (new_key q "_" k) p = true -> p = q) ->
  (forall p l sub k,
     In (p, VDict l) d -> h !! l = Some sub -> In k (map fst sub) ->
     replace (p +:+ "_") "" (new_key p "_" k) = k) ->
  exists (h1 : store) (flat : loc) (h2 : store) (subdicts : loc)
         (entries : items),
    flatten_dict (S (S fuel)) dct "" "_" h = (h1, inr flat) /\
    split_dict_to_subdicts flat (map fst d) extra_key h1 =
      (h2, inr (VDict subdicts)) /\
    h2 !! subdicts = Some entries /\
    (forall k, In k (map fst entries) -> In k (map fst d)) /\
    (forall p l sub,
       In (p, VDict l) d -> h !! l = Some sub ->
       exists s, dict_get p entries = Some (VDict s) /\
                 h !! s = None /\ h2 !! s = Some sub).
Proof.
  intros Hd Hnd Hleaves Hown Hback.
  destruct (flatten_dict_two_levels fuel "_" d h [] Hleaves) as (h0 & Hfold & Hu0).
  rewrite app_nil_l in Hfold.
  pose proof (two_level_items_NoDup h d Hown Hnd Hleaves d [] eq_refl) as HndF.
  remember (two_level_items h "_" d) as F eqn:HF.
  remember (<[fresh (dom h0) := F]> h0) as h1 eqn:Hh1.
  assert (Hu1 : unchanged h h1).
  { subst h1. exact (unchanged_trans _ _ _ Hu0 (unchanged_alloc h0 F)). }
  assert (Hflat : h1 !! fresh (dom h0) = Some F)
    by (subst h1; by rewrite lookup_insert_eq).
  destruct (split_dict_to_subdicts_run h1 (fresh (dom h0)) F (map fst d)
              extra_key Hflat)
    as (h2 & entries & Hrun & Hentries & Hsubs & Hextra & Hkeys).
  exists h1, (fresh (dom h0)), h2, (fresh (dom h1)), entries. split_all.
  - rewrite flatten_dict_S.
    etrans; [apply (bind_returns _ _ _ h d); unfold read; by rewrite Hd|].
    etrans; [apply (bind_returns _ _ _ _ _ Hfold)|].
    unfold new_dict. by rewrite (dict_of_pairs_distinct F HndF), Hh1.
  - exact Hrun.
  - exact Hentries.
  - intros k Hk. destruct (Hkeys k Hk) as [->|Hin]; [|done].
    destruct (in_dec string_dec extra_key (map fst d)) as [Hin|Hout]; [done|].
    exfalso. specialize (Hextra Hout).
    rewrite HF, (two_level_items_matched h d Hleaves) in Hextra.
    by apply dict_get_None in Hextra.
  - intros p l sub Hp Hl.
    assert (Hin : In p (map fst d)) by (apply in_map_iff; by exists (p, VDict l)).
    destruct (Hsubs p Hin) as (s & Hget & Hnew & Hs).
    exists s. split; [exact Hget|]. split; [exact (unchanged_None _ _ _ Hu1 Hnew)|].
    rewrite Hs. f_equal.
    destruct (in_split _ _ Hp) as (pre & post & Hsplit).
    rewrite HF, (two_level_items_filter h d Hown Hnd Hleaves pre post p l sub
                   Hsplit Hl).
    pose proof (proj1 (List.Forall_forall _ _) Hleaves _ Hp)
      as (l' & sub' & Hv & Hl' & Hndsub & _).
    simpl in Hv. injection Hv as <-. rewrite Hl in Hl'. injection Hl' as <-.
    rewrite map_map. simpl.
    assert (Hid : map (fun kv : string * value =>
                         (replace (p +:+ "_") "" (new_key p "_" (fst kv)), snd kv))
                      sub = sub).
    { rewrite <- (map_id sub) at 2. apply map_ext_in. intros [k v] Hk. simpl.
      f_equal. apply (Hback p l sub k Hp Hl).
      apply in_map_iff. by exists (k, v). }
    rewrite Hid. by apply dict_of_pairs_distinct.
Qed.

Lemma flatten_then_split_witness :
  exists (h1 : store) (flat : loc) (h2 : store) (subdicts : loc)
         (entries : items),
    flatten_dict 2 1%positive "" "_" nested_metrics = (h1, inr flat) /\
    split_dict_to_subdicts flat
        (map fst [("train", VDict 2%positive); ("valid", VDict 3%positive)])
        "_base" h1 = (h2, inr (VDict subdicts)) /\
    h2 !! subdicts = Some entries /\
    (forall k, In k (map fst entries) ->
       In k (map fst [("train", VDict 2%positive); ("valid", VDict 3%positive)])) /\
    (forall p l sub,
       In (p, VDict l) [("train", VDict 2%positive); ("valid", VDict 3%positive)] ->
       nested_metrics !! l = Some sub ->
       exists s, dict_get p entries = Some (VDict s) /\
                 nested_metrics !! s = None /\ h2 !! s = Some sub).
Proof.
  apply (flatten_then_split 0 nested_metrics 1%positive
           [("train", VDict 2%positive); ("valid", VDict 3%positive)] "_base").
  - reflexivity.
  - repeat constructor; simpl; intuition discriminate.
  - repeat constructor; simpl.
    + exists 2%positive, [("loss", VInt 1); ("acc", VInt 2)].
      split_all; [done|done| |repeat constructor].
      repeat constructor; simpl; intuition discriminate.
    + exists 3%positive, [("loss", VInt 3)].
      split_all; [done|done| |repeat constructor].
      repeat constructor; simpl; intuition discriminate.
  - intros p q l sub k Hp Hq Hl Hk Hstarts.
    destruct Hp as [<-|[<-|[]]];
      destruct Hq as [[= <- <-]|[[= <- <-]|[]]];
      try reflexivity;
      vm_compute in Hl; injection Hl as <-;
      simpl in Hk; intuition (subst; discriminate Hstarts).
  - intros p l sub k Hp Hl Hk.
    destruct Hp as [[= <- <-]|[[= <- <-]|[]]];
      vm_compute in Hl; injection Hl as <-;
      simpl in Hk; intuition (subst; reflexivity).
Defined.

(** *** [get_key_dict] and [get_key_list] *)

Lemma map_m_map {A B C} (f : A -> B) (g : B -> M C) (l : list A) (h : store) :
  map_m (map f l) g h = map_m l (fun x => g (f x)) h.
Proof.
  revert h. induction l as [|x l IH]; intros h; [done|].
  simpl. unfold bind at 1 3. destruct (g (f x) h) as [h1 [e|y]]; [done|].
  unfold bind. by rewrite IH.
Qed.

(** Renaming every key to itself is selecting: with a [key] dict that maps
    each key of the list [ks] to itself, [get_key_dict] does what
    [get_key_list] does with [ks], the same result in the same store, and
    the same [KeyError] when [dictionary] lacks a key. *)
Theorem get_key_dict_identity (h : store) (dictionary key : loc)
    (ks : list string) :
  h !! key = Some (map (fun k => (k, VStr k)) ks) ->
  get_key_dict dictionary key h = get_key_list dictionary ks h.
Proof.
  intros Hkey. unfold get_key_dict, get_key_list.
  etrans; [apply (bind_returns _ _ _ h (map (fun k => (k, VStr k)) ks));
           unfold read; by rewrite Hkey|].
  apply bind_same. apply map_m_map.
Qed.

Lemma get_key_dict_identity_witness :
  get_key_dict 4%positive 6%positive
    (<[6%positive := map (fun k => (k, VStr k)) ["seed"; "lr"]]> configs) =
  get_key_list 4%positive ["seed"; "lr"]
    (<[6%positive := map (fun k => (k, VStr k)) ["seed"; "lr"]]> configs).
Proof.
  apply (get_key_dict_identity _ 4%positive 6%positive ["seed"; "lr"]).
  reflexivity.
Defined.

(** *** [append_dict] of a dict to itself *)

(** [append_dict(d, d)], one dict of arrays in both places: every array of
    [d] is doubled, in [d] itself.  Each turn of the loop reads both arrays
    under its key before it assigns, and no turn sees the assignment of
    another key. *)
Theorem append_dict_to_itself (h : store) (d : loc) (items1 : items) :
  h !! d = Some items1 ->
  List.NoDup (map fst items1) ->
  Forall (fun kv => exists a, snd kv = VArray a) items1 ->
  append_dict d d h =
    (<[d := map (fun kv => (fst kv,
                            match snd kv with
                            | VArray a => VArray (a ++ a)
                            | v => v
                            end)) items1]> h,
     inr (VDict d)).
Proof.
  intros Hd Hnd Harr.
  assert (Hfor : arrays_for items1 items1).
  { apply List.Forall_forall. intros [k v] Hin.
    destruct (proj1 (List.Forall_forall _ _) Harr _ Hin) as [a Ha].
    simpl in Ha. subst v. exists a, a. split; [done|].
    by apply dict_get_NoDup. }
  rewrite (append_dict_run h d d items1 items1 Hd Hd Hnd Hfor).
  f_equal. f_equal. unfold appended. apply map_ext_in. intros [k v] Hin.
  destruct (proj1 (List.Forall_forall _ _) Harr _ Hin) as [a Ha].
  simpl in Ha. subst v. simpl. by rewrite (dict_get_NoDup k _ _ Hnd Hin).
Qed.

Lemma append_dict_to_itself_witness :
  append_dict 1%positive 1%positive two_batches =
    (<[1%positive := map (fun kv => (fst kv,
                                     match snd kv with
                                     | VArray a => VArray (a ++ a)
                                     | v => v
                                     end)) [("x", VArray [1; 2])]]> two_batches,
     inr (VDict 1%positive)).
Proof.
  apply (append_dict_to_itself two_batches 1%positive [("x", VArray [1; 2])]).
  - reflexivity.
  - repeat constructor. simpl. tauto.
  - repeat constructor. by exists [1; 2].
Defined.

End DictMore.
